(** * OfflineIMAP: the folder synchronisation engine and its IMAP helpers

    A shallow embedding of [offlineimap/imaputil.py],
    [offlineimap/folder/Base.py] and [offlineimap/folder/IMAP.py], and the
    properties of the synchroniser that follow from the code. *)

From Stdlib Require Import ZArith Lia Ascii String List DecimalString.
From stdpp Require Import base tactics option list sorting gmap strings.

Set Warnings "-clear-no-such-hyp".

Local Open Scope Z_scope.

(** ** offlineimap/imaputil.py *)

Module imaputil.
Local Open Scope string_scope.

(** Python's [str(n)] for an [int]. *)
Definition str (n : Z) : string := NilZero.string_of_int (Z.to_int n).

(** [s.startswith(p)]. *)
Fixpoint startswith (p s : string) : bool :=
  match p, s with
  | EmptyString, _ => true
  | String a p', String b s' => if Ascii.eqb a b then startswith p' s' else false
  | String _ _, EmptyString => false
  end.

(** [s.endswith(p)] for a one-character [p], the only use in this module. *)
Fixpoint endswith_char (c : ascii) (s : string) : bool :=
  match s with
  | EmptyString => false
  | String a EmptyString => Ascii.eqb a c
  | String _ s' => endswith_char c s'
  end.

(** [s.replace(old, new)] for a non-empty [old]: the occurrences of [old] are
    found left to right and do not overlap.  [skip] counts the characters of
    a matched occurrence that are still to be dropped. *)
Fixpoint replace_from (old new : string) (skip : nat) (s : string) : string :=
  match s with
  | EmptyString => EmptyString
  | String c s' =>
      match skip with
      | S k => replace_from old new k s'
      | O =>
          if startswith old s
          then new ++ replace_from old new (String.length old - 1) s'
          else String c (replace_from old new 0 s')
      end
  end.

Definition replace (old new s : string) : string := replace_from old new 0 s.

Definition dquote : string := String (ascii_of_nat 34) EmptyString.
Definition backslash : string := String (ascii_of_nat 92) EmptyString.

(** [s[1:-1]]. *)
Definition strip_ends (s : string) : string :=
  substring 1 (String.length s - 2) s.

(** [dequote(s)]: lines 40-50. *)
Definition dequote (s : string) : string :=
  if negb (String.eqb s "") && startswith dquote s
     && endswith_char (ascii_of_nat 34) s
  then
    let s := strip_ends s in
    let s := replace (backslash ++ dquote) dquote s in
    let s := replace (backslash ++ backslash) backslash s in
    s
  else s.

(** [quote(s)]: lines 53-61.  The double quotes are escaped first, the
    backslashes second. *)
Definition quote (s : string) : string :=
  let s := replace dquote (backslash ++ dquote) s in
  let s := replace backslash (backslash ++ backslash) s in
  dquote ++ s ++ dquote.

(** The inner function [getrange] of [uid_sequence]. *)
Definition getrange (start end_ : Z) : string :=
  if Z.eqb start end_ then str start else str start ++ ":" ++ str end_.

(** [sorted(map(int, uidlist))]. *)
Definition sorted (l : list Z) : list Z := merge_sort Z.le l.

(** The [for item in iter(sorted_uids)] loop of [uid_sequence]: the state is
    [(start, end)], [None] before the first item, and [retval]. *)
Fixpoint uid_sequence_loop (items : list Z) (cur : option (Z * Z))
    (retval : list string) : option (Z * Z) * list string :=
  match items with
  | [] => (cur, retval)
  | item :: rest =>
      match cur with
      | None => uid_sequence_loop rest (Some (item, item)) retval
      | Some (start, end_) =>
          if Z.eqb item (end_ + 1)
          then uid_sequence_loop rest (Some (start, item)) retval
          else uid_sequence_loop rest (Some (item, item))
                 (retval ++ [getrange start end_])
      end
  end.

(** [",".join(l)]. *)
Fixpoint join (sep : string) (l : list string) : string :=
  match l with
  | [] => ""
  | [x] => x
  | x :: rest => x ++ sep ++ join sep rest
  end.

(** [uid_sequence(uidlist)]: lines 195-226. *)
Definition uid_sequence (uidlist : list Z) : string :=
  match uidlist with
  | [] => ""
  | _ =>
      match uid_sequence_loop (sorted uidlist) None [] with
      | (Some (start, end_), retval) => join "," (retval ++ [getrange start end_])
      | (None, retval) => join "," retval
      end
  end.

(** The ranges of [uid_sequence], as the specification words them: the
    maximal runs of consecutive integers of the sorted input, each run an
    inclusive pair. *)
Fixpoint runs_from (start end_ : Z) (l : list Z) : list (Z * Z) :=
  match l with
  | [] => [(start, end_)]
  | x :: l' =>
      if Z.eqb x (end_ + 1) then runs_from start x l'
      else (start, end_) :: runs_from x x l'
  end.

Definition runs (l : list Z) : list (Z * Z) :=
  match l with
  | [] => []
  | x :: l' => runs_from x x l'
  end.

Definition uid_ranges (uidlist : list Z) : list (Z * Z) := runs (sorted uidlist).

Definition render (rs : list (Z * Z)) : string :=
  join "," (map (fun r => getrange r.1 r.2) rs).

(** Ranges are ascending, do not overlap and are maximal: the next range
    starts beyond the successor of the end of the previous one. *)
Fixpoint separated (rs : list (Z * Z)) : Prop :=
  match rs with
  | r :: (r' :: _) as tl => r.2 + 1 < r'.1 /\ separated tl
  | _ => True
  end.

Definition covers (rs : list (Z * Z)) (x : Z) : Prop :=
  exists r, r ∈ rs /\ r.1 <= x <= r.2.

Definition range_list_of (l : list Z) (rs : list (Z * Z)) : Prop :=
  Forall (fun r => r.1 <= r.2) rs /\ separated rs /\
  forall x, x ∈ l <-> covers rs x.

End imaputil.

(** ** Properties of imaputil *)

Module imaputil_facts.
Import imaputil.
Local Open Scope string_scope.

Definition finish (p : option (Z * Z) * list string) : list string :=
  match p with
  | (Some (start, end_), retval) => (retval ++ [getrange start end_])%list
  | (None, retval) => retval
  end.

Lemma uid_sequence_loop_runs items start end_ retval :
  finish (uid_sequence_loop items (Some (start, end_)) retval) =
  (retval ++ map (fun r => getrange r.1 r.2) (runs_from start end_ items))%list.
Proof.
  revert start end_ retval.
  induction items as [|x items IH]; intros start end_ retval; simpl; [done|].
  destruct (Z.eqb x (end_ + 1)); rewrite IH; [done|].
  by rewrite <- app_assoc.
Qed.

Lemma uid_sequence_render l : uid_sequence l = render (uid_ranges l).
Proof.
  unfold uid_sequence, uid_ranges, render, runs.
  destruct l as [|x l]; [done|].
  destruct (sorted (x :: l)) as [|y ys] eqn:E.
  - apply (f_equal length) in E. unfold sorted in E.
    rewrite (Permutation_length (merge_sort_Permutation Z.le (x :: l))) in E. done.
  - simpl. 
    pose proof (uid_sequence_loop_runs ys y y []) as H. unfold finish in H.
    destruct (uid_sequence_loop ys (Some (y, y)) []) as [[[s e]|] rv]; simpl in H; rewrite H; done.
Qed.

Lemma runs_from_head start end_ items :
  exists b tl, runs_from start end_ items = (start, b) :: tl.
Proof.
  revert start end_. induction items as [|x items IH]; intros start end_; simpl.
  - by eexists _, _.
  - destruct (Z.eqb x (end_ + 1)); [apply IH | by eexists _, _].
Qed.

Lemma covers_cons r rs x :
  covers (r :: rs) x <-> r.1 <= x <= r.2 \/ covers rs x.
Proof.
  unfold covers. split.
  - intros (r' & Hin & Hx). apply elem_of_cons in Hin as [->|Hin]; eauto.
  - intros [Hx|(r' & Hin & Hx)]; [exists r | exists r']; split; auto; set_solver.
Qed.

Lemma covers_nil x : covers [] x <-> False.
Proof. unfold covers. split; [intros (r & Hin & _); set_solver | done]. Qed.

(** The input of the loop once sorted, when the list has no duplicate, is
    strictly ascending; [end_ :: items] is the part not yet emitted. *)
Lemma runs_from_spec start end_ items :
  start <= end_ -> StronglySorted Z.lt (end_ :: items) ->
  Forall (fun r => r.1 <= r.2) (runs_from start end_ items) /\
  separated (runs_from start end_ items) /\
  forall x, covers (runs_from start end_ items) x <->
            start <= x <= end_ \/ x ∈ items.
Proof.
  revert start end_.
  induction items as [|y items IH]; intros start end_ Hse Hsorted; simpl.
  - split_and!; [by repeat constructor | done |].
    intros x. rewrite covers_cons, covers_nil. set_solver.
  - apply StronglySorted_inv in Hsorted as [Hsorted Hgt].
    apply Forall_cons in Hgt as [Hy Hgt].
    destruct (Z.eqb_spec y (end_ + 1)) as [->|Hne].
    + destruct (IH start (end_ + 1)) as (Hn & Hs & Hc); [lia | done |].
      split_and!; [done..|].
      intros x. rewrite Hc, elem_of_cons. naive_solver lia.
    + destruct (IH y y) as (Hn & Hs & Hc); [lia | done |].
      destruct (runs_from_head y y items) as (b & tl & Heq).
      split_and!.
      * constructor; [done|]. done.
      * rewrite Heq in *. simpl. split; [simpl; lia | done].
      * intros x. rewrite covers_cons, Hc, elem_of_cons. simpl. naive_solver lia.
Qed.

Lemma sorted_strictly l : NoDup l -> StronglySorted Z.lt (sorted l).
Proof.
  intros Hnd. unfold sorted.
  assert (StronglySorted Z.le (merge_sort Z.le l)) as Hs
    by apply (StronglySorted_merge_sort _).
  assert (NoDup (merge_sort Z.le l)) as Hnd'
    by (by rewrite merge_sort_Permutation).
  induction Hs as [|x xs Hs IH Hle]; [constructor|].
  apply NoDup_cons in Hnd' as [Hx Hnd'].
  constructor; [by apply IH|].
  rewrite Forall_forall in Hle |- *. intros y Hy.
  assert (x <> y) by (intros ->; done).
  specialize (Hle y Hy). lia.
Qed.

Lemma uid_ranges_spec l : NoDup l -> range_list_of l (uid_ranges l).
Proof.
  intros Hnd. pose proof (sorted_strictly l Hnd) as Hs.
  assert (forall x, x ∈ l <-> x ∈ sorted l) as Hperm.
  { intros x. unfold sorted. by rewrite merge_sort_Permutation. }
  unfold range_list_of, uid_ranges, runs.
  destruct (sorted l) as [|y ys].
  - split_and!; [constructor | done |].
    intros x. rewrite Hperm, covers_nil. set_solver.
  - destruct (runs_from_spec y y ys) as (Hn & Hsep & Hc); [lia | done |].
    split_and!; [done..|].
    intros x. rewrite Hperm, Hc, elem_of_cons. naive_solver lia.
Qed.

(** The claim of the specification for arbitrary lists: some list of
    ascending, non-overlapping maximal ranges covers exactly the input and
    renders to the result. *)
Definition ranges_claim (l : list Z) : Prop :=
  exists rs, uid_sequence l = render rs /\ range_list_of l rs.

(** C9, as amended: for every list of integers without duplicates,
    [uid_sequence] renders, separated by commas, the maximal runs of
    consecutive integers of the sorted input, each as a:b or as a single
    value; the ranges are ascending, do not overlap and cover exactly the
    input.  The list 1,2,3,4,5,10,12,13 yields 1:5,10,12:13 and the empty
    list yields the empty string. *)
Theorem uid_sequence_ranges (l : list Z) :
  NoDup l ->
  uid_sequence l = render (uid_ranges l) /\
  range_list_of l (uid_ranges l) /\
  uid_sequence [1; 2; 3; 4; 5; 10; 12; 13] = "1:5,10,12:13" /\
  uid_sequence [] = "".
Proof.
  intros Hnd. split_and!.
  - apply uid_sequence_render.
  - by apply uid_ranges_spec.
  - reflexivity.
  - reflexivity.
Qed.

Lemma uid_sequence_ranges_witness :
  uid_sequence [3; 1; 2; 7] = render (uid_ranges [3; 1; 2; 7]) /\
  range_list_of [3; 1; 2; 7] (uid_ranges [3; 1; 2; 7]) /\
  uid_sequence [1; 2; 3; 4; 5; 10; 12; 13] = "1:5,10,12:13" /\
  uid_sequence [] = "".
Proof.
  apply (uid_sequence_ranges [3; 1; 2; 7]).
  apply (bool_decide_unpack _). vm_compute. reflexivity.
Defined.

(** C9 as stated fails on a list with a duplicate: 1,1 yields the two
    overlapping ranges 1 and 1. *)
Lemma uid_sequence_duplicate :
  uid_sequence [1; 1] = "1,1" /\ ~ ranges_claim [1; 1].
Proof.
  split; [reflexivity|].
  intros (rs & Hr & Hn & Hs & Hc).
  assert (forall r, r ∈ rs -> r = (1, 1)) as Hall.
  { intros r Hin. rewrite Forall_forall in Hn. specialize (Hn r Hin).
    assert (r.1 ∈ [1; 1]) as H1 by (apply Hc; exists r; split; [done|lia]).
    assert (r.2 ∈ [1; 1]) as H2 by (apply Hc; exists r; split; [done|lia]).
    destruct r as [a b]; simpl in *. f_equal; set_solver. }
  destruct rs as [|r [|r' tl]].
  - assert (covers [] 1) as Hcov by (apply Hc; set_solver).
    by apply covers_nil in Hcov.
  - rewrite (Hall r) in Hr by set_solver. discriminate Hr.
  - rewrite (Hall r), (Hall r') in Hs by set_solver. simpl in Hs. lia.
Qed.

(** *** quote and dequote on names without a double quote *)

Fixpoint has_dquote (s : string) : bool :=
  match s with
  | EmptyString => false
  | String c s' => Ascii.eqb c (ascii_of_nat 34) || has_dquote s'
  end.

(** Every backslash doubled. *)
Fixpoint double_backslashes (s : string) : string :=
  match s with
  | EmptyString => EmptyString
  | String c s' =>
      if Ascii.eqb c (ascii_of_nat 92)
      then String c (String c (double_backslashes s'))
      else String c (double_backslashes s')
  end.

Ltac replace_step :=
  cbn [replace_from startswith dquote backslash String.append String.length
       has_dquote double_backslashes Nat.sub].

Lemma replace_dquote_none new s :
  has_dquote s = false -> replace dquote new s = s.
Proof.
  unfold replace. replace_step. induction s as [|c s IH]; [done|]. replace_step.
  intros [Hc Hs]%orb_false_iff. rewrite Ascii.eqb_sym, Hc. by rewrite IH.
Qed.

Lemma replace_backslash_double s :
  replace backslash (backslash ++ backslash) s = double_backslashes s.
Proof.
  unfold replace. replace_step. induction s as [|c s IH]; [done|]. replace_step.
  rewrite (Ascii.eqb_sym _ c).
  destruct (Ascii.eqb_spec c (ascii_of_nat 92)) as [->|Hne]; by rewrite IH.
Qed.

Lemma has_dquote_double s :
  has_dquote (double_backslashes s) = has_dquote s.
Proof.
  induction s as [|c s IH]; [done|]. replace_step.
  destruct (Ascii.eqb_spec c (ascii_of_nat 92)) as [->|Hne]; replace_step;
    by rewrite IH.
Qed.

Lemma replace_escaped_dquote_none s :
  has_dquote s = false -> replace (backslash ++ dquote) dquote s = s.
Proof.
  unfold replace, backslash, dquote.
  change (String (ascii_of_nat 92) "" ++ String (ascii_of_nat 34) "")
    with (String (ascii_of_nat 92) (String (ascii_of_nat 34) "")).
  induction s as [|c s IH]; [done|].
  cbn [replace_from startswith has_dquote String.length Nat.sub].
  intros [Hc Hs]%orb_false_iff. rewrite IH by done.
  destruct (Ascii.eqb _ c); [|done].
  destruct s as [|d s]; [done|]. cbn [has_dquote] in Hs.
  apply orb_false_iff in Hs as [Hd _]. by rewrite Ascii.eqb_sym, Hd.
Qed.

Lemma replace_double_backslashes s :
  replace (backslash ++ backslash) backslash (double_backslashes s) = s.
Proof.
  unfold replace, backslash.
  change (String (ascii_of_nat 92) "" ++ String (ascii_of_nat 92) "")
    with (String (ascii_of_nat 92) (String (ascii_of_nat 92) "")).
  induction s as [|c s IH]; [done|]. cbn [double_backslashes].
  destruct (Ascii.eqb_spec c (ascii_of_nat 92)) as [->|Hne];
    cbn [replace_from startswith String.length Nat.sub String.append].
  - rewrite !Ascii.eqb_refl. by rewrite IH.
  - rewrite (proj2 (Ascii.eqb_neq _ _)) by done. by rewrite IH.
Qed.

Lemma endswith_char_app c s :
  endswith_char c (s ++ String c EmptyString) = true.
Proof.
  induction s as [|a s IH]; simpl; [apply Ascii.eqb_refl|].
  destruct s; simpl in *; [apply Ascii.eqb_refl | done].
Qed.

Lemma substring_prefix s t : substring 0 (String.length s) (s ++ t) = s.
Proof.
  induction s as [|a s IH]; simpl; [by destruct t|]. by rewrite IH.
Qed.

Lemma length_append s t :
  String.length (s ++ t) = (String.length s + String.length t)%nat.
Proof. induction s as [|a s IH]; simpl; [done|]. by rewrite IH. Qed.

Lemma strip_ends_quoted s : strip_ends (dquote ++ s ++ dquote) = s.
Proof.
  unfold strip_ends, dquote.
  change (String (ascii_of_nat 34) "" ++ s ++ String (ascii_of_nat 34) "")
    with (String (ascii_of_nat 34) (s ++ String (ascii_of_nat 34) "")).
  cbn [String.length]. rewrite length_append. cbn [String.length].
  replace (S (String.length s + 1) - 2)%nat with (String.length s) by lia.
  cbn [substring]. apply substring_prefix.
Qed.

(** On a name without a double quote, [dequote] inverts [quote]. *)
Lemma dequote_quote_without_dquote s :
  has_dquote s = false -> dequote (quote s) = s.
Proof.
  intros Hs. unfold quote. rewrite (replace_dquote_none _ _ Hs).
  rewrite replace_backslash_double. unfold dequote.
  assert (endswith_char (ascii_of_nat 34)
            (dquote ++ double_backslashes s ++ dquote) = true) as ->.
  { change (dquote ++ double_backslashes s ++ dquote)
      with (String (ascii_of_nat 34) (double_backslashes s ++ dquote)).
    pose proof (endswith_char_app (ascii_of_nat 34) (double_backslashes s)) as H.
    simpl. unfold dquote in *.
    destruct (double_backslashes s ++ String (ascii_of_nat 34) "") eqn:E; [|done].
    by destruct (double_backslashes s). }
  simpl. rewrite strip_ends_quoted.
  rewrite replace_escaped_dquote_none by (by rewrite has_dquote_double).
  apply replace_double_backslashes.
Qed.

(** C10: [dequote (quote s)] is not [s] for the folder name that consists of
    one double quote, nor for a name with a double quote inside.  [quote]
    escapes the double quotes before the backslashes, so the backslash it has
    just put before a double quote is doubled; [dequote] gives the name back
    with a backslash before the double quote. *)
Theorem dequote_quote_dquote :
  quote dquote = dquote ++ backslash ++ backslash ++ dquote ++ dquote /\
  dequote (quote dquote) = backslash ++ dquote /\
  dequote (quote dquote) <> dquote /\
  dequote (quote ("a" ++ dquote ++ "b")) = "a" ++ backslash ++ dquote ++ "b".
Proof. split_and!; [reflexivity | reflexivity | discriminate | reflexivity]. Qed.

End imaputil_facts.

(** ** offlineimap/folder/Base.py *)

Module Base.

(** *** Messages, folders, exceptions *)

(** An entry of [messagelist].  Flags are single letters, keywords are
    free-form strings. *)
Record message := Message {
  flags : gset ascii;
  keywords : gset string;
  time : Z
}.

(** A folder object: the cached [self.messagelist] dictionary, and whatever
    else the backend keeps (the server, the disk). *)
Record folder (H : Type) := Folder {
  messagelist : gmap Z message;
  backend_state : H
}.
Arguments Folder {H}.
Arguments messagelist {H}.
Arguments backend_state {H}.

Inductive exn :=
| KeyboardInterrupt
| OfflineImapError (severity : Z)
| NotImplementedError
| KeyError
| Exception (what : string).

(** What a call leaves behind: a value or an exception, and the state as the
    call left it in both cases. *)
Inductive outcome (S A : Type) :=
| Ret (a : A) (s : S)
| Raise (e : exn) (s : S).
Arguments Ret {S A}.
Arguments Raise {S A}.

Definition final {S A} (o : outcome S A) : S :=
  match o with Ret _ s => s | Raise _ s => s end.

Definition M (S A : Type) : Type := S -> outcome S A.

Definition ret {S A} (a : A) : M S A := fun s => Ret a s.

Definition bind {S A B} (m : M S A) (k : A -> M S B) : M S B :=
  fun s => match m s with
           | Ret a s' => k a s'
           | Raise e s' => Raise e s'
           end.

Definition raise {S A} (e : exn) : M S A := fun s => Raise e s.

(** [try: m except e: h e]. *)
Definition try_except {S A} (m : M S A) (h : exn -> M S A) : M S A :=
  fun s => match m s with
           | Ret a s' => Ret a s'
           | Raise e s' => h e s'
           end.

Definition gets {S A} (f : S -> A) : M S A := fun s => Ret (f s) s.
Definition modify {S} (f : S -> S) : M S unit := fun s => Ret tt (f s).

Declare Scope py_scope.
Delimit Scope py_scope with py.
Notation "'let*' x ':=' m 'in' k" := (bind m (fun x => k))
  (at level 10, x name, m at level 100, k at level 200) : py_scope.
Notation "m ;; k" := (bind m (fun _ => k))
  (at level 100, right associativity) : py_scope.
Local Open Scope py_scope.

(** A [for] loop without [break]. *)
Fixpoint for_each {S X} (l : list X) (body : X -> M S unit) : M S unit :=
  match l with
  | [] => ret tt
  | x :: rest => body x ;; for_each rest body
  end.

(** A [for] loop that threads an accumulator. *)
Fixpoint for_fold {S X A} (l : list X) (acc : A) (body : A -> X -> M S A)
    : M S A :=
  match l with
  | [] => ret acc
  | x :: rest => let* acc' := body acc x in for_fold rest acc' body
  end.

(** *** BaseFolder methods that only read [messagelist] *)

(** [uidexists]: line 355. *)
Definition uidexists (uid : Z) (ml : gmap Z message) : bool :=
  bool_decide (is_Some (ml !! uid)).

(** [getmessageuidlist]: line 360, [sorted(self.getmessagelist().keys())]. *)
Definition getmessageuidlist (ml : gmap Z message) : list Z :=
  merge_sort Z.le (elements (dom ml)).

(** *** The backend of a folder

    The methods that [BaseFolder] leaves to its subclasses (they raise
    [NotImplementedError] in Base.py) or that subclasses override, as the
    synchroniser calls them on the source and on the destination.  [B] is
    the type of message bodies. *)
Record backend (H B : Type) := Backend {
  storesmessages : bool;
  getmessage : Z -> M (folder H) B;
  getmessagekeywords_implemented : bool;
  savemessage : Z -> option B -> gset ascii -> Z -> M (folder H) Z;
  change_message_uid : Z -> Z -> M (folder H) unit;
  deletemessage : Z -> M (folder H) unit;
  deletemessages : list Z -> M (folder H) unit;
  addmessagesflags : list Z -> gset ascii -> M (folder H) unit;
  deletemessagesflags : list Z -> gset ascii -> M (folder H) unit
}.
Arguments Backend {H B}.
Arguments storesmessages {H B}.
Arguments getmessage {H B}.
Arguments getmessagekeywords_implemented {H B}.
Arguments savemessage {H B}.
Arguments change_message_uid {H B}.
Arguments deletemessage {H B}.
Arguments deletemessages {H B}.
Arguments addmessagesflags {H B}.
Arguments deletemessagesflags {H B}.

(** What [dstfolder.getrepository().getkeywordmap()] does. *)
Inductive keywordmap_result :=
| keywordmap_not_implemented
| keywordmap_None
| keywordmap_dict (keywordmap : gmap string ascii).

(** What calling [self.newmail_hook] does, when there is one. *)
Inductive hook_result := hook_returns | hook_raises (e : exn).

(** What the synchroniser reads from its configuration and collaborators.
    [ERROR_MESSAGE] and [ERROR_FOLDER] are the constants
    [OfflineImapError.ERROR.MESSAGE] and [OfflineImapError.ERROR.FOLDER],
    declared in offlineimap/error.py.  [abort_NOW_signal] is what
    [Account.abort_NOW_signal.is_set()] answers: a signal handler sets the
    latch, the synchroniser only reads it. *)
Record env (Hs Hd B : Type) := Env {
  ERROR_MESSAGE : Z;
  ERROR_FOLDER : Z;
  abort_NOW_signal : bool;
  dryrun : bool;
  sync_deletes : bool;
  copy_ignoreUIDs : option (list Z);
  newmail_hook : option hook_result;
  getkeywordmap : keywordmap_result;
  self_backend : backend Hs B;
  dstfolder_backend : backend Hd B
}.
Arguments Env {Hs Hd B}.
Arguments ERROR_MESSAGE {Hs Hd B}.
Arguments ERROR_FOLDER {Hs Hd B}.
Arguments abort_NOW_signal {Hs Hd B}.
Arguments dryrun {Hs Hd B}.
Arguments sync_deletes {Hs Hd B}.
Arguments copy_ignoreUIDs {Hs Hd B}.
Arguments newmail_hook {Hs Hd B}.
Arguments getkeywordmap {Hs Hd B}.
Arguments self_backend {Hs Hd B}.
Arguments dstfolder_backend {Hs Hd B}.

(** *** The log of a run *)

Inductive ui_call :=
| registerthread
| error (e : exn) (msg : string)
| ignorecopyingmessage (uid : Z)
| info_dryrun_copy (num_to_copy : nat)
| warn_uid_zero
| warn_unknown_keywords (skipped : list string)
| copyingmessage (uid : Z) (num num_to_copy : nat)
| deletingmessages (uids : list Z)
| addingflags (uids : list Z) (flag : ascii)
| deletingflags (uids : list Z) (flag : ascii).

Inductive call :=
| self_getmessage (uid : Z)
| self_change_message_uid (uid new_uid : Z)
| self_deletemessage (uid : Z)
| dst_savemessage (uid : Z) (fl : gset ascii) (rtime : Z)
| dst_addmessagesflags (uids : list Z) (fl : gset ascii)
| dst_deletemessagesflags (uids : list Z) (fl : gset ascii)
| dst_deletemessages (uids : list Z)
| status_savemessage (uid : Z) (fl : gset ascii) (rtime : Z)
| status_deletemessage (uid : Z)
| status_savemessageflags (uid : Z) (fl : gset ascii)
| call_newmail_hook.

(** The three message lists right after a call. *)
Record snapshot := Snapshot {
  snap_self : gmap Z message;
  snap_dst : gmap Z message;
  snap_status : gmap Z message
}.

Inductive entry :=
| Ui (u : ui_call)
| Call (c : call) (after : snapshot).

(** An entry of the log without its snapshot. *)
Definition forget (e : entry) : ui_call + call :=
  match e with
  | Ui u => inl u
  | Call c _ => inr c
  end.

(** The state of one run of [self.syncmessagesto(dstfolder, statusfolder)].
    The status folder keeps no body and is a local file: its state is its
    message list. *)
Record state (Hs Hd : Type) := State {
  self : folder Hs;
  dstfolder : folder Hd;
  statusfolder : gmap Z message;
  have_newmail : bool;
  log : list entry
}.
Arguments State {Hs Hd}.
Arguments self {Hs Hd}.
Arguments dstfolder {Hs Hd}.
Arguments statusfolder {Hs Hd}.
Arguments have_newmail {Hs Hd}.
Arguments log {Hs Hd}.

Section sync.
Context {Hs Hd B : Type}.
Variable cfg : env Hs Hd B.

Abbreviation st := (state Hs Hd).

Definition set_self (f : folder Hs) (s : st) : st :=
  State f (dstfolder s) (statusfolder s) (have_newmail s) (log s).
Definition set_dstfolder (f : folder Hd) (s : st) : st :=
  State (self s) f (statusfolder s) (have_newmail s) (log s).
Definition set_statusfolder (m : gmap Z message) (s : st) : st :=
  State (self s) (dstfolder s) m (have_newmail s) (log s).
Definition set_have_newmail (b : bool) (s : st) : st :=
  State (self s) (dstfolder s) (statusfolder s) b (log s).
Definition add_log (e : entry) (s : st) : st :=
  State (self s) (dstfolder s) (statusfolder s) (have_newmail s) (log s ++ [e]).

Definition snapshot_of (s : st) : snapshot :=
  Snapshot (messagelist (self s)) (messagelist (dstfolder s)) (statusfolder s).

(** A call is logged when it is over, with the message lists it leaves. *)
Definition logged (c : call) (s : st) : st := add_log (Call c (snapshot_of s)) s.

Definition ui (u : ui_call) : M st unit := modify (add_log (Ui u)).

(** A method call on [self]. *)
Definition on_self {A} (c : call) (m : M (folder Hs) A) : M st A :=
  fun s => match m (self s) with
           | Ret a f => Ret a (logged c (set_self f s))
           | Raise e f => Raise e (logged c (set_self f s))
           end.

(** A method call on [dstfolder]. *)
Definition on_dst {A} (c : call) (m : M (folder Hd) A) : M st A :=
  fun s => match m (dstfolder s) with
           | Ret a f => Ret a (logged c (set_dstfolder f s))
           | Raise e f => Raise e (logged c (set_dstfolder f s))
           end.

(** A primitive of the status folder. *)
Definition on_status (c : call) (f : gmap Z message -> gmap Z message)
    : M st unit :=
  modify (fun s => logged c (set_statusfolder (f (statusfolder s)) s)).

(** [folder.getmessageflags(uid)] and [folder.getmessagetime(uid)] read the
    cached message list, as IMAP.py does at lines 364-369:
    [self.messagelist[uid]['flags']]. *)
Definition lookup_field {S A} (ml : S -> gmap Z message) (field : message -> A)
    (uid : Z) : M S A :=
  fun s => match ml s !! uid with
           | Some m => Ret (field m) s
           | None => Raise KeyError s
           end.

Definition self_getmessageflags (uid : Z) : M st (gset ascii) :=
  lookup_field (fun s => messagelist (self s)) flags uid.
Definition self_getmessagetime (uid : Z) : M st Z :=
  lookup_field (fun s => messagelist (self s)) time uid.
Definition status_getmessageflags (uid : Z) : M st (gset ascii) :=
  lookup_field statusfolder flags uid.

(** *** The status folder

    Modelled from the spec: the status folder class (LocalStatus) is not
    among the sources.  Section 3: the status folder is a mapping from UID to
    (flags, keywords, internal time) and never stores bodies.  Section 4.4:
    its [save] ignores the body argument.  Section 4.6: Pass 1 writes
    (flags, time) to status under the UID.  Section 4.3: [save_flags] and
    [delete] are idempotent. *)
Definition statusfolder_savemessage (uid : Z) (fl : gset ascii) (rtime : Z)
    : M st unit :=
  on_status (status_savemessage uid fl rtime)
            (fun ml => <[uid := Message fl ∅ rtime]> ml).

Definition statusfolder_deletemessage (uid : Z) : M st unit :=
  on_status (status_deletemessage uid) (fun ml => delete uid ml).

Definition statusfolder_savemessageflags (uid : Z) (fl : gset ascii)
    : M st unit :=
  on_status (status_savemessageflags uid fl)
            (fun ml => alter (fun m => Message fl (keywords m) (time m)) uid ml).

(** The methods that the status folder inherits from [BaseFolder]. *)

(** [addmessageflags]: lines 543-556. *)
Definition statusfolder_addmessageflags (uid : Z) (fl : gset ascii)
    : M st unit :=
  let* old := status_getmessageflags uid in
  let newflags := old ∪ fl in
  statusfolder_savemessageflags uid newflags.

(** [addmessagesflags]: lines 558-565. *)
Definition statusfolder_addmessagesflags (uidlist : list Z) (fl : gset ascii)
    : M st unit :=
  for_each uidlist (fun uid =>
    let* exists_ := gets (fun s => uidexists uid (statusfolder s)) in
    if exists_ : bool then statusfolder_addmessageflags uid fl else ret tt).

(** [deletemessageflags]: lines 567-578. *)
Definition statusfolder_deletemessageflags (uid : Z) (fl : gset ascii)
    : M st unit :=
  let* old := status_getmessageflags uid in
  let newflags := old ∖ fl in
  statusfolder_savemessageflags uid newflags.

(** [deletemessagesflags]: lines 580-587. *)
Definition statusfolder_deletemessagesflags (uidlist : list Z)
    (fl : gset ascii) : M st unit :=
  for_each uidlist (fun uid => statusfolder_deletemessageflags uid fl).

(** [deletemessages]: lines 765-771. *)
Definition statusfolder_deletemessages (uidlist : list Z) : M st unit :=
  for_each uidlist statusfolder_deletemessage.

(** *** copymessageto: lines 773-842 *)

(** The body of the [try] statement. *)
Definition copymessageto_try (uid : Z) : M st unit :=
  let* fl := self_getmessageflags uid in
  let* rtime := self_getmessagetime uid in
  let* message := (if storesmessages (dstfolder_backend cfg)
                   then let* b := on_self (self_getmessage uid)
                                          (getmessage (self_backend cfg) uid) in
                        ret (Some b)
                   else ret None) in
  let* new_uid := on_dst (dst_savemessage uid fl rtime)
                    (savemessage (dstfolder_backend cfg) uid message fl rtime) in
  if 0 <? new_uid then
    (if negb (new_uid =? uid) then
       on_self (self_change_message_uid uid new_uid)
               (change_message_uid (self_backend cfg) uid new_uid) ;;
       statusfolder_deletemessage uid
     else ret tt) ;;
    statusfolder_savemessage new_uid fl rtime ;;
    if bool_decide ("S"%char ∈ fl) then ret tt
    else modify (set_have_newmail true)
  else if new_uid =? 0 then
    on_self (self_deletemessage uid) (deletemessage (self_backend cfg) uid)
  else
    raise (OfflineImapError (ERROR_MESSAGE cfg)).

(** The [except] clauses. *)
Definition copymessageto_except (e : exn) : M st unit :=
  match e with
  | KeyboardInterrupt => raise e
  | OfflineImapError severity =>
      if ERROR_MESSAGE cfg <? severity then raise e
      else ui (error e EmptyString)
  | _ => ui (error e "Copying message"%string) ;; raise e
  end.

Definition copymessageto (uid : Z) (register : bool) : M st unit :=
  (if register then ui registerthread else ret tt) ;;
  try_except (copymessageto_try uid) copymessageto_except.

(** *** Pass 1, __syncmessagesto_copy: lines 844-920

    [self.suggeststhreads()] is False, as in [BaseFolder]: the messages are
    copied one after the other. *)

(** [l.remove(x)] for an [x] that is in [l]. *)
Fixpoint list_remove (x : Z) (l : list Z) : list Z :=
  match l with
  | [] => []
  | y :: l' => if x =? y then l' else y :: list_remove x l'
  end.

Definition enumerate {X} (l : list X) : list (nat * X) :=
  combine (seq 0 (length l)) l.

(** One turn of the loop over [copylist], after the test of the abort
    signal. *)
Definition copy_iteration (num_to_copy : nat) (num : nat) (uid : Z)
    : M st unit :=
  if uid =? 0 then ui warn_uid_zero
  else
    let* dst_has := gets (fun s => uidexists uid (messagelist (dstfolder s))) in
    if (0 <? uid) && dst_has then
      let* fl := self_getmessageflags uid in
      let* rtime := self_getmessagetime uid in
      statusfolder_savemessage uid fl rtime
    else
      ui (copyingmessage uid (num + 1) num_to_copy) ;;
      copymessageto uid false.

Fixpoint copy_loop (num_to_copy : nat) (l : list (nat * Z)) : M st unit :=
  match l with
  | [] => ret tt
  | (num, uid) :: rest =>
      if abort_NOW_signal cfg then ret tt
      else copy_iteration num_to_copy num uid ;; copy_loop num_to_copy rest
  end.

Definition initial_copylist (s : st) : list Z :=
  List.filter (fun uid => negb (uidexists uid (statusfolder s)))
              (getmessageuidlist (messagelist (self s))).

Definition honor_copy_ignore (copylist : list Z) : M st (list Z) :=
  match copy_ignoreUIDs cfg with
  | Some ignore =>
      for_fold ignore copylist (fun copylist uid =>
        if bool_decide (uid ∈ copylist)
        then ui (ignorecopyingmessage uid) ;; ret (list_remove uid copylist)
        else ret copylist)
  | None => ret copylist
  end.

Definition run_newmail_hook : M st unit :=
  match newmail_hook cfg with
  | Some hook_returns => modify (logged call_newmail_hook)
  | Some (hook_raises e) => modify (logged call_newmail_hook) ;; raise e
  | None => ret tt
  end.

Definition syncmessagesto_copy : M st unit :=
  modify (set_have_newmail false) ;;
  let* copylist := gets initial_copylist in
  let num_to_copy := length copylist in
  let* copylist := honor_copy_ignore copylist in
  if (0 <? num_to_copy)%nat && dryrun cfg then
    ui (info_dryrun_copy num_to_copy)
  else
    copy_loop num_to_copy (enumerate copylist) ;;
    let* newmail := gets have_newmail in
    if newmail : bool then run_newmail_hook else ret tt.

(** *** Pass 2, __syncmessagesto_delete: lines 922-951 *)

Definition deletelist (s : st) : list Z :=
  List.filter
    (fun uid => (0 <=? uid)
                && negb (uidexists uid (messagelist (self s)))
                && (sync_deletes cfg
                    || negb (uidexists uid (messagelist (dstfolder s)))))
    (getmessageuidlist (statusfolder s)).

Definition syncmessagesto_delete : M st unit :=
  let* deletelist := gets deletelist in
  if (0 <? length deletelist)%nat then
    (if negb (dryrun cfg) then statusfolder_deletemessages deletelist
     else ret tt) ;;
    let* dst := gets (fun s => messagelist (dstfolder s)) in
    let deletelist := List.filter (fun uid => uidexists uid dst) deletelist in
    if (0 <? length deletelist)%nat then
      ui (deletingmessages deletelist) ;;
      if negb (dryrun cfg) then
        on_dst (dst_deletemessages deletelist)
               (deletemessages (dstfolder_backend cfg) deletelist)
      else ret tt
    else ret tt
  else ret tt.

(** *** combine_flags_and_keywords: lines 953-988 *)

(** [selfkeywords &= knownkeywords] updates the set that
    [self.getmessagekeywords(uid)] returned, which is the one that
    [self.messagelist] holds (IMAP.py line 373). *)
Definition self_set_keywords (uid : Z) (kw : gset string) (s : st) : st :=
  set_self
    (Folder (alter (fun m => Message (flags m) kw (time m)) uid
                   (messagelist (self s)))
            (backend_state (self s)))
    s.

(** [set([keywordmap[keyw] for keyw in selfkeywords])]. *)
Definition keywordletterset (keywordmap : gmap string ascii)
    (selfkeywords : gset string) : gset ascii :=
  list_to_set (omap (fun keyw => keywordmap !! keyw) (elements selfkeywords)).

Definition combine_flags_and_keywords (uid : Z) : M st (gset ascii) :=
  let* selfflags := self_getmessageflags uid in
  match getkeywordmap cfg with
  | keywordmap_not_implemented => ret selfflags
  | keywordmap_None => ret selfflags
  | keywordmap_dict keywordmap =>
      let knownkeywords : gset string := dom keywordmap in
      if getmessagekeywords_implemented (self_backend cfg) then
        let* selfkeywords := lookup_field (fun s => messagelist (self s))
                                     keywords uid in
        let* selfkeywords :=
          (if bool_decide (selfkeywords ⊆ knownkeywords) then ret selfkeywords
           else
             let skipped_keywords := elements (selfkeywords ∖ knownkeywords) in
             modify (self_set_keywords uid (selfkeywords ∩ knownkeywords)) ;;
             ui (warn_unknown_keywords skipped_keywords) ;;
             ret (selfkeywords ∩ knownkeywords)) in
        ret (selfflags ∪ keywordletterset keywordmap selfkeywords)
      else ret selfflags
  end.

(** *** Pass 3, __syncmessagesto_flags: lines 990-1044 *)

(** [if flag not in d: d[flag] = []] then [d[flag].append(uid)], on a
    dictionary that keeps its keys in the order of their insertion. *)
Fixpoint flaglist_append (flag : ascii) (uid : Z)
    (d : list (ascii * list Z)) : list (ascii * list Z) :=
  match d with
  | [] => [(flag, [uid])]
  | (f, uids) :: rest =>
      if bool_decide (f = flag) then (f, uids ++ [uid]) :: rest
      else (f, uids) :: flaglist_append flag uid rest
  end.

Definition flaglist_extend (fl : gset ascii) (uid : Z)
    (d : list (ascii * list Z)) : list (ascii * list Z) :=
  foldl (fun d flag => flaglist_append flag uid d) d (elements fl).

(** One turn of the first loop: [(addflaglist, delflaglist)] is threaded. *)
Definition flags_iteration
    (lists : list (ascii * list Z) * list (ascii * list Z)) (uid : Z)
    : M st (list (ascii * list Z) * list (ascii * list Z)) :=
  let* dst_has := gets (fun s => uidexists uid (messagelist (dstfolder s))) in
  if (uid <? 0) || negb dst_has then ret lists
  else
    let* status_has := gets (fun s => uidexists uid (statusfolder s)) in
    let* statusflags := (if status_has : bool then status_getmessageflags uid
                    else ret ∅) in
    let* selfflags := combine_flags_and_keywords uid in
    let addflags := selfflags ∖ statusflags in
    let delflags := statusflags ∖ selfflags in
    ret (flaglist_extend addflags uid lists.1,
         flaglist_extend delflags uid lists.2).

Definition apply_addflags (item : ascii * list Z) : M st unit :=
  ui (addingflags item.2 item.1) ;;
  if dryrun cfg then ret tt
  else
    on_dst (dst_addmessagesflags item.2 {[item.1]})
           (addmessagesflags (dstfolder_backend cfg) item.2 {[item.1]}) ;;
    statusfolder_addmessagesflags item.2 {[item.1]}.

Definition apply_delflags (item : ascii * list Z) : M st unit :=
  ui (deletingflags item.2 item.1) ;;
  if dryrun cfg then ret tt
  else
    on_dst (dst_deletemessagesflags item.2 {[item.1]})
           (deletemessagesflags (dstfolder_backend cfg) item.2 {[item.1]}) ;;
    statusfolder_deletemessagesflags item.2 {[item.1]}.

Definition syncmessagesto_flags : M st unit :=
  let* uids := gets (fun s => getmessageuidlist (messagelist (self s))) in
  let* lists := for_fold uids ([], []) flags_iteration in
  for_each lists.1 apply_addflags ;;
  for_each lists.2 apply_delflags.

(** *** syncmessagesto: lines 1046-1097 *)

Definition syncmessagesto_except (e : exn) : M st unit :=
  match e with
  | KeyboardInterrupt => raise e
  | OfflineImapError severity =>
      if ERROR_FOLDER cfg <? severity then raise e
      else ui (error e "while syncing"%string)
  | _ => ui (error e "while syncing"%string) ;; raise e
  end.

(** [for action in self.syncmessagesto_passes: ...]. *)
Fixpoint run_passes (passes : list (M st unit)) : M st unit :=
  match passes with
  | [] => ret tt
  | action :: rest =>
      if abort_NOW_signal cfg then ret tt
      else
        try_except action syncmessagesto_except ;;
        run_passes rest
  end.

(** [self.syncmessagesto_passes], set in [__init__] at line 114. *)
Definition syncmessagesto_passes : list (M st unit) :=
  [syncmessagesto_copy; syncmessagesto_delete; syncmessagesto_flags].

Definition syncmessagesto : M st unit := run_passes syncmessagesto_passes.

(** *** What Pass 3 aims at

    The keywords of a message of the source mapped through the keyword map
    of the destination, the keywords that the map does not know dropped.  A
    source whose backend does not implement [getmessagekeywords] reports no
    keyword, and a destination without a keyword map maps none. *)
Definition mapped_keywords (m : message) : gset ascii :=
  match getkeywordmap cfg with
  | keywordmap_dict keywordmap =>
      if getmessagekeywords_implemented (self_backend cfg)
      then keywordletterset keywordmap (keywords m)
      else ∅
  | _ => ∅
  end.

(** The flag operations of the destination leave its set of UIDs as it is. *)
Definition flagops_keep_uids : Prop :=
  forall uids fl f f',
    (addmessagesflags (dstfolder_backend cfg) uids fl f = Ret tt f' \/
     deletemessagesflags (dstfolder_backend cfg) uids fl f = Ret tt f') ->
    forall uid, is_Some (messagelist f' !! uid) <-> is_Some (messagelist f !! uid).

(** After a run, every UID > 0 that the source, the destination and the
    status folder have has in the status folder the flags of the source
    united with its mapped keywords. *)
Definition flags_agree (s : st) : Prop :=
  forall uid m e,
    0 < uid ->
    messagelist (self s) !! uid = Some m ->
    is_Some (messagelist (dstfolder s) !! uid) ->
    statusfolder s !! uid = Some e ->
    flags e = flags m ∪ mapped_keywords m.

(** The same for every UID > 0 that the source and the destination have,
    with or without an entry in the status folder. *)
Definition flags_agree_on_src_and_dst (s : st) : Prop :=
  forall uid m,
    0 < uid ->
    messagelist (self s) !! uid = Some m ->
    is_Some (messagelist (dstfolder s) !! uid) ->
    flags <$> statusfolder s !! uid = Some (flags m ∪ mapped_keywords m).

End sync.

End Base.

(** ** A backend that keeps its messages in memory *)

Module Memory.
Import Base.
Local Open Scope py_scope.

(** Modelled from the spec: the Maildir backend is not among the sources.
    Section 4.3: [save] with a positive hint tries to preserve it, with a
    negative hint it assigns a new positive UID; [save_flags] and [delete]
    are idempotent; [get_body] may fail.  Section 6: [save] assigns a UID by
    a monotonic counter persisted alongside the messages.  The backend state
    is the bodies and the counter. *)
Record store := Store { bodies : gmap Z string; counter : Z }.

Definition mem_getmessage (message_error : Z) (uid : Z) : M (folder store) string :=
  fun f => match bodies (backend_state f) !! uid with
           | Some b => Ret b f
           | None => Raise (OfflineImapError message_error) f
           end.

Definition mem_savemessage (uid : Z) (body : option string) (fl : gset ascii)
    (rtime : Z) : M (folder store) Z :=
  fun f =>
    let new_uid := if 0 <? uid then uid else counter (backend_state f) + 1 in
    Ret new_uid
        (Folder (<[new_uid := Message fl ∅ rtime]> (messagelist f))
                (Store (<[new_uid := default EmptyString body]>
                          (bodies (backend_state f)))
                       (Z.max new_uid (counter (backend_state f))))).

Definition mem_change_message_uid (uid new_uid : Z) : M (folder store) unit :=
  fun f =>
    match messagelist f !! uid with
    | Some m =>
        Ret tt (Folder (<[new_uid := m]> (delete uid (messagelist f)))
                       (Store (match bodies (backend_state f) !! uid with
                               | Some b => <[new_uid := b]>
                                             (delete uid (bodies (backend_state f)))
                               | None => bodies (backend_state f)
                               end)
                              (counter (backend_state f))))
    | None => Raise KeyError f
    end.

Definition mem_deletemessage (uid : Z) : M (folder store) unit :=
  fun f => Ret tt (Folder (delete uid (messagelist f))
                          (Store (delete uid (bodies (backend_state f)))
                                 (counter (backend_state f)))).

Definition mem_savemessageflags (uid : Z) (fl : gset ascii)
    : M (folder store) unit :=
  fun f => Ret tt (Folder (alter (fun m => Message fl (keywords m) (time m))
                                 uid (messagelist f))
                          (backend_state f)).

Definition mem_getmessageflags (uid : Z) : M (folder store) (gset ascii) :=
  lookup_field messagelist flags uid.

(** The bulk methods are those of [BaseFolder]: lines 558-587 and 765-771. *)
Definition mem_addmessagesflags (uidlist : list Z) (fl : gset ascii)
    : M (folder store) unit :=
  for_each uidlist (fun uid =>
    let* exists_ := gets (fun f => uidexists uid (messagelist f)) in
    if exists_ : bool then
      let* old := mem_getmessageflags uid in
      mem_savemessageflags uid (old ∪ fl)
    else ret tt).

Definition mem_deletemessagesflags (uidlist : list Z) (fl : gset ascii)
    : M (folder store) unit :=
  for_each uidlist (fun uid =>
    let* old := mem_getmessageflags uid in
    mem_savemessageflags uid (old ∖ fl)).

Definition mem_deletemessages (uidlist : list Z) : M (folder store) unit :=
  for_each uidlist mem_deletemessage.

Definition backend (message_error : Z) : Base.backend store string :=
  Backend true (mem_getmessage message_error) true mem_savemessage
          mem_change_message_uid mem_deletemessage mem_deletemessages
          mem_addmessagesflags mem_deletemessagesflags.

(** The same backend on a destination that cannot be selected:
    [savemessage] raises an [OfflineImapError] of the given severity, as
    [imapobj.select] does on error (IMAP.py line 78). *)
Definition unselectable_backend (message_error select_error : Z)
    : Base.backend store string :=
  Backend true (mem_getmessage message_error) true
          (fun _ _ _ _ => raise (OfflineImapError select_error))
          mem_change_message_uid mem_deletemessage mem_deletemessages
          mem_addmessagesflags mem_deletemessagesflags.

(** The same backend on a destination that saves the message and cannot
    tell its new UID: [savemessage] returns 0 and leaves [messagelist] as it
    is, as IMAP.py does at lines 827-832. *)
Definition lost_uid_backend (message_error : Z) : Base.backend store string :=
  Backend true (mem_getmessage message_error) true
          (fun _ _ _ _ => ret 0)
          mem_change_message_uid mem_deletemessage mem_deletemessages
          mem_addmessagesflags mem_deletemessagesflags.

(** Modelled from the spec: offlineimap/error.py is not among the sources.
    Section 7 lists the severities in ascending order: Message, Folder,
    Folder-retry, Repo, Critical. *)
Definition MESSAGE : Z := 0.
Definition FOLDER : Z := 10.
Definition FOLDER_RETRY : Z := 20.
Definition REPO : Z := 30.
Definition CRITICAL : Z := 40.

(** The configuration of a run between two such folders. *)
Definition config (dryrun sync_deletes : bool)
    (copy_ignoreUIDs : option (list Z)) (keywordmap : keywordmap_result)
    : env store store string :=
  Env MESSAGE FOLDER false dryrun sync_deletes copy_ignoreUIDs None keywordmap
      (backend MESSAGE) (backend MESSAGE).

Definition unselectable_config (select_error : Z) : env store store string :=
  Env MESSAGE FOLDER false false true None None keywordmap_None
      (backend MESSAGE) (unselectable_backend MESSAGE select_error).

Definition lost_uid_config : env store store string :=
  Env MESSAGE FOLDER false false true None None keywordmap_None
      (backend MESSAGE) (lost_uid_backend MESSAGE).

(** A folder that holds the given messages, all with the same body. *)
Definition folder_of (l : list (Z * message)) : folder store :=
  Folder (list_to_map l)
         (Store (list_to_map (map (fun p => (p.1, "body"%string)) l))
                (foldr Z.max 0 (map fst l))).

Definition start (src dst status : list (Z * message)) : state store store :=
  State (folder_of src) (folder_of dst) (list_to_map status) false [].

Definition seen : gset ascii := {["S"%char]}.

End Memory.

(** ** offlineimap/folder/IMAP.py: savemessage *)

Module IMAP.
Import Base.
Local Open Scope py_scope.
Local Open Scope string_scope.

(** [flagmap] of imaputil.py, lines 158-162. *)
Definition flagmap : list (string * ascii) :=
  [("\Seen", "S"%char); ("\Answered", "R"%char); ("\Flagged", "F"%char);
   ("\Deleted", "T"%char); ("\Draft", "D"%char)].

(** [flagsmaildir2imap] of imaputil.py, lines 185-192. *)
Definition flagsmaildir2imap (maildirflaglist : gset ascii) : string :=
  let retval :=
    map fst (List.filter (fun p => bool_decide (p.2 ∈ maildirflaglist)) flagmap)
  in
  "(" ++ imaputil.join " " (merge_sort String.le retval) ++ ")".

(** *** The connection

    What one connection answers to the calls that savemessage makes on it.
    The calls of imaplib2 are not among the sources: each field is the
    answer as savemessage reads it. *)
Inductive select_response :=
| select_ok
| select_readonly.                       (* raises imapobj.readonly *)

Inductive append_response :=
| append_typ (typ : string)              (* (typ, dat) *)
| append_abort                           (* raises imapobj.abort *)
| append_error.                          (* raises imapobj.error *)

(** [imapobj._get_untagged_response('APPENDUID')] as lines 775-790 read it. *)
Inductive appenduid_response :=
| appenduid_none                         (* None or [None] *)
| appenduid_uid (uid : Z)                (* the UID field is a number *)
| appenduid_not_a_number                 (* int() raises ValueError *)
| appenduid_malformed.                   (* any other exception *)

(** [imapobj.uid('search', 'HEADER', ...)] as lines 413-448 read it: the
    matching UIDs are the numbers of [matchinguids.split(' ')], none for the
    empty string. *)
Inductive search_response :=
| search_error                           (* raises imapobj.error *)
| search_matching (matchinguids : list Z)
| search_not_a_number.                   (* int() raises ValueError *)

(** An item of the answer to UID FETCH: a tuple of two byte strings, a byte
    string, or anything else. *)
Inductive fetch_item :=
| item_tuple (item0 item1 : string)
| item_bytes (item : string)
| item_other.

Record imapobj := Imapobj {
  capabilities : list string;
  select : select_response;
  append : string -> option string -> string -> append_response;
  check : string;
  APPENDUID : appenduid_response;
  uid_search_header : string -> string -> search_response;
  uid_fetch_headers : Z -> string * list fetch_item
}.

Inductive command :=
| SELECT
| APPEND (flags : string) (date : option string) (content : string)
| CHECK
| UID_SEARCH_HEADER (headername headervalue : string)
| UID_FETCH_HEADERS (start : Z)
| UID_STORE_FLAGS (uid : Z) (flags : string).

(** What [savemessageflags] reads from the answer to UID STORE: a type
    other than OK, no result, or the flags of the result. *)
Inductive store_response :=
| store_failed
| store_no_result
| store_result (fl : gset ascii).

(** The folder object: the cached message list, how many numbers the random
    generator has given, how many connections were acquired, and the
    commands sent so far. *)
Record imapfolder := Imapfolder {
  messagelist : gmap Z message;
  drawn : nat;
  acquired : nat;
  sent : list command
}.

Section savemessage.
(** The message object and the library calls on it: [Msg] is
    [email.message.EmailMessage]. *)
Context {Msg : Type}.
Variable del_header : string -> Msg -> Msg.            (* del msg[h] *)
Variable add_header : string -> string -> Msg -> Msg.  (* msg.add_header *)
Variable as_bytes : Msg -> string.                     (* msg.as_bytes *)
Variable crc32 : string -> Z.                          (* binascii.crc32 *)
(** [self.randomgenerator.randint(0, 9999999999)], draw after draw. *)
Variable randint : nat -> Z.
(** [imapobj._quote]. *)
Variable imapobj_quote : string -> string.
(** The regular expression searches of __savemessage_fetchheaders: the
    header line in the headers of a message, the UID after the headers, and
    the UID in the first part of the item. *)
Variable header_in : string -> string -> string -> bool.
Variable uid_after : string -> option Z.
Variable uid_before : string -> option Z.
(** [self.__getmessageinternaldate(msg, rtime)]. *)
Variable getmessageinternaldate : Msg -> Z -> option string.
(** [self.filterheaders]. *)
Variable filterheaders : list string.
(** The connections that [self.imapserver.acquireconnection()] gives, one
    after the other, and the answer to the UID STORE of savemessageflags. *)
Variable imapserver : nat -> imapobj.
Variable uid_store : Z -> string -> store_response.
Variable ERROR_MESSAGE ERROR_REPO : Z.

Abbreviation F := imapfolder.

Definition send (c : command) : M F unit :=
  modify (fun f => Imapfolder (messagelist f) (drawn f) (acquired f)
                              (sent f ++ [c])%list).

Definition acquireconnection : M F imapobj :=
  fun f => Ret (imapserver (acquired f))
               (Imapfolder (messagelist f) (drawn f) (S (acquired f)) (sent f)).

Definition set_messagelist (ml : gmap Z message) : M F unit :=
  modify (fun f => Imapfolder ml (drawn f) (acquired f) (sent f)).

(** [deletemessageheaders]: Base.py lines 710-727. *)
Definition deletemessageheaders (msg : Msg) (header_list : list string) : Msg :=
  foldl (fun msg h => del_header h msg) msg header_list.

(** [__generate_randomheader]: lines 375-405. *)
Definition generate_randomheader (msg : Msg) : M F (string * string) :=
  fun f =>
    let headervalue :=
      imaputil.str (Z.land (crc32 (as_bytes msg)) 4294967295) ++ "-"
      ++ imaputil.str (randint (drawn f)) in
    Ret ("X-OfflineIMAP", headervalue)
        (Imapfolder (messagelist f) (S (drawn f)) (acquired f) (sent f)).

(** [__savemessage_searchforheader]: lines 407-448. *)
Definition savemessage_searchforheader (conn : imapobj)
    (headername headervalue : string) : M F Z :=
  let headervalue := imapobj_quote headervalue in
  send (UID_SEARCH_HEADER headername headervalue) ;;
  match uid_search_header conn headername headervalue with
  | search_error => ret 0
  | search_not_a_number => raise (Exception "ValueError")
  | search_matching [] => ret 0
  | search_matching [uid] => ret uid
  | search_matching _ => raise (OfflineImapError ERROR_MESSAGE)
  end.

(** The loop of __savemessage_fetchheaders over the items: lines 503-541. *)
Fixpoint fetchheaders_scan (headername headervalue : string)
    (result : list fetch_item) (found : option string) : Z :=
  match result with
  | [] => 0
  | item :: rest =>
      match found, item with
      | None, item_tuple item0 item1 =>
          if header_in headername headervalue item1
          then fetchheaders_scan headername headervalue rest (Some item0)
          else fetchheaders_scan headername headervalue rest None
      | None, _ => fetchheaders_scan headername headervalue rest None
      | Some found0, item_bytes b =>
          match uid_after b with
          | Some uid => uid
          | None =>
              match uid_before found0 with
              | Some uid => uid
              | None => fetchheaders_scan headername headervalue rest found
              end
          end
      | Some _, _ => fetchheaders_scan headername headervalue rest found
      end
  end.

(** [1 + max(self.getmessagelist().keys())], or 1 for an empty folder. *)
Definition fetch_start (ml : gmap Z message) : Z :=
  match elements (dom ml) with
  | [] => 1
  | uid :: uids => 1 + foldr Z.max uid uids
  end.

(** [__savemessage_fetchheaders]: lines 450-541. *)
Definition savemessage_fetchheaders (conn : imapobj)
    (headername headervalue : string) : M F Z :=
  let* start := gets (fun f => fetch_start (messagelist f)) in
  send (UID_FETCH_HEADERS start) ;;
  let result := uid_fetch_headers conn start in
  if negb (String.eqb result.1 "OK") then raise (OfflineImapError ERROR_MESSAGE)
  else ret (fetchheaders_scan headername headervalue result.2 None).

(** [savemessageflags]: lines 962-983. *)
Definition savemessageflags (uid : Z) (fl : gset ascii) : M F unit :=
  let* conn := acquireconnection in
  match select conn with
  | select_readonly => send SELECT
  | select_ok =>
      send SELECT ;;
      send (UID_STORE_FLAGS uid (flagsmaildir2imap fl)) ;;
      let store (new : gset ascii) : M F unit :=
        let* ml := gets messagelist in
        match ml !! uid with
        | Some m => set_messagelist (<[uid := Message new (keywords m) (time m)]> ml)
        | None => raise KeyError
        end in
      match uid_store uid (flagsmaildir2imap fl) with
      | store_failed => raise (OfflineImapError ERROR_MESSAGE)
      | store_no_result => store fl
      | store_result new => store new
      end
  end.

(** How the [while retry_left] loop of savemessage ends when it does not
    raise: with [return uid], or with the message appended. *)
Inductive loop_result :=
| returned (uid : Z)
| appended (conn : imapobj) (use_uidplus : bool) (header : string * string).

(** The loop: lines 676-760.  [retry_left] is the counter of the code; the
    message carries the headers added so far. *)
Fixpoint append_loop (retry_left : nat) (conn : imapobj) (uid : Z) (msg : Msg)
    (fl : gset ascii) (date : option string) (header : string * string)
    : M F loop_result :=
  match retry_left with
  | O => raise (Exception "NameError")
  | S retry_left' =>
      let use_uidplus := bool_decide ("UIDPLUS" ∈ capabilities conn) in
      let* marked :=
        (if use_uidplus then ret (msg, header)
         else let* h := generate_randomheader msg in
              ret (add_header h.1 h.2 msg, h)) in
      let msg := marked.1 in
      let header := marked.2 in
      send SELECT ;;
      match select conn with
      | select_readonly => ret (returned uid)
      | select_ok =>
          let content := as_bytes msg in
          send (APPEND (flagsmaildir2imap fl) date content) ;;
          match append conn (flagsmaildir2imap fl) date content with
          | append_typ typ =>
              if String.eqb typ "OK" then ret (appended conn use_uidplus header)
              else raise (OfflineImapError ERROR_REPO)
          | append_abort =>
              let* conn := acquireconnection in
              match retry_left' with
              | O => raise (OfflineImapError ERROR_MESSAGE)
              | S _ => append_loop retry_left' conn uid msg fl date header
              end
          | append_error => raise (OfflineImapError ERROR_MESSAGE)
          end
      end
  end.

(** [savemessage]: lines 623-832. *)
Definition savemessage (uid : Z) (msg : Msg) (fl : gset ascii) (rtime : Z)
    : M F Z :=
  let* have := gets (fun f => uidexists uid (messagelist f)) in
  if (0 <? uid)%Z && have then
    savemessageflags uid fl ;; ret uid
  else
    let msg := deletemessageheaders msg filterheaders in
    let date := getmessageinternaldate msg rtime in
    let* conn := acquireconnection in
    let* looped := append_loop 2 conn uid msg fl date ("", "") in
    match looped with
    | returned uid => ret uid
    | appended conn use_uidplus (headername, headervalue) =>
        send CHECK ;;
        if negb (String.eqb (check conn) "OK")
        then raise (Exception "AssertionError")
        else
          let finish (uid : Z) : M F Z :=
            (if (uid =? 0)%Z then ret tt
             else let* ml := gets messagelist in
                  set_messagelist (<[uid := Message fl ∅ 0]> ml)) ;;
            ret uid in
          if use_uidplus : bool then
            match APPENDUID conn with
            | appenduid_none => ret 0
            | appenduid_uid uid => finish uid
            | appenduid_not_a_number => finish 0
            | appenduid_malformed => raise (OfflineImapError ERROR_MESSAGE)
            end
          else
            let* uid := savemessage_searchforheader conn headername headervalue in
            let* uid := (if (uid =? 0)%Z
                         then savemessage_fetchheaders conn headername headervalue
                         else ret uid) in
            finish uid
    end.

End savemessage.

End IMAP.

(** ** Properties of the synchroniser *)

Module Base_facts.
Import Base.
Local Open Scope py_scope.

Section facts.
Context {Hs Hd B : Type}.
Variable cfg : env Hs Hd B.

Abbreviation st := (state Hs Hd).

Implicit Types (s : st) (uid : Z) (m : message).

Lemma uidexists_true uid (ml : gmap Z message) :
  uidexists uid ml = true <-> is_Some (ml !! uid).
Proof. unfold uidexists. by rewrite bool_decide_eq_true. Qed.

Lemma uidexists_false uid (ml : gmap Z message) :
  uidexists uid ml = false <-> ml !! uid = None.
Proof.
  unfold uidexists. rewrite bool_decide_eq_false, eq_None_not_Some. done.
Qed.



Lemma bind_Ret {S X Y} (c : M S X) (k : X -> M S Y) (t0 : S) a (t1 : S) :
  c t0 = Ret a t1 -> bind c k t0 = k a t1.
Proof. unfold bind. by intros ->. Qed.

Lemma bind_Raise {S X Y} (c : M S X) (k : X -> M S Y) (t0 : S) e (t1 : S) :
  c t0 = Raise e t1 -> bind c k t0 = Raise e t1.
Proof. unfold bind. by intros ->. Qed.

Lemma self_getmessageflags_Some uid m s :
  messagelist (self s) !! uid = Some m ->
  self_getmessageflags uid s = Ret (flags m) s.
Proof. unfold self_getmessageflags, lookup_field. by intros ->. Qed.

Lemma self_getmessagetime_Some uid m s :
  messagelist (self s) !! uid = Some m ->
  self_getmessagetime uid s = Ret (time m) s.
Proof. unfold self_getmessagetime, lookup_field. by intros ->. Qed.

Definition is_status_call (c : call) : bool :=
  match c with
  | status_savemessage _ _ _ | status_deletemessage _
  | status_savemessageflags _ _ => true
  | _ => false
  end.

(** The state of copymessageto once the body is loaded and
    [dstfolder.savemessage] has returned. *)
Definition loaded uid (message : option B) f1 s : st :=
  match message with
  | Some _ => logged (self_getmessage uid) (set_self f1 s)
  | None => s
  end.

Definition saved uid m (message : option B) f1 d1 s : st :=
  logged (dst_savemessage uid (flags m) (time m))
         (set_dstfolder d1 (loaded uid message f1 s)).

Lemma copymessageto_try_zero uid m message f1 d1 s :
  messagelist (self s) !! uid = Some m ->
  match message with
  | Some b => storesmessages (dstfolder_backend cfg) = true /\
              getmessage (self_backend cfg) uid (self s) = Ret b f1
  | None => storesmessages (dstfolder_backend cfg) = false /\ f1 = self s
  end ->
  savemessage (dstfolder_backend cfg) uid message (flags m) (time m)
              (dstfolder s) = Ret 0 d1 ->
  copymessageto_try cfg uid s
  = on_self (self_deletemessage uid) (deletemessage (self_backend cfg) uid)
            (saved uid m message f1 d1 s).
Proof.
  intros Hm Hload Hsave. unfold copymessageto_try.
  rewrite (bind_Ret _ _ _ _ _ (self_getmessageflags_Some _ _ _ Hm)).
  rewrite (bind_Ret _ _ _ _ _ (self_getmessagetime_Some _ _ _ Hm)).
  destruct message as [b|]; destruct Hload as [Hst Hget]; rewrite Hst.
  - rewrite (bind_Ret _ _ s (Some b) (loaded uid (Some b) f1 s)).
    2:{ unfold bind, on_self, ret. by rewrite Hget. }
    rewrite (bind_Ret _ _ _ 0 (saved uid m (Some b) f1 d1 s)).
    2:{ unfold on_dst. simpl. by rewrite Hsave. }
    reflexivity.
  - rewrite (bind_Ret _ _ s None s) by done.
    rewrite (bind_Ret _ _ _ 0 (saved uid m None f1 d1 s)).
    2:{ unfold on_dst. simpl. by rewrite Hsave. }
    reflexivity.
Qed.

(** C7: when [dstfolder.savemessage] returns 0 for the message, copymessageto
    calls [deletemessage uid] on the source, on the folder object as the
    loading of the body left it, and makes no call on the status folder,
    which stays as it was; nothing else changes the source, and the flag
    [have_newmail] keeps its value. *)
Theorem copymessageto_unknown_uid uid register m message f1 d1 s :
  messagelist (self s) !! uid = Some m ->
  match message with
  | Some b => storesmessages (dstfolder_backend cfg) = true /\
              getmessage (self_backend cfg) uid (self s) = Ret b f1
  | None => storesmessages (dstfolder_backend cfg) = false /\ f1 = self s
  end ->
  savemessage (dstfolder_backend cfg) uid message (flags m) (time m)
              (dstfolder s) = Ret 0 d1 ->
  let s' := final (copymessageto cfg uid register s) in
  self s' = final (deletemessage (self_backend cfg) uid f1) /\
  statusfolder s' = statusfolder s /\
  dstfolder s' = d1 /\
  have_newmail s' = have_newmail s /\
  (exists snap, Call (self_deletemessage uid) snap ∈ log s') /\
  (forall c snap, Call c snap ∈ log s' -> is_status_call c = true ->
                  Call c snap ∈ log s).
Proof.
  cbv zeta. intros Hm Hload Hsave.
  set (s0 := if register then add_log (Ui registerthread) s else s).
  assert (copymessageto cfg uid register s
          = try_except (copymessageto_try cfg uid) (copymessageto_except cfg) s0)
    as -> by (unfold copymessageto; by destruct register).
  assert (self s0 = self s /\ dstfolder s0 = dstfolder s /\
          statusfolder s0 = statusfolder s /\
          have_newmail s0 = have_newmail s /\
          forall e, e ∈ log s0 -> e = Ui registerthread \/ e ∈ log s)
    as (Hself & Hdst & Hstatus & Hnew & Hlog).
  { subst s0. destruct register; simpl; split_and!; auto.
    intros e. rewrite elem_of_app, list_elem_of_singleton. tauto. }
  unfold try_except.
  rewrite (copymessageto_try_zero uid m message f1 d1 s0);
    [| by rewrite Hself | by rewrite Hself | by rewrite Hdst].
  assert (self (saved uid m message f1 d1 s0) = f1) as Hf1.
  { destruct message; simpl; [done|]. destruct Hload as [_ ->]. done. }
  assert (statusfolder (saved uid m message f1 d1 s0) = statusfolder s /\
          dstfolder (saved uid m message f1 d1 s0) = d1 /\
          have_newmail (saved uid m message f1 d1 s0) = have_newmail s)
    as (Hstatus2 & Hdst2 & Hnew2) by (by destruct message).
  assert (forall c snap,
            Call c snap ∈ log (saved uid m message f1 d1 s0) ->
            is_status_call c = true -> Call c snap ∈ log s) as Hsaved.
  { intros c snap Hin Hc. unfold saved, loaded in Hin.
    destruct message; simpl in Hin;
      rewrite ?elem_of_app, ?list_elem_of_singleton in Hin;
      destruct_or!; simplify_eq; try done;
      destruct (Hlog _ Hin); by simplify_eq. }
  unfold on_self. rewrite Hf1.
  revert Hf1 Hstatus2 Hdst2 Hnew2 Hsaved.
  generalize (saved uid m message f1 d1 s0). intros s2 Hf1 Hst2 Hd2 Hn2 Hl.
  assert (forall e s3, final (copymessageto_except cfg e s3) = s3 \/
            exists u, final (copymessageto_except cfg e s3) = add_log (Ui u) s3)
    as Hexcept.
  { intros e s3. unfold copymessageto_except.
    destruct e; simpl; try (by left); try (right; by eexists).
    destruct (_ <? _); simpl; [by left | right; by eexists]. }
  assert (forall f2,
    let s3 := logged (self_deletemessage uid) (set_self f2 s2) in
    forall s4, s4 = s3 \/ (exists u, s4 = add_log (Ui u) s3) ->
    self s4 = f2 /\ statusfolder s4 = statusfolder s /\ dstfolder s4 = d1 /\
    have_newmail s4 = have_newmail s /\
    (exists snap, Call (self_deletemessage uid) snap ∈ log s4) /\
    (forall c snap, Call c snap ∈ log s4 -> is_status_call c = true ->
                    Call c snap ∈ log s)) as Hfin.
  { intros f2 s3 s4 [->|[u ->]]; subst s3; simpl; (split_and!; try done).
    - eexists. rewrite elem_of_app, list_elem_of_singleton. by right.
    - intros c snap Hin Hc.
      rewrite elem_of_app, list_elem_of_singleton in Hin.
      destruct Hin as [Hin|Hin]; [by apply Hl | by simplify_eq].
    - eexists. rewrite !elem_of_app, !list_elem_of_singleton. left. by right.
    - intros c snap Hin Hc.
      rewrite !elem_of_app, !list_elem_of_singleton in Hin.
      destruct Hin as [[Hin|Hin]|Hin]; [by apply Hl | by simplify_eq..]. }
  destruct (deletemessage (self_backend cfg) uid f1) as [[] f2|e f2] eqn:Hdel.
  - apply (Hfin f2). by left.
  - apply (Hfin f2). apply Hexcept.
Qed.

(** *** Pass 2 *)

Lemma elem_of_getmessageuidlist uid (ml : gmap Z message) :
  uid ∈ getmessageuidlist ml <-> is_Some (ml !! uid).
Proof.
  unfold getmessageuidlist.
  by rewrite merge_sort_Permutation, elem_of_elements, elem_of_dom.
Qed.

Lemma elem_of_List_filter {X} (f : X -> bool) (l : list X) x :
  x ∈ List.filter f l <-> x ∈ l /\ f x = true.
Proof. by rewrite !list_elem_of_In, filter_In. Qed.

Definition deletable s uid : Prop :=
  0 <= uid /\ messagelist (self s) !! uid = None /\
  (sync_deletes cfg = true \/ messagelist (dstfolder s) !! uid = None).

Instance deletable_dec s uid : Decision (deletable s uid).
Proof. unfold deletable. apply _. Defined.

Lemma elem_of_deletelist s uid :
  uid ∈ deletelist cfg s <-> is_Some (statusfolder s !! uid) /\ deletable s uid.
Proof.
  unfold deletelist, deletable.
  rewrite elem_of_List_filter, elem_of_getmessageuidlist.
  rewrite !andb_true_iff, orb_true_iff, !negb_true_iff, !uidexists_false.
  rewrite Z.leb_le. tauto.
Qed.

(** The state after [statusfolder.deletemessages(uidlist)]. *)
Fixpoint status_deleted (uidlist : list Z) s : st :=
  match uidlist with
  | [] => s
  | uid :: rest =>
      status_deleted rest
        (logged (status_deletemessage uid)
                (set_statusfolder (delete uid (statusfolder s)) s))
  end.

Lemma statusfolder_deletemessages_eq uidlist s :
  statusfolder_deletemessages uidlist s = Ret tt (status_deleted uidlist s).
Proof.
  revert s. induction uidlist as [|uid rest IH]; intros s; [done|].
  unfold statusfolder_deletemessages in *. simpl.
  unfold bind at 1. simpl. apply IH.
Qed.

Lemma status_deleted_frame uidlist s :
  self (status_deleted uidlist s) = self s /\
  dstfolder (status_deleted uidlist s) = dstfolder s /\
  have_newmail (status_deleted uidlist s) = have_newmail s.
Proof.
  revert s. induction uidlist as [|uid rest IH]; intros s; [done|].
  simpl. destruct (IH (logged (status_deletemessage uid)
    (set_statusfolder (delete uid (statusfolder s)) s))) as (-> & -> & ->).
  done.
Qed.

Lemma status_deleted_lookup uidlist s uid :
  statusfolder (status_deleted uidlist s) !! uid
  = if decide (uid ∈ uidlist) then None else statusfolder s !! uid.
Proof.
  revert s. induction uidlist as [|u rest IH]; intros s; cbn [status_deleted].
  - by rewrite decide_False by set_solver.
  - rewrite IH. unfold logged, add_log, set_statusfolder. cbn [statusfolder].
    destruct (decide (uid ∈ rest)).
    + by rewrite decide_True by set_solver.
    + destruct (decide (uid = u)) as [->|Hne].
      * rewrite decide_True by set_solver. apply lookup_delete_eq.
      * rewrite decide_False by set_solver. by apply lookup_delete_ne.
Qed.

(** The log of [statusfolder.deletemessages]: one call per UID, and the
    status folder never gets an entry back. *)
Lemma status_deleted_log uidlist s :
  exists new,
    log (status_deleted uidlist s) = log s ++ new /\
    (forall e, e ∈ new -> exists uid snap,
        e = Call (status_deletemessage uid) snap /\ uid ∈ uidlist) /\
    (forall uid, uid ∈ uidlist ->
        exists snap, Call (status_deletemessage uid) snap ∈ new).
Proof.
  revert s. induction uidlist as [|u rest IH]; intros s; simpl.
  - exists []. rewrite app_nil_r. split_and!; [done|set_solver..].
  - destruct (IH (logged (status_deletemessage u)
      (set_statusfolder (delete u (statusfolder s)) s))) as (new & Hlog & Hall & Hex).
    eexists (_ :: new). split_and!.
    + rewrite Hlog. simpl. by rewrite <- app_assoc.
    + intros e [->|Hin]%elem_of_cons.
      * eexists _, _. split; [done|set_solver].
      * destruct (Hall e Hin) as (uid & snap & -> & ?).
        eexists _, _. split; [done|set_solver].
    + intros uid [->|Hin]%elem_of_cons.
      * eexists. by left.
      * destruct (Hex uid Hin) as [snap ?]. exists snap. by right.
Qed.

(** The state in which Pass 2 ends, whether the destination raises or
    not. *)
Definition after_delete s : st :=
  let dl := deletelist cfg s in
  if (0 <? length dl)%nat then
    let s1 := if dryrun cfg then s else status_deleted dl s in
    let dl2 :=
      List.filter (fun uid => uidexists uid (messagelist (dstfolder s))) dl in
    if (0 <? length dl2)%nat then
      let s2 := add_log (Ui (deletingmessages dl2)) s1 in
      if dryrun cfg then s2
      else logged (dst_deletemessages dl2)
             (set_dstfolder
                (final (deletemessages (dstfolder_backend cfg) dl2 (dstfolder s)))
                s2)
    else s1
  else s.

Lemma syncmessagesto_delete_final s :
  final (syncmessagesto_delete cfg s) = after_delete s.
Proof.
  unfold syncmessagesto_delete, after_delete.
  unfold bind at 1, gets at 1.
  destruct (0 <? length (deletelist cfg s))%nat; [|done].
  destruct (dryrun cfg) eqn:Hdry; simpl.
  - unfold bind at 1, ret at 1. unfold bind at 1, gets at 1.
    destruct (0 <? length _)%nat; [|done]. reflexivity.
  - unfold bind at 1. rewrite statusfolder_deletemessages_eq.
    destruct (status_deleted_frame (deletelist cfg s) s) as (Hself & Hdst & _).
    unfold bind at 1, gets at 1. rewrite Hdst.
    destruct (0 <? length _)%nat; [|done].
    unfold bind at 1, ui, modify. unfold on_dst. simpl. rewrite Hdst.
    by destruct (deletemessages _ _ _).
Qed.

(** C2, as amended: outside dry-run mode Pass 2 removes from the status
    folder exactly the UIDs >= 0 that the source does not have and that
    either [sync_deletes] allows to delete or the destination does not have
    either; every other entry of the status folder stays as it is, so with
    [sync_deletes] disabled a UID that the destination still has stays in the
    status folder. *)
Theorem delete_pass_status s uid :
  dryrun cfg = false ->
  statusfolder (final (syncmessagesto_delete cfg s)) !! uid
  = if decide (deletable s uid) then None else statusfolder s !! uid.
Proof.
  intros Hdry. rewrite syncmessagesto_delete_final. unfold after_delete.
  rewrite Hdry.
  assert (statusfolder (status_deleted (deletelist cfg s) s) !! uid
          = if decide (deletable s uid) then None else statusfolder s !! uid)
    as Hdel.
  { rewrite status_deleted_lookup.
    destruct (decide (uid ∈ deletelist cfg s)) as [Hin|Hnin].
    - apply elem_of_deletelist in Hin as [_ ?]. by rewrite decide_True.
    - destruct (decide (deletable s uid)) as [Hdl|]; [|done].
      destruct (statusfolder s !! uid) eqn:E; [|done].
      destruct Hnin. apply elem_of_deletelist. split; [by eexists|done]. }
  cbv zeta.
  destruct (0 <? length (deletelist cfg s))%nat eqn:Hlen.
  - destruct (0 <? length (List.filter _ _))%nat; simpl; apply Hdel.
  - assert (deletelist cfg s = []) as Hnil
      by (by destruct (deletelist cfg s)).
    rewrite <- Hdel, Hnil. done.
Qed.

Lemma app_singleton_split {X} (l : list X) x pre y post :
  l ++ [x] = pre ++ y :: post -> y ∉ l -> pre = l /\ y = x /\ post = [].
Proof.
  revert pre. induction l as [|a l IH]; intros pre Heq Hnin.
  - destruct pre as [|b pre]; simpl in Heq.
    + by simplify_eq.
    + destruct pre; simplify_eq.
  - destruct pre as [|b pre]; simpl in Heq.
    + simplify_eq. set_solver.
    + simplify_eq. destruct (IH pre) as (-> & -> & ->); [done|set_solver|done].
Qed.

(** C3: in the calls that Pass 2 adds to the log, whenever
    [dstfolder.deletemessages] is called the run is not a dry run and
    [sync_deletes] is enabled, and every UID it is called on was on the
    destination when the pass started, has had its
    [statusfolder.deletemessage] call earlier in the log, and is absent from
    the status folder in the state this call leaves and in the state that any
    later call of the pass leaves. *)
Theorem delete_status_first s :
  exists new,
    log (final (syncmessagesto_delete cfg s)) = log s ++ new /\
    forall pre uids snap post,
      new = pre ++ Call (dst_deletemessages uids) snap :: post ->
      dryrun cfg = false /\ sync_deletes cfg = true /\
      forall uid, uid ∈ uids ->
        is_Some (messagelist (dstfolder s) !! uid) /\
        (exists snap0, Call (status_deletemessage uid) snap0 ∈ pre) /\
        snap_status snap !! uid = None /\
        (forall c snap1, Call c snap1 ∈ post -> snap_status snap1 !! uid = None).
Proof.
  rewrite syncmessagesto_delete_final. unfold after_delete. cbv zeta.
  set (dl := deletelist cfg s).
  set (dl2 := List.filter _ dl).
  destruct (status_deleted_log dl s) as (sd & Hsd & Hall & Hex).
  destruct (status_deleted_frame dl s) as (Hself & Hdst & _).
  assert (forall uids snap, Call (dst_deletemessages uids) snap ∉ sd) as Hnotin.
  { intros uids snap Hin. by destruct (Hall _ Hin) as (? & ? & ? & _). }
  assert (forall (l : list entry) pre uids snap post,
            (forall uids snap, Call (dst_deletemessages uids) snap ∉ l) ->
            l = pre ++ Call (dst_deletemessages uids) snap :: post -> False)
    as Habsurd.
  { intros l pre uids snap post Hl ->. apply (Hl uids snap). set_solver. }
  destruct (0 <? length dl)%nat.
  2:{ exists []. rewrite app_nil_r. split; [done|].
      intros pre uids snap post Heq. by destruct pre. }
  destruct (dryrun cfg) eqn:Hdry.
  { destruct (0 <? length dl2)%nat.
    - eexists [_]. split; [done|]. intros pre uids snap post Heq.
      destruct pre as [|? [|]]; simplify_eq.
    - exists []. rewrite app_nil_r. split; [done|].
      intros pre uids snap post Heq. by destruct pre. }
  destruct (0 <? length dl2)%nat eqn:Hlen.
  2:{ exists sd. split; [done|]. intros pre uids snap post Heq.
      destruct (Habsurd sd pre uids snap post); done. }
  eexists (sd ++ [Ui (deletingmessages dl2); Call (dst_deletemessages dl2) _]).
  split.
  { simpl. rewrite Hsd. by rewrite <- !app_assoc. }
  intros pre uids snap post Heq.
  change (sd ++ [Ui (deletingmessages dl2); ?c])
    with (sd ++ [Ui (deletingmessages dl2)] ++ [c]) in Heq.
  rewrite app_assoc in Heq.
  apply app_singleton_split in Heq as (-> & Hc & ->).
  2:{ rewrite elem_of_app, list_elem_of_singleton.
      intros [Hin|?]; [by apply Hnotin in Hin|done]. }
  injection Hc as -> ->.
  assert (forall uid, uid ∈ dl2 ->
            uid ∈ dl /\ is_Some (messagelist (dstfolder s) !! uid)) as Hdl2.
  { intros uid Hin. subst dl2. apply elem_of_List_filter in Hin as [? Hin].
    by apply uidexists_true in Hin. }
  split_and!; [done| |].
  - destruct dl2 as [|uid dl2'] eqn:E; [done|].
    destruct (Hdl2 uid) as [Hin Hsome]; [set_solver|].
    apply elem_of_deletelist in Hin as (_ & _ & _ & [?|Hnone]); [done|].
    rewrite Hnone in Hsome. by destruct Hsome.
  - intros uid Hin. destruct (Hdl2 uid Hin) as [Hin' Hsome].
    split_and!; [done| | |set_solver].
    + destruct (Hex uid Hin') as [snap0 ?]. exists snap0. set_solver.
    + simpl. rewrite status_deleted_lookup. by rewrite decide_True.
Qed.

(** *** Pass 3 *)

Lemma bind_Ret_inv {S X Y} (c : M S X) (k : X -> M S Y) (t0 : S) b (t2 : S) :
  bind c k t0 = Ret b t2 -> exists a t1, c t0 = Ret a t1 /\ k a t1 = Ret b t2.
Proof. unfold bind. destruct (c t0); [eauto|done]. Qed.

Lemma elem_of_keywordletterset (km : gmap string ascii) (kws : gset string) c :
  c ∈ keywordletterset km kws <-> exists k, k ∈ kws /\ km !! k = Some c.
Proof.
  unfold keywordletterset.
  rewrite elem_of_list_to_set, list_elem_of_omap.
  by setoid_rewrite elem_of_elements.
Qed.

Lemma keywordletterset_known (km : gmap string ascii) (kws : gset string) :
  keywordletterset km (kws ∩ dom km) = keywordletterset km kws.
Proof.
  apply set_eq. intros c. rewrite !elem_of_keywordletterset.
  split; intros (k & Hk & Hc); exists k; split; try done.
  - set_solver.
  - apply elem_of_intersection. split; [done|]. apply elem_of_dom. by eexists.
Qed.

Definition effective m : gset ascii := flags m ∪ mapped_keywords cfg m.

(** What the scan of Pass 3 may change in the source: the keywords that the
    keyword map does not know are dropped from the messages. *)
Definition keeps_effective (ml ml' : gmap Z message) : Prop :=
  forall u, match ml !! u, ml' !! u with
            | Some m, Some m' =>
                flags m' = flags m /\
                mapped_keywords cfg m' = mapped_keywords cfg m
            | None, None => True
            | _, _ => False
            end.

Lemma keeps_effective_refl ml : keeps_effective ml ml.
Proof. intros u. by destruct (ml !! u). Qed.

Lemma keeps_effective_trans ml1 ml2 ml3 :
  keeps_effective ml1 ml2 -> keeps_effective ml2 ml3 -> keeps_effective ml1 ml3.
Proof.
  intros H12 H23 u. specialize (H12 u). specialize (H23 u).
  destruct (ml1 !! u), (ml2 !! u), (ml3 !! u); try done.
  intuition congruence.
Qed.

Lemma combine_flags_and_keywords_spec uid m s :
  messagelist (self s) !! uid = Some m ->
  exists s',
    combine_flags_and_keywords cfg uid s = Ret (effective m) s' /\
    dstfolder s' = dstfolder s /\
    statusfolder s' = statusfolder s /\
    keeps_effective (messagelist (self s)) (messagelist (self s')).
Proof.
  intros Hm. unfold combine_flags_and_keywords, effective, mapped_keywords.
  rewrite (bind_Ret _ _ _ _ _ (self_getmessageflags_Some _ _ _ Hm)).
  destruct (getkeywordmap cfg) as [| |km] eqn:Hkm.
  1,2: exists s; rewrite (right_id_L ∅ (∪));
       split_and!; try done; apply keeps_effective_refl.
  destruct (getmessagekeywords_implemented (self_backend cfg)) eqn:Himpl.
  2:{ exists s. rewrite (right_id_L ∅ (∪)).
      split_and!; try done; apply keeps_effective_refl. }
  unfold bind at 1, lookup_field. rewrite Hm.
  destruct (bool_decide (keywords m ⊆ dom km)) eqn:Hsub.
  - exists s. split_and!; try done. apply keeps_effective_refl.
  - eexists. split_and!.
    + unfold bind, modify, ui, ret. simpl.
      by rewrite keywordletterset_known.
    + done.
    + done.
    + intros u. simpl. unfold keeps_effective, mapped_keywords.
      rewrite Hkm, Himpl.
      destruct (decide (u = uid)) as [->|Hne].
      * rewrite lookup_alter_eq, Hm. simpl.
        by rewrite keywordletterset_known.
      * rewrite lookup_alter_ne by done. by destruct (_ !! u).
Qed.

Definition src_effective s uid : gset ascii :=
  from_option effective ∅ (messagelist (self s) !! uid).

Definition status_flags s uid : gset ascii :=
  from_option flags ∅ (statusfolder s !! uid).

(** What one turn of the first loop of Pass 3 makes of the two lists. *)
Definition scanned s (lists : list (ascii * list Z) * list (ascii * list Z))
    uid : list (ascii * list Z) * list (ascii * list Z) :=
  if (uid <? 0) || negb (uidexists uid (messagelist (dstfolder s))) then lists
  else (flaglist_extend (src_effective s uid ∖ status_flags s uid) uid lists.1,
        flaglist_extend (status_flags s uid ∖ src_effective s uid) uid lists.2).

Lemma flags_iteration_spec lists uid s :
  is_Some (messagelist (self s) !! uid) ->
  exists s',
    flags_iteration cfg lists uid s = Ret (scanned s lists uid) s' /\
    dstfolder s' = dstfolder s /\
    statusfolder s' = statusfolder s /\
    keeps_effective (messagelist (self s)) (messagelist (self s')).
Proof.
  intros [m Hm]. unfold flags_iteration, scanned.
  unfold bind at 1, gets at 1.
  destruct ((uid <? 0) || negb _).
  { exists s. split_and!; try done. apply keeps_effective_refl. }
  unfold bind at 1, gets at 1.
  assert ((if uidexists uid (statusfolder s)
           then status_getmessageflags uid else ret ∅) s
          = Ret (status_flags s uid) s) as Hstatus.
  { unfold status_flags, status_getmessageflags, lookup_field.
    destruct (uidexists uid (statusfolder s)) eqn:E.
    - apply uidexists_true in E as [e He]. by rewrite He.
    - apply uidexists_false in E. by rewrite E. }
  rewrite (bind_Ret _ _ _ _ _ Hstatus).
  destruct (combine_flags_and_keywords_spec uid m s Hm)
    as (s' & Hcombine & Hdst & Hst & Hkeep).
  rewrite (bind_Ret _ _ _ _ _ Hcombine).
  exists s'. unfold src_effective. rewrite Hm. simpl. done.
Qed.

Lemma scan_spec uids lists s :
  (forall u, u ∈ uids -> is_Some (messagelist (self s) !! u)) ->
  exists s',
    for_fold uids lists (flags_iteration cfg) s
    = Ret (foldl (scanned s) lists uids) s' /\
    dstfolder s' = dstfolder s /\
    statusfolder s' = statusfolder s /\
    keeps_effective (messagelist (self s)) (messagelist (self s')).
Proof.
  revert lists s. induction uids as [|uid uids IH]; intros lists s Hin.
  { exists s. split_and!; try done. apply keeps_effective_refl. }
  destruct (flags_iteration_spec lists uid s) as (s1 & Hit & Hdst & Hst & Hkeep);
    [apply Hin; set_solver|].
  destruct (IH (scanned s lists uid) s1) as (s2 & Hfold & Hdst2 & Hst2 & Hkeep2).
  { intros u Hu. specialize (Hkeep u).
    destruct (Hin u) as [m Hm]; [set_solver|]. rewrite Hm in Hkeep.
    destruct (messagelist (self s1) !! u); [by eexists|done]. }
  exists s2. split_and!.
  - simpl. rewrite (bind_Ret _ _ _ _ _ Hit), Hfold. f_equal.
    assert (forall l u, scanned s1 l u = scanned s l u) as Hsame.
    2:{ generalize (scanned s lists uid). clear -Hsame.
        induction uids as [|u uids IHu]; intros l; simpl; [done|].
        by rewrite Hsame, IHu. }
    intros l u.
    unfold scanned, src_effective, status_flags, effective.
    rewrite Hdst, Hst. specialize (Hkeep u).
    destruct (messagelist (self s) !! u), (messagelist (self s1) !! u);
      try done; simpl.
    destruct Hkeep as [-> ->]. done.
  - congruence.
  - congruence.
  - by eapply keeps_effective_trans.
Qed.

Definition in_flaglist (flag : ascii) (uid : Z) (d : list (ascii * list Z))
    : Prop :=
  exists uids, (flag, uids) ∈ d /\ uid ∈ uids.

Lemma in_flaglist_nil f u : in_flaglist f u [] <-> False.
Proof.
  unfold in_flaglist. split; [|done].
  intros (uids & Hin & _). by apply elem_of_nil in Hin.
Qed.

Lemma in_flaglist_cons f u f0 us d :
  in_flaglist f u ((f0, us) :: d)
  <-> (f = f0 /\ u ∈ us) \/ in_flaglist f u d.
Proof.
  unfold in_flaglist. split.
  - intros (uids & Hin & Hu). apply elem_of_cons in Hin as [Heq|Hin].
    + simplify_eq. by left.
    + right. by exists uids.
  - intros [[-> Hu]|(uids & Hin & Hu)].
    + exists us. split; [by left|done].
    + exists uids. split; [by right|done].
Qed.

Lemma in_flaglist_append f u flag uid d :
  in_flaglist f u (flaglist_append flag uid d)
  <-> in_flaglist f u d \/ (f = flag /\ u = uid).
Proof.
  induction d as [|[f0 us] d IH]; simpl.
  - rewrite in_flaglist_cons, in_flaglist_nil, list_elem_of_singleton. tauto.
  - case_bool_decide as Hf.
    + subst f0. rewrite !in_flaglist_cons, elem_of_app, list_elem_of_singleton.
      tauto.
    + rewrite !in_flaglist_cons, IH. tauto.
Qed.

Lemma in_flaglist_extend f u (fl : gset ascii) uid d :
  in_flaglist f u (flaglist_extend fl uid d)
  <-> in_flaglist f u d \/ (f ∈ fl /\ u = uid).
Proof.
  unfold flaglist_extend.
  assert (forall l d, in_flaglist f u (foldl (fun d flag => flaglist_append flag uid d) d l)
            <-> in_flaglist f u d \/ (f ∈ l /\ u = uid)) as H.
  { intros l. induction l as [|x l IH]; intros d'; simpl.
    - rewrite elem_of_nil. tauto.
    - rewrite IH, in_flaglist_append, elem_of_cons. naive_solver. }
  rewrite H. by rewrite elem_of_elements.
Qed.

Definition eligible s uid : Prop :=
  0 <= uid /\ is_Some (messagelist (dstfolder s) !! uid).

Lemma scanned_skip s uid :
  ((uid <? 0) || negb (uidexists uid (messagelist (dstfolder s)))) = false
  <-> eligible s uid.
Proof.
  unfold eligible.
  rewrite orb_false_iff, negb_false_iff, uidexists_true, Z.ltb_ge. done.
Qed.

Lemma foldl_scanned_in s uids lists f u :
  (in_flaglist f u (foldl (scanned s) lists uids).1
   <-> in_flaglist f u lists.1 \/
       (u ∈ uids /\ eligible s u /\
        f ∈ src_effective s u ∖ status_flags s u)) /\
  (in_flaglist f u (foldl (scanned s) lists uids).2
   <-> in_flaglist f u lists.2 \/
       (u ∈ uids /\ eligible s u /\
        f ∈ status_flags s u ∖ src_effective s u)).
Proof.
  revert lists. induction uids as [|uid uids IH]; intros lists; simpl.
  - rewrite elem_of_nil. tauto.
  - destruct (IH (scanned s lists uid)) as [-> ->]. clear IH.
    unfold scanned.
    destruct ((uid <? 0) || negb _) eqn:Hskip.
    + assert (~ eligible s uid) as Hne.
      { intros He%scanned_skip. congruence. }
      rewrite !elem_of_cons. split; naive_solver.
    + apply scanned_skip in Hskip. simpl.
      rewrite !in_flaglist_extend, !elem_of_cons. split; naive_solver.
Qed.

(** The flag methods of the status folder. *)

Definition flags_related (P : Z -> gset ascii -> gset ascii -> Prop)
    (ml ml' : gmap Z message) : Prop :=
  forall u, match ml !! u, ml' !! u with
            | Some m, Some m' => P u (flags m) (flags m')
            | None, None => True
            | _, _ => False
            end.

Lemma statusfolder_savemessageflags_spec uid fl s :
  exists s',
    statusfolder_savemessageflags uid fl s = Ret tt s' /\
    self s' = self s /\ dstfolder s' = dstfolder s /\
    statusfolder s'
    = alter (fun m => Message fl (keywords m) (time m)) uid (statusfolder s).
Proof. eexists. by split_and!. Qed.

Lemma statusfolder_addmessagesflags_step uid fl s :
  exists s',
    (let* exists_ := gets (fun s => uidexists uid (statusfolder s)) in
     if exists_ : bool then statusfolder_addmessageflags uid fl else ret tt) s
    = Ret tt s' /\
    self s' = self s /\ dstfolder s' = dstfolder s /\
    flags_related (fun u F F' => F' = if decide (u = uid) then F ∪ fl else F)
                  (statusfolder s) (statusfolder s').
Proof.
  unfold bind at 1, gets at 1.
  destruct (uidexists uid (statusfolder s)) eqn:Hex.
  - apply uidexists_true in Hex as [e He].
    unfold statusfolder_addmessageflags, bind at 1, status_getmessageflags,
      lookup_field. rewrite He.
    eexists. split_and!; try done.
    intros u. simpl. destruct (decide (u = uid)) as [->|Hne].
    + by rewrite lookup_alter_eq, He.
    + rewrite lookup_alter_ne by done. by destruct (_ !! u).
  - apply uidexists_false in Hex. exists s. split_and!; try done.
    intros u. destruct (statusfolder s !! u) eqn:Hu; [|done].
    rewrite decide_False; [done|]. intros ->. congruence.
Qed.

Lemma statusfolder_addmessagesflags_spec uids fl s :
  exists s',
    statusfolder_addmessagesflags uids fl s = Ret tt s' /\
    self s' = self s /\ dstfolder s' = dstfolder s /\
    flags_related (fun u F F' => F' = if decide (u ∈ uids) then F ∪ fl else F)
                  (statusfolder s) (statusfolder s').
Proof.
  revert s. induction uids as [|uid uids IH]; intros s.
  { exists s. split_and!; try done.
    intros u. destruct (statusfolder s !! u); [|done].
    by rewrite decide_False by apply not_elem_of_nil. }
  destruct (statusfolder_addmessagesflags_step uid fl s)
    as (s1 & Hstep & Hself & Hdst & Hrel1).
  destruct (IH s1) as (s2 & Hrest & Hself2 & Hdst2 & Hrel).
  exists s2. split_and!; [|congruence..|].
  { unfold statusfolder_addmessagesflags in *. cbn [for_each].
    by rewrite (bind_Ret _ _ _ _ _ Hstep). }
  intros u. specialize (Hrel u). specialize (Hrel1 u).
  destruct (statusfolder s !! u), (statusfolder s1 !! u),
    (statusfolder s2 !! u); try done.
  rewrite Hrel, Hrel1.
  destruct (decide (u = uid)) as [->|Hne].
  - rewrite (decide_True (P := uid ∈ uid :: uids)) by (by left).
    destruct (decide (uid ∈ uids)); set_solver.
  - destruct (decide (u ∈ uids)).
    + by rewrite decide_True by (by right).
    + rewrite decide_False; [done|]. rewrite elem_of_cons. tauto.
Qed.

Lemma statusfolder_deletemessagesflags_spec uids fl s s' :
  statusfolder_deletemessagesflags uids fl s = Ret tt s' ->
  self s' = self s /\ dstfolder s' = dstfolder s /\
  flags_related (fun u F F' => F' = if decide (u ∈ uids) then F ∖ fl else F)
                (statusfolder s) (statusfolder s').
Proof.
  revert s. induction uids as [|uid uids IH]; intros s Hret.
  { injection Hret as <-. split_and!; try done.
    intros u. destruct (statusfolder s !! u); [|done].
    by rewrite decide_False by apply not_elem_of_nil. }
  unfold statusfolder_deletemessagesflags in *. cbn [for_each] in Hret.
  apply bind_Ret_inv in Hret as ([] & s1 & Hdel & Hret).
  unfold statusfolder_deletemessageflags, bind, status_getmessageflags,
    lookup_field in Hdel.
  destruct (statusfolder s !! uid) as [e|] eqn:He; [|done].
  destruct (statusfolder_savemessageflags_spec uid (flags e ∖ fl) s)
    as (s1' & Hsave & Hself & Hdst & Hst).
  rewrite Hsave in Hdel. injection Hdel as <-.
  destruct (IH s1' Hret) as (Hself2 & Hdst2 & Hrel).
  split_and!; [congruence..|].
  intros u. specialize (Hrel u). rewrite Hst in Hrel.
  destruct (decide (u = uid)) as [->|Hne].
  + rewrite lookup_alter_eq, He in Hrel. rewrite He. simpl in Hrel.
    destruct (statusfolder s' !! uid); [|done].
    rewrite decide_True by (by left). rewrite Hrel.
    destruct (decide (uid ∈ uids)); set_solver.
  + rewrite lookup_alter_ne in Hrel by done.
    destruct (statusfolder s !! u), (statusfolder s' !! u); try done.
    rewrite Hrel. destruct (decide (u ∈ uids)).
    * by rewrite decide_True by (by right).
    * rewrite decide_False; [done|]. rewrite elem_of_cons. tauto.
Qed.

Lemma on_dst_Ret_inv {X} c (op : M (folder Hd) X) s a s' :
  on_dst c op s = Ret a s' ->
  exists f, op (dstfolder s) = Ret a f /\ s' = logged c (set_dstfolder f s).
Proof.
  unfold on_dst. destruct (op (dstfolder s)) as [a' f|]; [|done].
  intros [= -> <-]. by exists f.
Qed.

Lemma apply_addflags_spec item s s' :
  dryrun cfg = false -> flagops_keep_uids cfg ->
  apply_addflags cfg item s = Ret tt s' ->
  self s' = self s /\
  (forall u, is_Some (messagelist (dstfolder s') !! u)
             <-> is_Some (messagelist (dstfolder s) !! u)) /\
  flags_related
    (fun u F F' => F' = if decide (u ∈ item.2) then F ∪ {[item.1]} else F)
    (statusfolder s) (statusfolder s').
Proof.
  intros Hdry Hkeep Hret. unfold apply_addflags in Hret. rewrite Hdry in Hret.
  apply bind_Ret_inv in Hret as ([] & s1 & Hui & Hret).
  injection Hui as <-.
  apply bind_Ret_inv in Hret as ([] & s2 & Hdst & Hret).
  apply on_dst_Ret_inv in Hdst as (f & Hop & ->).
  destruct (statusfolder_addmessagesflags_spec item.2 {[item.1]}
              (logged (dst_addmessagesflags item.2 {[item.1]})
                 (set_dstfolder f (add_log (Ui (addingflags item.2 item.1)) s))))
    as (s3 & Hadd & Hself & Hdst & Hrel).
  rewrite Hadd in Hret. injection Hret as <-.
  split_and!; [done| |done].
  intros u. rewrite Hdst. simpl. eapply Hkeep. left. exact Hop.
Qed.

Lemma apply_delflags_spec item s s' :
  dryrun cfg = false -> flagops_keep_uids cfg ->
  apply_delflags cfg item s = Ret tt s' ->
  self s' = self s /\
  (forall u, is_Some (messagelist (dstfolder s') !! u)
             <-> is_Some (messagelist (dstfolder s) !! u)) /\
  flags_related
    (fun u F F' => F' = if decide (u ∈ item.2) then F ∖ {[item.1]} else F)
    (statusfolder s) (statusfolder s').
Proof.
  intros Hdry Hkeep Hret. unfold apply_delflags in Hret. rewrite Hdry in Hret.
  apply bind_Ret_inv in Hret as ([] & s1 & Hui & Hret).
  injection Hui as <-.
  apply bind_Ret_inv in Hret as ([] & s2 & Hdst & Hret).
  apply on_dst_Ret_inv in Hdst as (f & Hop & ->).
  apply statusfolder_deletemessagesflags_spec in Hret as (Hself & Hdst & Hrel).
  split_and!; [done| |done].
  intros u. rewrite Hdst. simpl. eapply Hkeep. right. exact Hop.
Qed.

Lemma for_each_addflags_spec d s s' :
  dryrun cfg = false -> flagops_keep_uids cfg ->
  for_each d (apply_addflags cfg) s = Ret tt s' ->
  self s' = self s /\
  (forall u, is_Some (messagelist (dstfolder s') !! u)
             <-> is_Some (messagelist (dstfolder s) !! u)) /\
  flags_related (fun u F F' => forall f, f ∈ F' <-> f ∈ F \/ in_flaglist f u d)
                (statusfolder s) (statusfolder s').
Proof.
  intros Hdry Hkeep. revert s.
  induction d as [|[flag uids] d IH]; intros s Hret.
  { injection Hret as <-. split_and!; try done.
    intros u. destruct (statusfolder s !! u); [|done].
    intros f. rewrite in_flaglist_nil. tauto. }
  cbn [for_each] in Hret.
  apply bind_Ret_inv in Hret as ([] & s1 & Hitem & Hret).
  apply apply_addflags_spec in Hitem as (Hself1 & Hdst1 & Hrel1); [|done..].
  apply IH in Hret as (Hself2 & Hdst2 & Hrel2).
  split_and!; [congruence| |].
  { intros u. by rewrite Hdst2, Hdst1. }
  intros u. specialize (Hrel1 u). specialize (Hrel2 u).
  destruct (statusfolder s !! u), (statusfolder s1 !! u),
    (statusfolder s' !! u); try done.
  intros f. rewrite Hrel2, Hrel1, in_flaglist_cons. simpl.
  destruct (decide (u ∈ uids)); set_solver.
Qed.

Lemma for_each_delflags_spec d s s' :
  dryrun cfg = false -> flagops_keep_uids cfg ->
  for_each d (apply_delflags cfg) s = Ret tt s' ->
  self s' = self s /\
  (forall u, is_Some (messagelist (dstfolder s') !! u)
             <-> is_Some (messagelist (dstfolder s) !! u)) /\
  flags_related
    (fun u F F' => forall f, f ∈ F' <-> f ∈ F /\ ~ in_flaglist f u d)
    (statusfolder s) (statusfolder s').
Proof.
  intros Hdry Hkeep. revert s.
  induction d as [|[flag uids] d IH]; intros s Hret.
  { injection Hret as <-. split_and!; try done.
    intros u. destruct (statusfolder s !! u); [|done].
    intros f. rewrite in_flaglist_nil. tauto. }
  cbn [for_each] in Hret.
  apply bind_Ret_inv in Hret as ([] & s1 & Hitem & Hret).
  apply apply_delflags_spec in Hitem as (Hself1 & Hdst1 & Hrel1); [|done..].
  apply IH in Hret as (Hself2 & Hdst2 & Hrel2).
  split_and!; [congruence| |].
  { intros u. by rewrite Hdst2, Hdst1. }
  intros u. specialize (Hrel1 u). specialize (Hrel2 u).
  destruct (statusfolder s !! u), (statusfolder s1 !! u),
    (statusfolder s' !! u); try done.
  intros f. rewrite Hrel2, Hrel1, in_flaglist_cons. simpl.
  destruct (decide (u ∈ uids)); set_solver.
Qed.

Lemma syncmessagesto_flags_agree s s3 :
  dryrun cfg = false -> flagops_keep_uids cfg ->
  syncmessagesto_flags cfg s = Ret tt s3 ->
  flags_agree cfg s3.
Proof.
  intros Hdry Hkeep Hret. unfold syncmessagesto_flags in Hret.
  apply bind_Ret_inv in Hret as (uids & s0 & Huids & Hret).
  injection Huids as <- <-.
  destruct (scan_spec (getmessageuidlist (messagelist (self s))) ([], []) s)
    as (s1 & Hscan & Hdst1 & Hst1 & Hkeep1).
  { intros u. by rewrite elem_of_getmessageuidlist. }
  rewrite (bind_Ret _ _ _ _ _ Hscan) in Hret.
  apply bind_Ret_inv in Hret as ([] & s2 & Hadd & Hdel).
  apply for_each_addflags_spec in Hadd as (Hself2 & Hdst2 & Hrel2); [|done..].
  apply for_each_delflags_spec in Hdel as (Hself3 & Hdst3 & Hrel3); [|done..].
  intros uid m e Hpos Hm Hdst He.
  rewrite Hself3, Hself2 in Hm.
  apply Hdst3, Hdst2 in Hdst. rewrite Hdst1 in Hdst.
  specialize (Hkeep1 uid). rewrite Hm in Hkeep1.
  destruct (messagelist (self s) !! uid) as [m0|] eqn:Hm0; [|done].
  destruct Hkeep1 as [Hfl Hmk]. rewrite Hfl, Hmk.
  specialize (Hrel2 uid). specialize (Hrel3 uid).
  rewrite He in Hrel3. rewrite Hst1 in Hrel2.
  destruct (statusfolder s2 !! uid) as [e2|]; [|done].
  destruct (statusfolder s !! uid) as [e0|] eqn:He0; [|done].
  pose proof (foldl_scanned_in s (getmessageuidlist (messagelist (self s)))
                ([], [])) as Hin.
  assert (src_effective s uid = effective m0) as HE
    by (unfold src_effective; by rewrite Hm0).
  assert (status_flags s uid = flags e0) as HF
    by (unfold status_flags; by rewrite He0).
  assert (uid ∈ getmessageuidlist (messagelist (self s))) as Hlist
    by (apply elem_of_getmessageuidlist; by eexists).
  assert (eligible s uid) as Hel by (split; [lia|done]).
  apply set_eq. intros f. fold (effective m0).
  destruct (Hin f uid) as [Hadd Hdel]. simpl in Hadd, Hdel.
  rewrite in_flaglist_nil, HE, HF in Hadd, Hdel.
  rewrite Hrel3, Hrel2, Hadd, Hdel, !elem_of_difference.
  clear -Hlist Hel.
  destruct (decide (f ∈ flags e0)), (decide (f ∈ effective m0)); tauto.
Qed.

(** C1, as amended: after a full run outside dry-run mode in which the three
    passes return one after the other, every UID > 0 that the source, the
    destination and the status folder have has in the status folder exactly
    the flags that the source has for it united with the keywords of the
    source mapped through the keyword map of the destination, the unmapped
    keywords dropped. *)
Theorem full_sync_flags s0 s1 s2 s3 :
  abort_NOW_signal cfg = false ->
  dryrun cfg = false ->
  flagops_keep_uids cfg ->
  syncmessagesto_copy cfg s0 = Ret tt s1 ->
  syncmessagesto_delete cfg s1 = Ret tt s2 ->
  syncmessagesto_flags cfg s2 = Ret tt s3 ->
  syncmessagesto cfg s0 = Ret tt s3 /\ flags_agree cfg s3.
Proof.
  intros Habort Hdry Hkeep Hcopy Hdelete Hflags. split.
  - unfold syncmessagesto, syncmessagesto_passes. simpl. rewrite Habort.
    unfold bind, try_except. by rewrite Hcopy, Hdelete, Hflags.
  - by eapply syncmessagesto_flags_agree.
Qed.

(** C5, as amended: in syncmessagesto, a pass that raises an
    [OfflineImapError] of a severity up to FOLDER, FOLDER included, has its
    error logged and the loop goes on with the next pass; an error of a
    severity above FOLDER propagates and no later pass runs; and in the loop
    of Pass 1 an error of a severity up to MESSAGE that the copy of a message
    raises is logged by copymessageto and the loop goes on with the next
    message. *)
Theorem errors_by_severity :
  (forall (action : M st unit) rest s s1 severity,
     abort_NOW_signal cfg = false ->
     action s = Raise (OfflineImapError severity) s1 ->
     severity <= ERROR_FOLDER cfg ->
     run_passes cfg (action :: rest) s
     = run_passes cfg rest
         (add_log (Ui (error (OfflineImapError severity) "while syncing")) s1))
  /\
  (forall (action : M st unit) rest s s1 severity,
     abort_NOW_signal cfg = false ->
     action s = Raise (OfflineImapError severity) s1 ->
     ERROR_FOLDER cfg < severity ->
     run_passes cfg (action :: rest) s = Raise (OfflineImapError severity) s1)
  /\
  (forall num_to_copy num uid rest s s1 severity,
     abort_NOW_signal cfg = false ->
     uid <> 0 ->
     ~ (0 < uid /\ is_Some (messagelist (dstfolder s) !! uid)) ->
     copymessageto_try cfg uid
       (add_log (Ui (copyingmessage uid (num + 1) num_to_copy)) s)
     = Raise (OfflineImapError severity) s1 ->
     severity <= ERROR_MESSAGE cfg ->
     copy_loop cfg num_to_copy ((num, uid) :: rest) s
     = copy_loop cfg num_to_copy rest
         (add_log (Ui (error (OfflineImapError severity) "")) s1)).
Proof.
  split_and!.
  - intros action rest s s1 severity Habort Hraise Hsev. simpl.
    rewrite Habort.
    unfold bind at 1, try_except. rewrite Hraise. simpl.
    assert ((ERROR_FOLDER cfg <? severity) = false) as -> by lia.
    reflexivity.
  - intros action rest s s1 severity Habort Hraise Hsev. simpl.
    rewrite Habort.
    unfold bind at 1, try_except. rewrite Hraise. simpl.
    assert ((ERROR_FOLDER cfg <? severity) = true) as -> by lia.
    reflexivity.
  - intros num_to_copy num uid rest s s1 severity Habort Hne Hdst Hraise Hsev.
    simpl. rewrite Habort.
    unfold bind at 1, copy_iteration.
    destruct (Z.eqb_spec uid 0) as [?|_]; [done|].
    unfold bind at 1, gets.
    assert (((0 <? uid) && uidexists uid (messagelist (dstfolder s))) = false)
      as ->.
    { apply andb_false_iff. destruct (Z.ltb_spec 0 uid); [right|by left].
      apply uidexists_false. apply eq_None_not_Some. tauto. }
    unfold bind at 1, ui, modify.
    unfold copymessageto, bind at 1, ret, try_except. rewrite Hraise.
    simpl. assert ((ERROR_MESSAGE cfg <? severity) = false) as -> by lia.
    reflexivity.
Qed.

End facts.

End Base_facts.

(** ** Runs between two folders in memory *)

Module Scenarios.
Import Base Memory Base_facts.

Definition flagged : gset ascii := {["S"%char; "F"%char]}.

Lemma mem_savemessageflags_uids uid fl f f' u :
  mem_savemessageflags uid fl f = Ret tt f' ->
  is_Some (messagelist f' !! u) <-> is_Some (messagelist f !! u).
Proof.
  intros [= <-]. simpl. destruct (decide (u = uid)) as [->|Hne].
  - rewrite lookup_alter_eq. by rewrite fmap_is_Some.
  - by rewrite lookup_alter_ne.
Qed.

Lemma mem_addmessagesflags_uids uids fl f f' u :
  mem_addmessagesflags uids fl f = Ret tt f' ->
  is_Some (messagelist f' !! u) <-> is_Some (messagelist f !! u).
Proof.
  revert f. induction uids as [|uid uids IH]; intros f Hret.
  { by injection Hret as <-. }
  unfold mem_addmessagesflags in *. cbn [for_each] in Hret.
  apply bind_Ret_inv in Hret as ([] & f1 & Hstep & Hret).
  rewrite (IH _ Hret). clear IH Hret.
  apply bind_Ret_inv in Hstep as (b & f0 & [= <- <-] & Hstep).
  destruct (uidexists uid (messagelist f)); [|by injection Hstep as <-].
  apply bind_Ret_inv in Hstep as (old & f0 & Hget & Hsave).
  unfold mem_getmessageflags, lookup_field in Hget.
  destruct (messagelist f !! uid); [|done]. injection Hget as <- <-.
  by eapply mem_savemessageflags_uids.
Qed.

Lemma mem_deletemessagesflags_uids uids fl f f' u :
  mem_deletemessagesflags uids fl f = Ret tt f' ->
  is_Some (messagelist f' !! u) <-> is_Some (messagelist f !! u).
Proof.
  revert f. induction uids as [|uid uids IH]; intros f Hret.
  { by injection Hret as <-. }
  unfold mem_deletemessagesflags in *. cbn [for_each] in Hret.
  apply bind_Ret_inv in Hret as ([] & f1 & Hstep & Hret).
  rewrite (IH _ Hret). clear IH Hret.
  apply bind_Ret_inv in Hstep as (old & f0 & Hget & Hsave).
  unfold mem_getmessageflags, lookup_field in Hget.
  destruct (messagelist f !! uid); [|done]. injection Hget as <- <-.
  by eapply mem_savemessageflags_uids.
Qed.

Lemma memory_flagops_keep_uids dry del ign km :
  flagops_keep_uids (config dry del ign km).
Proof.
  intros uids fl f f' [Hadd|Hdel] uid.
  - by eapply mem_addmessagesflags_uids.
  - by eapply mem_deletemessagesflags_uids.
Qed.

(** *** Flag add: the source has gained a flag and carries keywords *)

Definition work_map : gmap string ascii := {["work"%string := "a"%char]}.

Definition keywords_config : env store store string :=
  config false true None (keywordmap_dict work_map).

Definition flag_add_start : state store store :=
  start [(5, Message flagged {["work"%string; "other"%string]} 0)]
        [(5, Message seen ∅ 0)]
        [(5, Message seen ∅ 0)].

Definition flag_add_copied : state store store :=
  final (syncmessagesto_copy keywords_config flag_add_start).
Definition flag_add_deleted : state store store :=
  final (syncmessagesto_delete keywords_config flag_add_copied).
Definition flag_add_end : state store store :=
  final (syncmessagesto_flags keywords_config flag_add_deleted).

Lemma full_sync_flags_witness :
  syncmessagesto keywords_config flag_add_start = Ret tt flag_add_end
  /\ flags_agree keywords_config flag_add_end.
Proof.
  apply (full_sync_flags keywords_config flag_add_start
           flag_add_copied flag_add_deleted flag_add_end).
  - reflexivity.
  - reflexivity.
  - apply memory_flagops_keep_uids.
  - vm_compute. reflexivity.
  - vm_compute. reflexivity.
  - vm_compute. reflexivity.
Defined.

Example flag_add_status :
  flags <$> statusfolder flag_add_end !! 5
  = Some {["S"%char; "F"%char; "a"%char]}.
Proof. vm_compute. reflexivity. Qed.

(** *** A UID that copy_ignoreUIDs holds back *)

Definition ignore_config : env store store string :=
  config false true (Some [5]) keywordmap_None.

Definition ignore_start : state store store :=
  start [(5, Message seen ∅ 0)] [(5, Message ∅ ∅ 0)] [].

Definition ignore_copied : state store store :=
  final (syncmessagesto_copy ignore_config ignore_start).
Definition ignore_deleted : state store store :=
  final (syncmessagesto_delete ignore_config ignore_copied).
Definition ignore_end : state store store :=
  final (syncmessagesto_flags ignore_config ignore_deleted).

(** C1 as stated fails: UID 5 is in the source and in the destination, the
    three passes return, and the status folder has no entry for UID 5, so
    no flag set to compare. *)
Lemma ignored_uid_not_in_status :
  syncmessagesto_copy ignore_config ignore_start = Ret tt ignore_copied /\
  syncmessagesto_delete ignore_config ignore_copied = Ret tt ignore_deleted /\
  syncmessagesto_flags ignore_config ignore_deleted = Ret tt ignore_end /\
  syncmessagesto ignore_config ignore_start = Ret tt ignore_end /\
  messagelist (self ignore_end) !! 5 = Some (Message seen ∅ 0) /\
  flags <$> messagelist (dstfolder ignore_end) !! 5 = Some seen /\
  statusfolder ignore_end !! 5 = None /\
  ~ flags_agree_on_src_and_dst ignore_config ignore_end.
Proof.
  split_and!; try (vm_compute; reflexivity).
  intros H. specialize (H 5 (Message seen ∅ 0)).
  assert (statusfolder ignore_end !! 5 = None) as Hnone
    by (vm_compute; reflexivity).
  rewrite Hnone in H. discriminate H.
  - lia.
  - vm_compute. reflexivity.
  - eexists. vm_compute. reflexivity.
Qed.

(** *** Deletions *)

Definition plain_config : env store store string :=
  config false true None keywordmap_None.

Definition deleted_start : state store store :=
  start [] [(7, Message seen ∅ 0)] [(7, Message seen ∅ 0)].

Definition keep_config : env store store string :=
  config false false None keywordmap_None.

(** C2 as stated fails: with [sync_deletes] disabled, an empty source, and
    UID 7 in the destination and in the status folder, the run ends with
    UID 7 still in the status folder. *)
Lemma delete_suppressed_keeps_status :
  syncmessagesto keep_config deleted_start
  = Ret tt (final (syncmessagesto keep_config deleted_start)) /\
  messagelist (self deleted_start) = ∅ /\
  map_to_list (messagelist (dstfolder
                 (final (syncmessagesto keep_config deleted_start))))
  = [(7, Message seen ∅ 0)] /\
  map_to_list (statusfolder (final (syncmessagesto keep_config deleted_start)))
  = [(7, Message seen ∅ 0)] /\
  statusfolder (final (syncmessagesto keep_config deleted_start)) <> ∅.
Proof.
  split_and!; try (vm_compute; reflexivity).
  intros H. apply (f_equal (fun ml => ml !! 7)) in H.
  vm_compute in H. discriminate H.
Qed.

Lemma delete_pass_status_witness :
  statusfolder (final (syncmessagesto_delete plain_config deleted_start)) !! 7
  = if decide (deletable plain_config deleted_start 7) then None
    else statusfolder deleted_start !! 7.
Proof. apply (delete_pass_status plain_config deleted_start 7). reflexivity. Defined.

Example delete_propagates :
  map_to_list (statusfolder (final (syncmessagesto plain_config deleted_start)))
  = [] /\
  map_to_list (messagelist (dstfolder
                 (final (syncmessagesto plain_config deleted_start))))
  = [].
Proof. split; vm_compute; reflexivity. Qed.

(** *** Errors *)

Definition unselectable_start : state store store :=
  start [(1, Message ∅ ∅ 0)] [] [(2, Message seen ∅ 0)].

(** C5 as stated fails: Pass 1 raises an error of severity FOLDER, the error
    is logged, and Pass 2 runs all the same: it deletes UID 2 from the status
    folder. *)
Lemma folder_error_does_not_stop_passes :
  (exists s1, syncmessagesto_copy (unselectable_config FOLDER) unselectable_start
              = Raise (OfflineImapError FOLDER) s1) /\
  syncmessagesto (unselectable_config FOLDER) unselectable_start
  = Ret tt (final (syncmessagesto (unselectable_config FOLDER) unselectable_start)) /\
  map forget (log (final (syncmessagesto (unselectable_config FOLDER)
                            unselectable_start)))
  = [inl (copyingmessage 1 1 1);
     inr (self_getmessage 1);
     inr (dst_savemessage 1 ∅ 0);
     inl (error (OfflineImapError FOLDER) "while syncing");
     inr (status_deletemessage 2)] /\
  is_Some (statusfolder unselectable_start !! 2) /\
  statusfolder (final (syncmessagesto (unselectable_config FOLDER)
                         unselectable_start)) !! 2 = None.
Proof.
  split_and!; try (vm_compute; reflexivity).
  - eexists. vm_compute. reflexivity.
  - eexists. vm_compute. reflexivity.
Qed.

(** A source whose message list names UID 1 and whose body is lost. *)
Definition lost_body_start : state store store :=
  State (Folder (list_to_map [(1, Message ∅ ∅ 0)]) (Store ∅ 1))
        (folder_of []) ∅ false [].

Lemma errors_by_severity_witness :
  run_passes (unselectable_config FOLDER)
    (syncmessagesto_copy (unselectable_config FOLDER)
       :: [syncmessagesto_delete (unselectable_config FOLDER)])
    unselectable_start
  = run_passes (unselectable_config FOLDER)
      [syncmessagesto_delete (unselectable_config FOLDER)]
      (add_log (Ui (error (OfflineImapError FOLDER) "while syncing"))
         (final (syncmessagesto_copy (unselectable_config FOLDER)
                   unselectable_start)))
  /\
  run_passes (unselectable_config REPO)
    (syncmessagesto_copy (unselectable_config REPO)
       :: [syncmessagesto_delete (unselectable_config REPO)])
    unselectable_start
  = Raise (OfflineImapError REPO)
      (final (syncmessagesto_copy (unselectable_config REPO) unselectable_start))
  /\
  copy_loop plain_config 1 ((0%nat, 1) :: []) lost_body_start
  = copy_loop plain_config 1 []
      (add_log (Ui (error (OfflineImapError MESSAGE) ""))
         (final (copymessageto_try plain_config 1
                   (add_log (Ui (copyingmessage 1 (0 + 1) 1)) lost_body_start)))).
Proof.
  split_and!.
  - apply (proj1 (errors_by_severity (unselectable_config FOLDER))).
    + reflexivity.
    + vm_compute. reflexivity.
    + vm_compute. discriminate.
  - apply (proj1 (proj2 (errors_by_severity (unselectable_config REPO)))).
    + reflexivity.
    + vm_compute. reflexivity.
    + vm_compute. reflexivity.
  - apply (proj2 (proj2 (errors_by_severity plain_config))).
    + reflexivity.
    + discriminate.
    + intros [_ [m Hm]]. vm_compute in Hm. discriminate Hm.
    + vm_compute. reflexivity.
    + vm_compute. discriminate.
Defined.

(** *** A message that the destination already has *)



(** *** A destination that cannot tell the new UID *)

Definition lost_uid_start : state store store :=
  start [(3, Message ∅ ∅ 0)] [] [].

Lemma copymessageto_unknown_uid_witness :
  let s' := final (copymessageto lost_uid_config 3 false lost_uid_start) in
  self s' = final (deletemessage (self_backend lost_uid_config) 3
                     (self lost_uid_start)) /\
  statusfolder s' = statusfolder lost_uid_start /\
  dstfolder s' = dstfolder lost_uid_start /\
  have_newmail s' = have_newmail lost_uid_start /\
  (exists snap, Call (self_deletemessage 3) snap ∈ log s') /\
  (forall c snap, Call c snap ∈ log s' -> is_status_call c = true ->
                  Call c snap ∈ log lost_uid_start).
Proof.
  apply (copymessageto_unknown_uid lost_uid_config 3 false (Message ∅ ∅ 0)
           (Some "body"%string) (self lost_uid_start)
           (dstfolder lost_uid_start) lost_uid_start).
  - vm_compute. reflexivity.
  - split; [reflexivity | vm_compute; reflexivity].
  - vm_compute. reflexivity.
Defined.

Example lost_uid_source_emptied :
  map_to_list (messagelist (self
     (final (copymessageto lost_uid_config 3 false lost_uid_start)))) = [].
Proof. vm_compute. reflexivity. Qed.

End Scenarios.

(** ** Properties of IMAP savemessage *)

Module IMAP_facts.
Import Base IMAP Base_facts.
Local Open Scope py_scope.

(** A connection to a folder that can only be read. *)
Definition readonly_connection : imapobj :=
  Imapobj [] select_readonly (fun _ _ _ => append_typ "OK") "OK"
          appenduid_none (fun _ _ => search_matching [])
          (fun _ => ("OK"%string, [])).

Definition empty_folder : imapfolder := Imapfolder ∅ 0 0 [].

Section facts.
Context {Msg : Type}.
Variable del_header : string -> Msg -> Msg.
Variable add_header : string -> string -> Msg -> Msg.
Variable as_bytes : Msg -> string.
Variable crc32 : string -> Z.
Variable randint : nat -> Z.
Variable imapobj_quote : string -> string.
Variable header_in : string -> string -> string -> bool.
Variable uid_after : string -> option Z.
Variable uid_before : string -> option Z.
Variable getmessageinternaldate : Msg -> Z -> option string.
Variable filterheaders : list string.
Variable imapserver : nat -> imapobj.
Variable uid_store : Z -> string -> store_response.
Variable ERROR_MESSAGE ERROR_REPO : Z.

Abbreviation save :=
  (savemessage del_header add_header as_bytes crc32 randint imapobj_quote
               header_in uid_after uid_before getmessageinternaldate
               filterheaders imapserver uid_store ERROR_MESSAGE ERROR_REPO).

(** On a folder that can only be read, savemessage returns the uid it was
    given, whatever its sign, after the SELECT and without any APPEND. *)
Lemma savemessage_readonly uid (msg : Msg) fl rtime f :
  ((0 <? uid) && uidexists uid (messagelist f)) = false ->
  select (imapserver (acquired f)) = select_readonly ->
  exists f', save uid msg fl rtime f = Ret uid f' /\
             messagelist f' = messagelist f /\
             sent f' = sent f ++ [SELECT].
Proof.
  intros Hnew Hro. unfold savemessage.
  unfold bind at 1, gets at 1. rewrite Hnew.
  unfold bind at 1, acquireconnection.
  unfold append_loop.
  destruct (bool_decide ("UIDPLUS"%string ∈ capabilities (imapserver (acquired f))));
    unfold bind, ret, generate_randomheader, send, modify; simpl;
    rewrite Hro; eexists; split_and!; reflexivity.
Qed.





End facts.

(** C4: for a folder that can only be read and the uid hint 5, which the
    folder does not have, savemessage sends SELECT, appends nothing, and
    returns 5: a value > 0 for a message that was not saved. *)
Theorem savemessage_readonly_positive (Msg : Type)
    (del_header : string -> Msg -> Msg)
    (add_header : string -> string -> Msg -> Msg)
    (as_bytes : Msg -> string) (crc32 : string -> Z) (randint : nat -> Z)
    (imapobj_quote : string -> string)
    (header_in : string -> string -> string -> bool)
    (uid_after uid_before : string -> option Z)
    (getmessageinternaldate : Msg -> Z -> option string)
    (filterheaders : list string) (uid_store : Z -> string -> store_response)
    (ERROR_MESSAGE ERROR_REPO : Z) (msg : Msg) (fl : gset ascii) (rtime : Z) :
  exists f',
    savemessage del_header add_header as_bytes crc32 randint imapobj_quote
                header_in uid_after uid_before getmessageinternaldate
                filterheaders (fun _ => readonly_connection) uid_store
                ERROR_MESSAGE ERROR_REPO 5 msg fl rtime empty_folder
    = Ret 5 f' /\
    0 < 5 /\
    messagelist f' = ∅ /\
    sent f' = [SELECT].
Proof.
  destruct (savemessage_readonly del_header add_header as_bytes crc32 randint
              imapobj_quote header_in uid_after uid_before
              getmessageinternaldate filterheaders
              (fun _ => readonly_connection) uid_store ERROR_MESSAGE ERROR_REPO
              5 msg fl rtime empty_folder) as (f' & Hret & Hml & Hsent);
    [reflexivity..|].
  exists f'. split_and!; [done | lia | done | done].
Qed.

(** *** A run against a server without UIDPLUS and without SEARCH

    Stand-ins for the library calls: a message is its list of headers, its
    bytes are the headers one after the other, and the checksum is the
    length. *)
Section run.
Local Open Scope string_scope.

Definition toy_del_header (h : string) (msg : list (string * string))
    : list (string * string) :=
  List.filter (fun p => negb (String.eqb p.1 h)) msg.
Definition toy_add_header (n v : string) (msg : list (string * string))
    : list (string * string) := (msg ++ [(n, v)])%list.
Definition toy_as_bytes (msg : list (string * string)) : string :=
  String.concat "" (map (fun p => p.1 ++ ": " ++ p.2 ++ ";") msg).
Definition toy_crc32 (b : string) : Z := Z.of_nat (String.length b).
Definition toy_randint (n : nat) : Z := 4711 + Z.of_nat n.
Definition toy_header_in (n v text : string) : bool :=
  String.eqb text (n ++ ": " ++ v ++ ";").
Definition toy_uid_after (b : string) : option Z :=
  if String.eqb b " UID 8)" then Some 8 else None.

(** The server lists no UIDPLUS, takes the message, finds nothing by
    SEARCH, and shows the new message with UID 8 when the headers are
    fetched. *)
Definition toy_connection : imapobj :=
  Imapobj ["IMAP4REV1"] select_ok (fun _ _ _ => append_typ "OK") "OK"
          appenduid_none (fun _ _ => search_matching [])
          (fun _ => ("OK", [item_tuple "2 (RFC822.HEADER" "X-OfflineIMAP: 12-4711;";
                            item_bytes " UID 8)"])).

Definition toy_folder : imapfolder :=
  Imapfolder {[3 := Message ∅ ∅ 0]} 0 0 [].

Definition toy_msg : list (string * string) := [("Subject", "hi")].

Definition toy_save :=
  savemessage toy_del_header toy_add_header toy_as_bytes toy_crc32 toy_randint
              (fun v => v) toy_header_in toy_uid_after (fun _ => None)
              (fun _ _ => None) [] (fun _ => toy_connection)
              (fun _ _ => store_no_result) 0 30.

Example toy_save_finds_uid :
  exists f', toy_save (-1) toy_msg ∅ 0 toy_folder = Ret 8 f' /\
             sent f' = [SELECT;
                        APPEND "()" None "Subject: hi;X-OfflineIMAP: 12-4711;";
                        CHECK;
                        UID_SEARCH_HEADER "X-OfflineIMAP" "12-4711";
                        UID_FETCH_HEADERS 4] /\
             is_Some (messagelist f' !! 8).
Proof.
  eexists. split_and!; [vm_compute; reflexivity | reflexivity |].
  eexists. vm_compute. reflexivity.
Qed.


End run.

End IMAP_facts.

(** ** offlineimap/imaputil.py: parsing and formatting *)

Module imaputil_parse.
Import imaputil.
Local Open Scope string_scope.

(** A [string] holds the characters of a Python [str] whose code points are
    below 256, one character per code point. *)

(** The exceptions that the functions of this module raise by themselves. *)
Inductive error := IndexError | ValueError.

Inductive result (A : Type) :=
| Val (a : A)
| Exc (e : error).
Arguments Val {A}.
Arguments Exc {A}.

#[global] Instance error_eq_dec : EqDecision error.
Proof. solve_decision. Defined.

#[global] Instance result_eq_dec {A} `{EqDecision A} : EqDecision (result A).
Proof. solve_decision. Defined.

(** [c.isspace()] for a code point below 256. *)
Definition isspace (c : ascii) : bool :=
  let n := nat_of_ascii c in
  ((9 <=? n) && (n <=? 13) || (28 <=? n) && (n <=? 32)
   || (n =? 133) || (n =? 160))%nat.

(** [s.lstrip()]. *)
Fixpoint lstrip (s : string) : string :=
  match s with
  | EmptyString => EmptyString
  | String c s' => if isspace c then lstrip s' else s
  end.

(** [s.rstrip()]. *)
Fixpoint rstrip (s : string) : string :=
  match s with
  | EmptyString => EmptyString
  | String c s' =>
      match rstrip s' with
      | EmptyString => if isspace c then EmptyString else String c EmptyString
      | r => String c r
      end
  end.

(** [s.strip()]. *)
Definition strip (s : string) : string := rstrip (lstrip s).

(** [s[n:]]. *)
Fixpoint slice_from (n : nat) (s : string) : string :=
  match n, s with
  | O, _ => s
  | S n', String _ s' => slice_from n' s'
  | S _, EmptyString => EmptyString
  end.

(** The first word of [s], which does not start with a space, and what
    follows it. *)
Fixpoint break_word (s : string) : string * string :=
  match s with
  | EmptyString => (EmptyString, EmptyString)
  | String c s' =>
      if isspace c then (EmptyString, s)
      else let p := break_word s' in (String c p.1, p.2)
  end.

(** [s.split()]: the words between runs of whitespace.  [word] is the word
    being read, if any. *)
Fixpoint split_from (word : option string) (s : string) : list string :=
  match s with
  | EmptyString => match word with Some w => [w] | None => [] end
  | String c s' =>
      if isspace c
      then match word with
           | Some w => w :: split_from None s'
           | None => split_from None s'
           end
      else split_from (Some (default EmptyString word ++ String c EmptyString)) s'
  end.

Definition split (s : string) : list string := split_from None s.

(** [str.split(s, maxsplit=1)]: the first word, and the rest without its
    leading whitespace when there is a rest. *)
Definition split_maxsplit1 (s : string) : list string :=
  match lstrip s with
  | EmptyString => []
  | s1 =>
      let p := break_word s1 in
      match lstrip p.2 with
      | EmptyString => [p.1]
      | rest => [p.1; rest]
      end
  end.

(** [s.split(sep)] for a separator of one character. *)
Fixpoint split_on (sep : ascii) (s : string) : list string :=
  match s with
  | EmptyString => [EmptyString]
  | String c s' =>
      if Ascii.eqb c sep then EmptyString :: split_on sep s'
      else match split_on sep s' with
           | w :: ws => String c w :: ws
           | [] => [String c EmptyString]
           end
  end.

(** [s.find(q)] for a character [q]: [None] is -1. *)
Fixpoint find (q : ascii) (s : string) : option nat :=
  match s with
  | EmptyString => None
  | String c s' => if Ascii.eqb c q then Some O else S <$> find q s'
  end.

(** *** __split_quoted: lines 229-263 *)

(** The loop [while i >= 0 and rest[i] == '\\'] that walks back from the
    quote: [before] is [rest[0:next_q]] read backwards. *)
Fixpoint walk_back (before : list ascii) (is_escaped : bool) : bool :=
  match before with
  | c :: before' =>
      if Ascii.eqb c (ascii_of_nat 92) then walk_back before' (negb is_escaped)
      else is_escaped
  | [] => is_escaped
  end.

(** The [while True] loop.  Every turn takes at least the quote off [rest]:
    [fuel] bounds the number of turns and [None] is a run that would need
    more. *)
Fixpoint split_quoted_loop (fuel : nat) (q : ascii) (quoted rest : string)
    : option (result (string * string)) :=
  match fuel with
  | O => None
  | S fuel' =>
      match find q rest with
      | None => Some (Exc ValueError)
      | Some next_q =>
          let is_escaped :=
            walk_back (rev (list_ascii_of_string (substring 0 next_q rest)))
                      false in
          let quoted := quoted ++ substring 0 (next_q + 1) rest in
          let rest := slice_from (next_q + 1) rest in
          if is_escaped then split_quoted_loop fuel' q quoted rest
          else Some (Val (quoted, lstrip rest))
      end
  end.

Definition split_quoted (s : string) : option (result (string * string)) :=
  match s with
  | EmptyString => Some (Val (EmptyString, EmptyString))
  | String q rest =>
      split_quoted_loop (S (String.length rest)) q (String q EmptyString) rest
  end.

(** *** imapsplit: lines 101-155, for an [imapstring] that is a [str] *)

(** The loop [while rparenc] that looks for the end of the group:
    [s] is [workstr[rpareni:]], the result is [workstr[1:rpareni]] and
    [workstr[rpareni:]] at the end of the loop, [None] when
    [workstr[rpareni]] raises IndexError. *)
Fixpoint find_group_end (rparenc : nat) (s : string)
    : option (string * string) :=
  match s with
  | EmptyString => None
  | String c s' =>
      let rparenc :=
        if Ascii.eqb c ")" then (rparenc - 1)%nat
        else if Ascii.eqb c "(" then (rparenc + 1)%nat
        else rparenc in
      match rparenc with
      | O => Some (String c EmptyString, s')
      | S _ =>
          match find_group_end rparenc s' with
          | Some (g, rest) => Some (String c g, rest)
          | None => None
          end
      end
  end.

(** The loop [while len(workstr)].  Every turn shortens [workstr]. *)
Fixpoint imapsplit_loop (fuel : nat) (workstr : string) (retval : list string)
    : option (result (list string)) :=
  match fuel with
  | O => None
  | S fuel' =>
      match workstr with
      | EmptyString => Some (Val retval)
      | String c after =>
          if Ascii.eqb c "(" then
            match find_group_end 1 after with
            | None => Some (Exc IndexError)
            | Some (g, rest) =>
                imapsplit_loop fuel' (lstrip rest) (retval ++ [String c g])%list
            end
          else if Ascii.eqb c (ascii_of_nat 34) then
            match split_quoted workstr with
            | None => None
            | Some (Exc e) => Some (Exc e)
            | Some (Val (quoted, rest)) =>
                imapsplit_loop fuel' rest (retval ++ [quoted])%list
            end
          else
            match split_maxsplit1 workstr with
            | [w; rest] => imapsplit_loop fuel' rest (retval ++ [w])%list
            | [w] => Some (Val (retval ++ [w])%list)
            | _ => Some (Val retval)
            end
      end
  end.

Definition imapsplit (imapstring : string) : option (result (list string)) :=
  let workstr := strip imapstring in
  imapsplit_loop (S (String.length workstr)) workstr [].

(** [flagsplit]: lines 64-74.  [s[0]] raises IndexError on the empty
    string. *)
Definition flagsplit (s : string) : option (result (list string)) :=
  match s with
  | EmptyString => Some (Exc IndexError)
  | String c _ =>
      if negb (Ascii.eqb c "(") || negb (endswith_char ")" s)
      then Some (Exc ValueError)
      else imapsplit (strip_ends s)
  end.

(** [__options2hash]: lines 77-89.  [l_list[counter + 1]] raises IndexError
    on a list of odd length. *)
Fixpoint options2hash_loop (l_list : list string) (retval : gmap string string)
    : result (gmap string string) :=
  match l_list with
  | [] => Val retval
  | [_] => Exc IndexError
  | k :: v :: rest => options2hash_loop rest (<[k := v]> retval)
  end.

Definition options2hash (l_list : list string) : result (gmap string string) :=
  options2hash_loop l_list ∅.

(** [flags2hash]: lines 92-98. *)
Definition flags2hash (flags : string)
    : option (result (gmap string string)) :=
  match flagsplit flags with
  | None => None
  | Some (Exc e) => Some (Exc e)
  | Some (Val l) => Some (options2hash l)
  end.

(** [flagsimap2maildir]: lines 165-173. *)
Definition flagsimap2maildir (flagstring : string) : gset ascii :=
  let imapflaglist := split (strip_ends flagstring) in
  foldl (fun (retval : gset ascii) p =>
           if bool_decide (p.1 ∈ imapflaglist) then retval ∪ {[p.2]}
           else retval)
        ∅ IMAP.flagmap.

(** [flagsimap2keywords]: lines 176-182. *)
Definition flagsimap2keywords (flagstring : string) : gset string :=
  let imapflagset : gset string := list_to_set (split (strip_ends flagstring)) in
  let serverflagset : gset string := list_to_set (map fst IMAP.flagmap) in
  imapflagset ∖ serverflagset.

(** *** Labels: lines 266-322 *)

Definition SPACE_SEPARATED_LABEL_HEADERS : list string := ["X-Label"; "Keywords"].

Definition label_separator (header : string) : ascii :=
  if bool_decide (header ∈ SPACE_SEPARATED_LABEL_HEADERS) then " "%char
  else ","%char.

(** [format_labels_string]: lines 266-281. *)
Definition format_labels_string (header : string) (labels : list string)
    : string :=
  join (String (label_separator header) EmptyString) labels.

(** [parse_labels_string]: lines 284-304. *)
Definition parse_labels_string (header labels_str : string) : gset string :=
  let labels := split_on (label_separator header) (strip labels_str) in
  list_to_set
    (map strip (List.filter (fun l => negb (String.eqb (strip l) "")) labels)).

(** [labels_from_header]: lines 307-322. *)
Definition labels_from_header (header_name : string)
    (header_value : option string) : gset string :=
  match header_value with
  | None => ∅
  | Some v => if String.eqb v "" then ∅ else parse_labels_string header_name v
  end.

(** [foldername_to_imapname]: lines 452-469. *)
Definition atom_specials : list ascii :=
  [" "%char; "/"%char; "("%char; ")"%char; "{"%char; "}"%char; ascii_of_nat 34].

Definition foldername_to_imapname (folder_name : string) : string :=
  if existsb (fun c => bool_decide (c ∈ atom_specials))
             (list_ascii_of_string folder_name)
  then quote folder_name
  else folder_name.

End imaputil_parse.

(** ** Properties of the parsers and formatters of imaputil *)

Module imaputil_parse_facts.
Import imaputil imaputil_facts imaputil_parse.
Local Open Scope string_scope.

(** *** Strings *)

Lemma append_cons c s t : String c s ++ t = String c (s ++ t).
Proof. reflexivity. Qed.

Lemma append_nil_l s : "" ++ s = s.
Proof. reflexivity. Qed.

Lemma append_nil_r s : s ++ "" = s.
Proof. induction s as [|c s IH]; [done|]. rewrite append_cons. by f_equal. Qed.

Lemma append_assoc s t u : (s ++ t) ++ u = s ++ t ++ u.
Proof.
  induction s as [|c s IH]; [done|]. rewrite !append_cons. by f_equal.
Qed.

(** The characters of [s] all satisfy [p]. *)
Fixpoint all_chars (p : ascii -> bool) (s : string) : bool :=
  match s with
  | EmptyString => true
  | String c s' => p c && all_chars p s'
  end.

Lemma all_chars_app p s t :
  all_chars p (s ++ t) = all_chars p s && all_chars p t.
Proof.
  induction s as [|c s IH]; [done|]. rewrite append_cons. cbn [all_chars].
  rewrite IH. by rewrite andb_assoc.
Qed.

(** [s] is empty or starts with a character that is not whitespace. *)
Definition starts_nonspace (s : string) : bool :=
  match s with
  | EmptyString => true
  | String c _ => negb (isspace c)
  end.

(** [s] is empty or ends with a character that is not whitespace. *)
Fixpoint ends_nonspace (s : string) : bool :=
  match s with
  | EmptyString => true
  | String c EmptyString => negb (isspace c)
  | String _ s' => ends_nonspace s'
  end.

Lemma lstrip_id s : starts_nonspace s = true -> lstrip s = s.
Proof. destruct s as [|c s]; simpl; [done|]. by intros ->%negb_true_iff. Qed.

Lemma rstrip_id s : ends_nonspace s = true -> rstrip s = s.
Proof.
  induction s as [|c s IH]; [done|].
  destruct s as [|d s].
  - simpl. by intros ->%negb_true_iff.
  - intros H. change (ends_nonspace (String d s) = true) in H.
    specialize (IH H). cbn [rstrip] in *. rewrite IH. done.
Qed.

Lemma strip_id s :
  starts_nonspace s = true -> ends_nonspace s = true -> strip s = s.
Proof. intros H1 H2. unfold strip. rewrite lstrip_id by done. by apply rstrip_id. Qed.

Lemma ends_nonspace_app s t :
  t <> "" -> ends_nonspace (s ++ t) = ends_nonspace t.
Proof.
  intros Ht. induction s as [|c s IH]; [done|].
  rewrite append_cons. cbn [ends_nonspace]. destruct (s ++ t) eqn:E; [|done].
  destruct s; [by rewrite append_nil_l in E|by rewrite append_cons in E].
Qed.

Lemma starts_nonspace_app s t :
  s <> "" -> starts_nonspace (s ++ t) = starts_nonspace s.
Proof. by destruct s. Qed.

Lemma all_chars_starts_nonspace s :
  all_chars (fun c => negb (isspace c)) s = true -> starts_nonspace s = true.
Proof. destruct s; simpl; [done|]. by intros [? _]%andb_true_iff. Qed.

Lemma all_chars_ends_nonspace s :
  all_chars (fun c => negb (isspace c)) s = true -> ends_nonspace s = true.
Proof.
  induction s as [|c s IH]; [done|]. simpl.
  intros [Hc Hs]%andb_true_iff. destruct s; [done|]. by apply IH.
Qed.

(** *** Folder names *)

Lemma has_dquote_all_chars s :
  has_dquote s = negb (all_chars (fun c => negb (Ascii.eqb c (ascii_of_nat 34))) s).
Proof.
  induction s as [|c s IH]; [done|]. simpl. rewrite IH.
  by destruct (Ascii.eqb c _), (all_chars _ s).
Qed.

(** X1: a folder name without a double quote survives the way to the server
    and back: [dequote], which [IMAPFolder.__init__] applies to the names it
    is given, undoes [foldername_to_imapname], whether the name had to be
    quoted or not. *)
Theorem dequote_foldername_to_imapname name :
  has_dquote name = false ->
  dequote (foldername_to_imapname name) = name.
Proof.
  intros Hq. unfold foldername_to_imapname.
  destruct (existsb _ _); [by apply dequote_quote_without_dquote|].
  unfold dequote. destruct name as [|c name]; [done|].
  simpl in Hq. apply orb_false_iff in Hq as [Hc _].
  cbn [startswith dquote]. rewrite Ascii.eqb_sym, Hc.
  by rewrite andb_false_r.
Qed.

Lemma dequote_foldername_to_imapname_witness :
  dequote (foldername_to_imapname "INBOX/Sent (old) items")
  = "INBOX/Sent (old) items".
Proof. by apply dequote_foldername_to_imapname. Defined.

(** *** Joining and splitting *)

Lemma join_cons_cons sep x y l :
  join sep (x :: y :: l) = x ++ sep ++ join sep (y :: l).
Proof. reflexivity. Qed.

Lemma join_starts_nonspace sep l :
  Forall (fun w => w <> "" /\ starts_nonspace w = true) l ->
  starts_nonspace (join sep l) = true.
Proof.
  destruct l as [|x [|y l]]; [done| |].
  - by intros [[_ ?] _]%Forall_cons.
  - intros [[Hne ?] _]%Forall_cons. rewrite join_cons_cons.
    by rewrite starts_nonspace_app.
Qed.

Lemma join_nonempty sep l :
  l <> [] -> Forall (fun w => w <> "") l -> join sep l <> "".
Proof.
  destruct l as [|x [|y l]]; [done| |]; intros _ [Hx _]%Forall_cons.
  - done.
  - rewrite join_cons_cons. destruct x; [done|]. by rewrite append_cons.
Qed.

Lemma join_ends_nonspace sep l :
  Forall (fun w => w <> "" /\ ends_nonspace w = true) l ->
  ends_nonspace (join sep l) = true.
Proof.
  induction l as [|x l IH]; [done|].
  intros [[Hne Hx] Hl]%Forall_cons. destruct l as [|y l]; [done|].
  rewrite join_cons_cons, <- append_assoc.
  rewrite ends_nonspace_app; [by apply IH|].
  apply join_nonempty; [done|]. eapply Forall_impl; [exact Hl|]. by intros ? [? _].
Qed.

Lemma split_on_plain sep w :
  all_chars (fun c => negb (Ascii.eqb c sep)) w = true ->
  split_on sep w = [w].
Proof.
  induction w as [|c w IH]; [done|]. cbn [all_chars split_on].
  intros [Hc Hw]%andb_true_iff. apply negb_true_iff in Hc. rewrite Hc.
  by rewrite IH.
Qed.

Lemma split_on_app sep w t :
  all_chars (fun c => negb (Ascii.eqb c sep)) w = true ->
  split_on sep (w ++ String sep t) = w :: split_on sep t.
Proof.
  induction w as [|c w IH].
  - intros _. rewrite append_nil_l. cbn [split_on]. by rewrite Ascii.eqb_refl.
  - cbn [all_chars]. intros [Hc Hw]%andb_true_iff. apply negb_true_iff in Hc.
    rewrite append_cons. cbn [split_on]. rewrite Hc. by rewrite IH.
Qed.

Lemma split_on_join sep l :
  l <> [] ->
  Forall (fun w => all_chars (fun c => negb (Ascii.eqb c sep)) w = true) l ->
  split_on sep (join (String sep "") l) = l.
Proof.
  induction l as [|x l IH]; [done|]. intros _ [Hx Hl]%Forall_cons.
  destruct l as [|y l]; [by apply split_on_plain|].
  rewrite join_cons_cons, append_cons, append_nil_l.
  rewrite split_on_app by done. by rewrite IH.
Qed.

(** *** Labels *)

(** A label that [format_labels_string] can write for the separator [sep]
    and [parse_labels_string] can read back: not empty, without the
    separator, without whitespace at its ends. *)
Definition is_label (sep : ascii) (l : string) : bool :=
  negb (String.eqb l "") && starts_nonspace l && ends_nonspace l
  && all_chars (fun c => negb (Ascii.eqb c sep)) l.

Lemma is_label_spec sep l :
  is_label sep l = true ->
  l <> "" /\ starts_nonspace l = true /\ ends_nonspace l = true /\
  all_chars (fun c => negb (Ascii.eqb c sep)) l = true.
Proof.
  unfold is_label. rewrite !andb_true_iff, negb_true_iff, String.eqb_neq.
  tauto.
Qed.

(** X2: [parse_labels_string] reads back the labels that
    [format_labels_string] wrote under the same header, as a set, when no
    label is empty, contains the separator of the header or has whitespace
    at its ends. *)
Theorem parse_format_labels header labels :
  forallb (is_label (label_separator header)) labels = true ->
  parse_labels_string header (format_labels_string header labels)
  = list_to_set labels.
Proof.
  intros Hall. unfold parse_labels_string, format_labels_string.
  set (sep := label_separator header) in *.
  assert (Forall (fun l => l <> "" /\ starts_nonspace l = true /\
                           ends_nonspace l = true /\
                           all_chars (fun c => negb (Ascii.eqb c sep)) l = true)
                 labels) as Hl.
  { apply Forall_forall. intros l Hin. apply is_label_spec.
    rewrite forallb_forall in Hall. apply Hall. by apply list_elem_of_In. }
  rewrite strip_id.
  2:{ apply join_starts_nonspace. eapply Forall_impl; [exact Hl|]. naive_solver. }
  2:{ apply join_ends_nonspace. eapply Forall_impl; [exact Hl|]. naive_solver. }
  destruct (decide (labels = [])) as [-> |Hne]; [done|].
  rewrite split_on_join; [|done|].
  2:{ eapply Forall_impl; [exact Hl|]. naive_solver. }
  f_equal. clear Hall Hne. induction Hl as [|l labels (Hn & Hs & He & _) _ IH]; [done|].
  cbn [List.filter]. rewrite (strip_id l) by done.
  apply String.eqb_neq in Hn. rewrite Hn. cbn [negb map].
  rewrite strip_id by done. by rewrite IH.
Qed.

Lemma parse_format_labels_witness :
  parse_labels_string "X-Keywords"
    (format_labels_string "X-Keywords" ["work"; "to do"; "a/b"])
  = list_to_set ["work"; "to do"; "a/b"].
Proof. by apply parse_format_labels. Defined.

(** *** Whitespace splitting *)

Definition nonspace (c : ascii) : bool := negb (isspace c).

Lemma split_from_word acc w tail :
  all_chars nonspace w = true ->
  split_from (Some acc) (w ++ tail) = split_from (Some (acc ++ w)) tail.
Proof.
  revert acc. induction w as [|c w IH]; intros acc.
  - intros _. by rewrite append_nil_l, append_nil_r.
  - cbn [all_chars]. intros [Hc Hw]%andb_true_iff. apply negb_true_iff in Hc.
    rewrite append_cons. cbn [split_from]. rewrite Hc. cbn [default].
    rewrite IH by done. by rewrite append_assoc.
Qed.

Lemma split_from_first w tail :
  w <> "" -> all_chars nonspace w = true ->
  split_from None (w ++ tail) = split_from (Some w) tail.
Proof.
  destruct w as [|c w]; [done|]. intros _. cbn [all_chars].
  intros [Hc Hw]%andb_true_iff. apply negb_true_iff in Hc.
  rewrite append_cons. cbn [split_from]. rewrite Hc. cbn [default].
  rewrite append_nil_l. by rewrite split_from_word.
Qed.

Lemma split_join l :
  Forall (fun w => w <> "" /\ all_chars nonspace w = true) l ->
  split (join " " l) = l.
Proof.
  unfold split. induction l as [|x l IH]; [done|].
  intros [[Hne Hx] Hl]%Forall_cons. destruct l as [|y l].
  - cbn [join]. rewrite <- (append_nil_r x) at 1.
    by rewrite split_from_first.
  - rewrite join_cons_cons, split_from_first by done.
    rewrite append_cons, append_nil_l. cbn [split_from].
    change (isspace " ") with true. cbn iota. by rewrite IH.
Qed.

Lemma strip_ends_wrapped c d s :
  strip_ends (String c "" ++ s ++ String d "") = s.
Proof.
  unfold strip_ends. rewrite append_cons, append_nil_l.
  cbn [String.length]. rewrite length_append. cbn [String.length].
  replace (S (String.length s + 1) - 2)%nat with (String.length s) by lia.
  cbn [substring]. apply substring_prefix.
Qed.

(** *** imapsplit on a list of tokens *)

(** What [imapsplit] tells apart: a word, a group in parentheses, a quoted
    string. *)
Inductive token :=
| Atom (w : string)
| Group (body : string)
| Quoted (s : string).

Definition render_token (t : token) : string :=
  match t with
  | Atom w => w
  | Group body => "(" ++ body ++ ")"
  | Quoted s => quote s
  end.

(** A word is not empty, has no whitespace and does not start with a
    parenthesis or a double quote. *)
Definition is_atom (w : string) : bool :=
  match w with
  | EmptyString => false
  | String c _ => negb (Ascii.eqb c "(") && negb (Ascii.eqb c (ascii_of_nat 34))
  end && all_chars nonspace w.

(** With [depth] parentheses open before it, [s] closes each of them and
    each one that it opens, and never one more. *)
Fixpoint balanced (depth : nat) (s : string) : bool :=
  match s with
  | EmptyString => (depth =? 0)%nat
  | String c s' =>
      if Ascii.eqb c ")" then
        match depth with
        | O => false
        | S depth' => balanced depth' s'
        end
      else if Ascii.eqb c "(" then balanced (S depth) s'
      else balanced depth s'
  end.

(** The parentheses inside the group are balanced, the quoted string is the
    [quote] of a string without a double quote. *)
Definition well_formed (t : token) : bool :=
  match t with
  | Atom w => is_atom w
  | Group body => balanced 0 body
  | Quoted s => negb (has_dquote s)
  end.

Lemma find_group_end_balanced n depth body tail :
  balanced depth body = true ->
  find_group_end (S (n + depth)) (body ++ String ")" tail)
  = match n with
    | O => Some (body ++ ")", tail)
    | S _ => match find_group_end n tail with
             | Some (g, rest) => Some (body ++ String ")" g, rest)
             | None => None
             end
    end.
Proof.
  revert depth. induction body as [|c body IH]; intros depth.
  - cbn [balanced]. intros ->%Nat.eqb_eq. rewrite Nat.add_0_r, !append_nil_l.
    cbn [find_group_end]. change (Ascii.eqb ")" ")") with true. cbn iota.
    replace (S n - 1)%nat with n by lia. destruct n; [done|].
    destruct (find_group_end (S n) tail) as [[g rest]|]; done.
  - cbn [balanced]. rewrite append_cons. cbn [find_group_end].
    destruct (Ascii.eqb c ")").
    + destruct depth as [|depth]; [done|]. intros Hb.
      replace (S (n + S depth) - 1)%nat with (S (n + depth)) by lia.
      rewrite IH by done. destruct n; [done|].
      destruct (find_group_end (S n) tail) as [[g rest]|]; done.
    + destruct (Ascii.eqb c "(").
      * intros Hb. replace (S (n + depth) + 1)%nat with (S (n + S depth)) by lia.
        rewrite IH by done. destruct n; [done|].
        destruct (find_group_end (S n) tail) as [[g rest]|]; done.
      * intros Hb. rewrite IH by done. destruct n; [done|].
        destruct (find_group_end (S n) tail) as [[g rest]|]; done.
Qed.

Lemma find_group_end_unclosed n s :
  all_chars (fun c => negb (Ascii.eqb c ")")) s = true ->
  find_group_end (S n) s = None.
Proof.
  revert n. induction s as [|c s IH]; intros n; [done|].
  cbn [all_chars]. intros [Hc Hs]%andb_true_iff. apply negb_true_iff in Hc.
  cbn [find_group_end]. rewrite Hc.
  destruct (Ascii.eqb c "(").
  - replace (S n + 1)%nat with (S (S n)) by lia. by rewrite IH.
  - by rewrite IH.
Qed.

Lemma find_plain q w tail :
  all_chars (fun c => negb (Ascii.eqb c q)) w = true ->
  find q (w ++ String q tail) = Some (String.length w).
Proof.
  induction w as [|c w IH].
  - intros _. rewrite append_nil_l. cbn [find]. by rewrite Ascii.eqb_refl.
  - cbn [all_chars]. intros [Hc Hw]%andb_true_iff. apply negb_true_iff in Hc.
    rewrite append_cons. cbn [find]. rewrite Hc, IH by done. done.
Qed.

Lemma find_none q s :
  find q s = None <-> all_chars (fun c => negb (Ascii.eqb c q)) s = true.
Proof.
  induction s as [|c s IH]; [done|]. cbn [find all_chars].
  destruct (Ascii.eqb c q); [done|]. cbn [negb andb]. rewrite <- IH.
  destruct (find q s); [|done]. done.
Qed.

Lemma substring_prefix_plus s c t :
  substring 0 (String.length s + 1) (s ++ String c t) = s ++ String c "".
Proof.
  induction s as [|a s IH].
  - rewrite !append_nil_l. cbn. by destruct t.
  - rewrite !append_cons. cbn [String.length Nat.add substring]. by rewrite IH.
Qed.

Lemma slice_from_app s c t :
  slice_from (String.length s + 1) (s ++ String c t) = t.
Proof.
  induction s as [|a s IH]; [done|]. rewrite append_cons.
  cbn [String.length Nat.add slice_from]. exact IH.
Qed.

(** Every backslash doubled, on lists. *)
Fixpoint double_backslashes_list (l : list ascii) : list ascii :=
  match l with
  | [] => []
  | c :: l' =>
      if Ascii.eqb c (ascii_of_nat 92)
      then c :: c :: double_backslashes_list l'
      else c :: double_backslashes_list l'
  end.

Lemma double_backslashes_as_list s :
  list_ascii_of_string (double_backslashes s)
  = double_backslashes_list (list_ascii_of_string s).
Proof.
  induction s as [|c s IH]; [done|]. cbn [double_backslashes list_ascii_of_string
    double_backslashes_list]. destruct (Ascii.eqb c _); cbn; by rewrite IH.
Qed.

Lemma double_backslashes_list_app l1 l2 :
  double_backslashes_list (l1 ++ l2)%list
  = (double_backslashes_list l1 ++ double_backslashes_list l2)%list.
Proof.
  induction l1 as [|c l1 IH]; [done|]. cbn.
  destruct (Ascii.eqb c _); cbn; by rewrite IH.
Qed.

(** Before the closing quote the doubled backslashes are even in number:
    the quote is not taken for an escaped one. *)
Lemma walk_back_doubled l b :
  walk_back (rev (double_backslashes_list l)) b = b.
Proof.
  revert b. induction l as [|c l IH] using rev_ind; intros b; [done|].
  rewrite double_backslashes_list_app, rev_app_distr. cbn [double_backslashes_list].
  destruct (Ascii.eqb c (ascii_of_nat 92)) eqn:Hc.
  - cbn [rev app walk_back]. rewrite Hc, IH. by destruct b.
  - cbn [rev app walk_back]. by rewrite Hc.
Qed.

Lemma quote_without_dquote s :
  has_dquote s = false ->
  quote s = String (ascii_of_nat 34) (double_backslashes s ++ dquote).
Proof.
  intros Hs. unfold quote. rewrite (replace_dquote_none _ _ Hs).
  by rewrite replace_backslash_double.
Qed.

Lemma split_quoted_quote s tail :
  has_dquote s = false ->
  split_quoted (quote s ++ tail) = Some (Val (quote s, lstrip tail)).
Proof.
  intros Hs. rewrite quote_without_dquote by done.
  rewrite append_cons, append_assoc. unfold dquote at 1. rewrite append_cons, append_nil_l.
  cbn [split_quoted split_quoted_loop].
  assert (all_chars (fun c => negb (Ascii.eqb c (ascii_of_nat 34)))
                    (double_backslashes s) = true) as Hd.
  { pose proof (has_dquote_all_chars (double_backslashes s)) as H.
    rewrite has_dquote_double, Hs in H. by destruct (all_chars _ _). }
  rewrite find_plain by done. rewrite substring_prefix.
  rewrite double_backslashes_as_list, walk_back_doubled.
  rewrite substring_prefix_plus, slice_from_app.
  by rewrite append_cons, append_nil_l.
Qed.

Lemma break_word_app w tail :
  all_chars nonspace w = true -> starts_nonspace tail = false \/ tail = "" ->
  break_word (w ++ tail) = (w, tail).
Proof.
  intros Hw Ht. induction w as [|c w IH].
  - rewrite append_nil_l. destruct Ht as [Ht| ->]; [|done].
    destruct tail as [|d tail]; [done|]. cbn in Ht |- *.
    apply negb_false_iff in Ht. by rewrite Ht.
  - cbn [all_chars] in Hw. apply andb_true_iff in Hw as [Hc Hw].
    apply negb_true_iff in Hc. rewrite append_cons. cbn [break_word].
    rewrite Hc, IH by done. done.
Qed.

Lemma split_maxsplit1_atom w tail :
  w <> "" -> all_chars nonspace w = true ->
  starts_nonspace tail = false \/ tail = "" ->
  split_maxsplit1 (w ++ tail)
  = match lstrip tail with
    | EmptyString => [w]
    | rest => [w; rest]
    end.
Proof.
  intros Hne Hw Ht. unfold split_maxsplit1.
  rewrite lstrip_id
    by (rewrite starts_nonspace_app; [by apply all_chars_starts_nonspace|done]).
  destruct w as [|c w]; [done|]. rewrite append_cons. cbn iota.
  rewrite <- append_cons, break_word_app by done. done.
Qed.

(** The tokens of a list, a space between two. *)
Definition joined (ts : list token) : string := join " " (map render_token ts).

(** What follows the first token of a list in [joined]. *)
Definition after_first (ts : list token) : string :=
  match ts with
  | [] => ""
  | _ => " " ++ joined ts
  end.

Lemma joined_cons t ts : joined (t :: ts) = render_token t ++ after_first ts.
Proof.
  unfold joined, after_first. destruct ts as [|t' ts].
  - cbn [map join]. by rewrite append_nil_r.
  - cbn [map]. by rewrite join_cons_cons.
Qed.

Lemma render_token_shape t :
  well_formed t = true ->
  render_token t <> "" /\ starts_nonspace (render_token t) = true /\
  ends_nonspace (render_token t) = true.
Proof.
  destruct t as [w|body|s]; cbn [well_formed render_token].
  - unfold is_atom. intros [Hc Hw]%andb_true_iff. split_and!.
    + by destruct w.
    + by apply all_chars_starts_nonspace.
    + by apply all_chars_ends_nonspace.
  - intros _. split_and!; [done|done|].
    rewrite <- append_assoc. by rewrite ends_nonspace_app.
  - intros _. unfold quote. split_and!; [done|done|].
    rewrite <- append_assoc. by rewrite ends_nonspace_app.
Qed.

Lemma joined_shape ts :
  forallb well_formed ts = true ->
  starts_nonspace (joined ts) = true /\ ends_nonspace (joined ts) = true /\
  (ts <> [] -> joined ts <> "").
Proof.
  intros Hall.
  assert (Forall (fun w => w <> "" /\ starts_nonspace w = true /\
                           ends_nonspace w = true) (map render_token ts)) as Hf.
  { apply Forall_fmap, Forall_forall. intros t Ht. apply render_token_shape.
    rewrite forallb_forall in Hall. apply Hall. by apply list_elem_of_In. }
  split_and!.
  - apply join_starts_nonspace. eapply Forall_impl; [exact Hf|]. naive_solver.
  - apply join_ends_nonspace. eapply Forall_impl; [exact Hf|]. naive_solver.
  - intros Hne. apply join_nonempty; [by destruct ts|].
    eapply Forall_impl; [exact Hf|]. naive_solver.
Qed.

Lemma lstrip_after_first ts :
  forallb well_formed ts = true -> lstrip (after_first ts) = joined ts.
Proof.
  intros Hall. destruct ts as [|t ts]; [done|].
  unfold after_first. rewrite append_cons, append_nil_l. cbn [lstrip].
  change (isspace " ") with true. cbn iota.
  apply lstrip_id. by apply joined_shape.
Qed.

Lemma after_first_space ts :
  starts_nonspace (after_first ts) = false \/ after_first ts = "".
Proof. destruct ts; [by right|by left]. Qed.

Lemma length_joined_cons t ts :
  well_formed t = true ->
  (String.length (joined ts) < String.length (joined (t :: ts)))%nat.
Proof.
  intros Ht. rewrite joined_cons, length_append.
  pose proof (render_token_shape t Ht) as [Hne _].
  assert (0 < String.length (render_token t))%nat
    by (destruct (render_token t); [done|cbn; lia]).
  destruct ts as [|t' ts]; [cbn; lia|].
  unfold after_first. rewrite length_append. cbn [String.length]. lia.
Qed.

Lemma imapsplit_loop_tokens ts fuel acc :
  forallb well_formed ts = true ->
  (String.length (joined ts) < fuel)%nat ->
  imapsplit_loop fuel (joined ts) acc
  = Some (Val (acc ++ map render_token ts)%list).
Proof.
  revert fuel acc. induction ts as [|t ts IH]; intros fuel acc Hall Hfuel.
  - destruct fuel; [lia|]. cbn. by rewrite app_nil_r.
  - cbn [forallb] in Hall. apply andb_true_iff in Hall as [Ht Hts].
    pose proof (length_joined_cons t ts Ht) as Hlen.
    destruct fuel as [|fuel]; [lia|].
    assert (imapsplit_loop fuel (joined ts) (acc ++ [render_token t])%list
            = Some (Val (acc ++ map render_token (t :: ts))%list)) as Hrec.
    { rewrite IH; [|done|lia]. by rewrite <- app_assoc. }
    rewrite joined_cons. destruct t as [w|body|s]; cbn [well_formed render_token] in *.
    + unfold is_atom in Ht. apply andb_true_iff in Ht as [Hc Hw].
      destruct w as [|c w]; [done|]. apply andb_true_iff in Hc as [Ho Hq].
      apply negb_true_iff in Ho, Hq.
      rewrite append_cons. cbn [imapsplit_loop]. rewrite Ho, Hq.
      rewrite <- append_cons.
      rewrite split_maxsplit1_atom by (done || apply after_first_space).
      rewrite lstrip_after_first by done.
      destruct ts as [|t' ts]; [done|].
      destruct (joined (t' :: ts)) eqn:E.
      { by apply (proj2 (proj2 (joined_shape (t' :: ts) Hts))) in E. }
      exact Hrec.
    + assert (("(" ++ body ++ ")") ++ after_first ts
              = String "(" (body ++ String ")" (after_first ts))) as ->
        by (by rewrite !append_assoc, !append_cons, !append_nil_l).
      cbn [imapsplit_loop]. change (Ascii.eqb "(" "(") with true. cbn iota.
      rewrite (find_group_end_balanced 0 0) by done.
      rewrite lstrip_after_first by done. exact Hrec.
    + apply negb_true_iff in Ht.
      pose proof (split_quoted_quote s (after_first ts) Ht) as Hq.
      rewrite quote_without_dquote in Hq |- * by done.
      rewrite append_cons in Hq |- *. cbn [imapsplit_loop].
      change (Ascii.eqb (ascii_of_nat 34) "(") with false. cbn iota.
      rewrite Ascii.eqb_refl. rewrite Hq.
      rewrite lstrip_after_first by done.
      rewrite <- quote_without_dquote by done. exact Hrec.
Qed.

Lemma imapsplit_joined ts :
  forallb well_formed ts = true ->
  imapsplit (joined ts) = Some (Val (map render_token ts)).
Proof.
  intros Hall. unfold imapsplit.
  pose proof (joined_shape ts Hall) as (Hs & He & _).
  rewrite strip_id by done. by rewrite imapsplit_loop_tokens by (done || lia).
Qed.

(** X5: [imapsplit] gives back the tokens of a line in which words, groups
    in parentheses and quoted strings are separated by one space: the words
    without whitespace and not starting with a parenthesis or a double
    quote, the groups with balanced parentheses inside, the quoted strings
    made by [quote] from strings without a double quote. *)
Theorem imapsplit_tokens (ts : list token) :
  forallb well_formed ts = true ->
  imapsplit (join " " (map render_token ts)) = Some (Val (map render_token ts)).
Proof. intros Hall. by apply imapsplit_joined. Qed.

Lemma imapsplit_tokens_witness :
  imapsplit (join " " (map render_token
    [Atom "12"; Group "UID 5 FLAGS (\Seen \Deleted)"; Quoted "INBOX\Sent mail"]))
  = Some (Val (map render_token
    [Atom "12"; Group "UID 5 FLAGS (\Seen \Deleted)"; Quoted "INBOX\Sent mail"])).
Proof. by apply imapsplit_tokens. Defined.

Lemma rstrip_cons_nonspace c s :
  isspace c = false -> rstrip (String c s) = String c (rstrip s).
Proof. intros Hc. cbn [rstrip]. rewrite Hc. by destruct (rstrip s). Qed.

Lemma all_chars_rstrip p s :
  all_chars p s = true -> all_chars p (rstrip s) = true.
Proof.
  induction s as [|c s IH]; [done|]. cbn [all_chars rstrip].
  intros [Hc Hs]%andb_true_iff. specialize (IH Hs).
  destruct (rstrip s) eqn:E.
  - destruct (isspace c); [done|]. cbn. by rewrite Hc.
  - change (p c && all_chars p (String a s0) = true). by rewrite Hc, IH.
Qed.

(** X6: a parenthesis that is never closed makes [imapsplit] raise
    IndexError, and a double quote that is never closed makes it raise
    ValueError. *)
Theorem imapsplit_unclosed (s : string) :
  (find ")" s = None -> imapsplit ("(" ++ s) = Some (Exc IndexError)) /\
  (find (ascii_of_nat 34) s = None ->
   imapsplit (dquote ++ s) = Some (Exc ValueError)).
Proof.
  split; intros Hs%find_none.
  - unfold imapsplit, strip. rewrite append_cons, append_nil_l.
    cbn [lstrip]. change (isspace "(") with false. cbn iota.
    rewrite rstrip_cons_nonspace by done. cbn [imapsplit_loop].
    change (Ascii.eqb "(" "(") with true. cbn iota.
    by rewrite find_group_end_unclosed by (by apply all_chars_rstrip).
  - unfold imapsplit, strip, dquote. rewrite append_cons, append_nil_l.
    cbn [lstrip]. change (isspace (ascii_of_nat 34)) with false. cbn iota.
    rewrite rstrip_cons_nonspace by done. cbn [imapsplit_loop].
    change (Ascii.eqb (ascii_of_nat 34) "(") with false. cbn iota.
    rewrite Ascii.eqb_refl. cbn [split_quoted split_quoted_loop].
    apply (all_chars_rstrip _ s), find_none in Hs. by rewrite Hs.
Qed.

Lemma imapsplit_unclosed_witness :
  imapsplit ("(" ++ "\Seen (Old") = Some (Exc IndexError) /\
  imapsplit (dquote ++ "INBOX.Sent") = Some (Exc ValueError).
Proof.
  split.
  - by apply (proj1 (imapsplit_unclosed "\Seen (Old")).
  - by apply (proj2 (imapsplit_unclosed "INBOX.Sent")).
Defined.

(** *** Termination of the loops *)

Lemma length_lstrip s : (String.length (lstrip s) <= String.length s)%nat.
Proof.
  induction s as [|c s IH]; [done|]. cbn [lstrip].
  destruct (isspace c); cbn [String.length]; lia.
Qed.

Lemma length_slice_from n s :
  String.length (slice_from n s) = (String.length s - n)%nat.
Proof.
  revert s. induction n as [|n IH]; intros s; [cbn; lia|].
  destruct s as [|c s]; [done|]. cbn [slice_from String.length]. rewrite IH. lia.
Qed.

Lemma find_Some_nonempty q s n : find q s = Some n -> s <> "".
Proof. by destruct s. Qed.

Lemma split_quoted_loop_enough fuel q quoted rest :
  (String.length rest < fuel)%nat ->
  exists r, split_quoted_loop fuel q quoted rest = Some r /\
    forall quoted' rest', r = Val (quoted', rest') ->
      (String.length rest' < String.length rest)%nat.
Proof.
  revert quoted rest. induction fuel as [|fuel IH]; intros quoted rest Hlen; [lia|].
  cbn [split_quoted_loop]. destruct (find q rest) as [next_q|] eqn:Hfind.
  2:{ eexists. split; [done|]. by intros ?? [=]. }
  pose proof (find_Some_nonempty _ _ _ Hfind) as Hne.
  assert (0 < String.length rest)%nat by (destruct rest; [done|cbn; lia]).
  pose proof (length_slice_from (next_q + 1) rest) as Hslice.
  destruct (walk_back _ false).
  - destruct (IH (quoted ++ substring 0 (next_q + 1) rest)%string
                 (slice_from (next_q + 1) rest)) as (r & Hr & Hshort); [lia|].
    exists r. split; [done|]. intros quoted' rest' ->.
    specialize (Hshort _ _ eq_refl). lia.
  - eexists. split; [done|]. intros ?? [= <- <-].
    pose proof (length_lstrip (slice_from (next_q + 1) rest)). lia.
Qed.

Lemma find_group_end_shorter n s g rest :
  find_group_end n s = Some (g, rest) ->
  (String.length rest < String.length s)%nat.
Proof.
  revert n g rest. induction s as [|c s IH]; intros n g rest; [done|].
  cbn [find_group_end String.length].
  destruct (if Ascii.eqb c ")" then _ else _) as [|m]; [intros [= _ <-]; lia|].
  destruct (find_group_end (S m) s) as [[g' rest']|] eqn:E; [|done].
  intros [= _ <-]. apply IH in E. lia.
Qed.

Lemma length_break_word s :
  (String.length (break_word s).1 + String.length (break_word s).2
   = String.length s)%nat.
Proof.
  induction s as [|c s IH]; [done|]. cbn [break_word].
  destruct (isspace c); cbn [fst snd String.length]; lia.
Qed.

Lemma lstrip_starts_nonspace s : starts_nonspace (lstrip s) = true.
Proof.
  induction s as [|c s IH]; [done|]. cbn [lstrip].
  destruct (isspace c) eqn:Hc; [done|]. cbn. by rewrite Hc.
Qed.

Lemma split_maxsplit1_shorter s w rest :
  split_maxsplit1 s = [w; rest] ->
  (String.length rest < String.length s)%nat.
Proof.
  unfold split_maxsplit1.
  pose proof (length_lstrip s) as Hl.
  pose proof (lstrip_starts_nonspace s) as Hs.
  destruct (lstrip s) as [|c s1] eqn:E; [done|].
  cbn in Hs. apply negb_true_iff in Hs.
  assert (break_word (String c s1)
          = (String c (break_word s1).1, (break_word s1).2)) as ->
    by (cbn [break_word]; by rewrite Hs).
  pose proof (length_break_word s1) as Hb.
  pose proof (length_lstrip (break_word s1).2) as Hl2.
  cbn [fst snd]. destruct (lstrip (break_word s1).2) as [|d r]; [done|].
  intros [= _ <-]. cbn [String.length] in *. lia.
Qed.

Lemma imapsplit_loop_enough fuel workstr retval :
  (String.length workstr < fuel)%nat ->
  is_Some (imapsplit_loop fuel workstr retval).
Proof.
  revert workstr retval.
  induction fuel as [|fuel IH]; intros workstr retval Hlen; [lia|].
  cbn [imapsplit_loop]. destruct workstr as [|c after]; [done|].
  cbn [String.length] in Hlen. destruct (Ascii.eqb c "(").
  - destruct (find_group_end 1 after) as [[g rest]|] eqn:E; [|done].
    apply find_group_end_shorter in E. apply IH.
    pose proof (length_lstrip rest). lia.
  - destruct (Ascii.eqb c (ascii_of_nat 34)).
    + cbn [split_quoted].
      destruct (split_quoted_loop_enough (S (String.length after)) c
                  (String c "") after) as (r & -> & Hshort); [lia|].
      destruct r as [[quoted rest]|e]; [|done].
      apply IH. specialize (Hshort _ _ eq_refl). lia.
    + destruct (split_maxsplit1 (String c after)) as [|w [|rest [|]]] eqn:E;
        try done.
      apply IH. apply split_maxsplit1_shorter in E. cbn [String.length] in E. lia.
Qed.

(** X8: the loops of [imapsplit] and [__split_quoted] end on every string:
    each turn shortens what is left to read, so that [imapsplit] returns a
    list or raises IndexError or ValueError after at most one turn per
    character. *)
Theorem imapsplit_terminates (imapstring : string) :
  (exists retval, imapsplit imapstring = Some (Val retval)) \/
  imapsplit imapstring = Some (Exc IndexError) \/
  imapsplit imapstring = Some (Exc ValueError).
Proof.
  unfold imapsplit.
  destruct (imapsplit_loop_enough (S (String.length (strip imapstring)))
              (strip imapstring) []) as [r Hr]; [lia|].
  rewrite Hr. destruct r as [retval|[]]; eauto.
Qed.

(** *** flags2hash *)

(** The tokens of a list of attributes: a name, its value, the next name. *)
Definition attribute_tokens (pairs : list (token * token)) : list token :=
  flat_map (fun p => [p.1; p.2]) pairs.

Definition attributes (pairs : list (token * token)) : list (string * string) :=
  map (fun p => (render_token p.1, render_token p.2)) pairs.

Lemma options2hash_loop_attributes pairs (retval : gmap string string) :
  options2hash_loop (map render_token (attribute_tokens pairs)) retval
  = Val (list_to_map (reverse (attributes pairs)) ∪ retval).
Proof.
  revert retval. induction pairs as [|[k v] pairs IH]; intros retval.
  - cbn. by rewrite (left_id_L ∅ (∪)).
  - cbn [attribute_tokens flat_map app map fst snd options2hash_loop].
    change (flat_map _ pairs) with (attribute_tokens pairs). rewrite IH.
    f_equal. cbn [attributes map fst snd]. rewrite reverse_cons.
    rewrite list_to_map_app. cbn [list_to_map foldr uncurry].
    rewrite <- (assoc_L (∪)). f_equal.
    rewrite insert_union_singleton_l. by rewrite insert_empty.
Qed.

Lemma options2hash_loop_odd pairs t (retval : gmap string string) :
  options2hash_loop (map render_token (attribute_tokens pairs ++ [t])) retval
  = Exc IndexError.
Proof.
  revert retval. induction pairs as [|[k v] pairs IH]; intros retval; [done|].
  cbn [attribute_tokens flat_map app map fst snd options2hash_loop].
  apply IH.
Qed.

Lemma flagsplit_tokens ts :
  forallb well_formed ts = true ->
  flagsplit ("(" ++ join " " (map render_token ts) ++ ")")
  = Some (Val (map render_token ts)).
Proof.
  intros Hall. unfold flagsplit. rewrite (strip_ends_wrapped "(" ")").
  change (join " " (map render_token ts)) with (joined ts).
  rewrite imapsplit_joined by done. unfold joined.
  rewrite append_cons, append_nil_l. change (Ascii.eqb "(" "(") with true.
  rewrite <- append_cons. by rewrite endswith_char_app.
Qed.

Lemma forallb_attribute_tokens pairs :
  forallb (fun p => well_formed p.1 && well_formed p.2) pairs = true ->
  forallb well_formed (attribute_tokens pairs) = true.
Proof.
  induction pairs as [|[k v] pairs IH]; [done|]. cbn [forallb fst snd].
  intros [[Hk Hv]%andb_true_iff H]%andb_true_iff.
  change (attribute_tokens ((k, v) :: pairs))
    with (k :: v :: attribute_tokens pairs).
  cbn [forallb]. by rewrite Hk, Hv, IH.
Qed.

(** X7: [flags2hash] maps every name of a list of attributes in
    parentheses to the value that follows it, the last one when a name comes
    twice; names and values are tokens as [imapsplit] reads them.  A name
    without a value at the end of the list makes it raise IndexError. *)
Theorem flags2hash_attributes (pairs : list (token * token)) (t : token) :
  forallb (fun p => well_formed p.1 && well_formed p.2) pairs = true ->
  well_formed t = true ->
  flags2hash ("(" ++ join " " (map render_token (attribute_tokens pairs)) ++ ")")
  = Some (Val (list_to_map (reverse (attributes pairs)))) /\
  flags2hash ("(" ++ join " " (map render_token (attribute_tokens pairs ++ [t]))
              ++ ")")
  = Some (Exc IndexError).
Proof.
  intros Hall%forallb_attribute_tokens Ht. unfold flags2hash. split.
  - rewrite flagsplit_tokens by done. unfold options2hash.
    rewrite options2hash_loop_attributes. by rewrite (right_id_L ∅ (∪)).
  - rewrite flagsplit_tokens.
    + unfold options2hash. by rewrite options2hash_loop_odd.
    + rewrite forallb_app, Hall. cbn. by rewrite Ht.
Qed.

Lemma flags2hash_attributes_witness :
  flags2hash ("(" ++ join " " (map render_token (attribute_tokens
    [(Atom "FLAGS", Group "\Seen Old"); (Atom "UID", Atom "4807")])) ++ ")")
  = Some (Val (list_to_map (reverse (attributes
    [(Atom "FLAGS", Group "\Seen Old"); (Atom "UID", Atom "4807")])))) /\
  flags2hash ("(" ++ join " " (map render_token (attribute_tokens
    [(Atom "FLAGS", Group "\Seen Old"); (Atom "UID", Atom "4807")]
    ++ [Atom "INTERNALDATE"])) ++ ")")
  = Some (Exc IndexError).
Proof. by apply flags2hash_attributes. Defined.

(** *** Flags *)

Lemma elem_of_flagsimap2maildir flagstring x :
  x ∈ flagsimap2maildir flagstring <->
  exists p, p ∈ IMAP.flagmap /\ p.1 ∈ split (strip_ends flagstring) /\ p.2 = x.
Proof.
  unfold flagsimap2maildir. generalize (split (strip_ends flagstring)).
  intros tokens.
  assert (forall (l : list (string * ascii)) (acc : gset ascii),
    x ∈ foldl (fun (retval : gset ascii) p =>
                 if bool_decide (p.1 ∈ tokens) then retval ∪ {[p.2]}
                 else retval) acc l <->
    x ∈ acc \/ exists p, p ∈ l /\ p.1 ∈ tokens /\ p.2 = x) as Hfold.
  { induction l as [|p l IH]; intros acc; cbn [foldl].
    - split; [by left|]. intros [?|(p & Hp & _)]; [done|]. by apply elem_of_nil in Hp.
    - rewrite IH. case_bool_decide as Hp.
      + rewrite elem_of_union, elem_of_singleton. split.
        * intros [[?| ->]|(q & ? & ? & ?)]; [by left| |].
          -- right. exists p. split_and!; [by left|done..].
          -- right. exists q. split_and!; [by right|done..].
        * intros [?|(q & [-> |?]%elem_of_cons & ? & ?)]; [by left; left| |].
          -- left. by right.
          -- right. by exists q.
      + split.
        * intros [?|(q & ? & ? & ?)]; [by left|].
          right. exists q. split_and!; [by right|done..].
        * intros [?|(q & [-> |?]%elem_of_cons & ? & ?)]; [by left|done|].
          right. by exists q. }
  rewrite Hfold. split; [|by right]. intros [H|H]; [|done]. set_solver.
Qed.

(** The five letters that have an IMAP flag. *)
Definition flagletters : gset ascii := list_to_set (map snd IMAP.flagmap).

Lemma flagsmaildir2imap_tokens fl :
  split (strip_ends (IMAP.flagsmaildir2imap fl))
  = merge_sort String.le
      (map fst (List.filter (fun p => bool_decide (p.2 ∈ fl)) IMAP.flagmap)).
Proof.
  unfold IMAP.flagsmaildir2imap.
  rewrite (strip_ends_wrapped "(" ")"). apply split_join.
  apply Forall_forall. intros w Hw.
  rewrite merge_sort_Permutation in Hw.
  apply list_elem_of_fmap in Hw as (p & -> & Hp).
  apply list_elem_of_In, filter_In in Hp as [Hp _]. apply list_elem_of_In in Hp.
  unfold IMAP.flagmap in Hp.
  repeat (apply elem_of_cons in Hp as [-> |Hp]; [by split|]).
  by apply elem_of_nil in Hp.
Qed.

(** X3: the flags that [flagsmaildir2imap] writes are the flags that
    [flagsimap2maildir] reads back: of a set of letters, the five that have
    an IMAP flag survive, the others are dropped, and no keyword appears. *)
Theorem flags_maildir_imap_maildir (fl : gset ascii) :
  flagsimap2maildir (IMAP.flagsmaildir2imap fl) = fl ∩ flagletters /\
  flagsimap2keywords (IMAP.flagsmaildir2imap fl) = ∅.
Proof.
  split.
  - apply set_eq. intros x. rewrite elem_of_flagsimap2maildir.
    rewrite flagsmaildir2imap_tokens. setoid_rewrite merge_sort_Permutation.
    rewrite elem_of_intersection. unfold flagletters.
    rewrite elem_of_list_to_set. split.
    + intros (p & Hp & Hin & <-).
      apply list_elem_of_fmap in Hin as (q & Heq & Hq).
      apply list_elem_of_In, filter_In in Hq as [Hq Hfl].
      apply list_elem_of_In in Hq. apply bool_decide_eq_true in Hfl.
      assert (p = q) as ->.
      { unfold IMAP.flagmap in Hp, Hq.
        repeat (apply elem_of_cons in Hp as [-> |Hp]);
          try (by apply elem_of_nil in Hp);
          repeat (apply elem_of_cons in Hq as [-> |Hq]);
          try (by apply elem_of_nil in Hq); done. }
      split; [done|]. apply list_elem_of_fmap. by exists q.
    + intros [Hfl (p & -> & Hp)%list_elem_of_fmap].
      exists p. split_and!; [done| |done].
      apply list_elem_of_fmap. exists p. split; [done|].
      apply list_elem_of_In, filter_In. split; [by apply list_elem_of_In|].
      by apply bool_decide_eq_true.
  - unfold flagsimap2keywords. rewrite flagsmaildir2imap_tokens.
    apply set_eq. intros w. rewrite elem_of_difference, !elem_of_list_to_set.
    rewrite merge_sort_Permutation. split; [|set_solver].
    intros [(p & -> & Hp)%list_elem_of_fmap Hnot]. destruct Hnot.
    apply list_elem_of_fmap. exists p. split; [done|].
    apply list_elem_of_In, filter_In in Hp as [Hp _]. by apply list_elem_of_In.
Qed.

(** *** uid_sequence *)

(** X4: the result of [uid_sequence] does not depend on the order of the
    UIDs it is given. *)
Theorem uid_sequence_permutation (l l' : list Z) :
  l ≡ₚ l' -> uid_sequence l = uid_sequence l'.
Proof.
  intros Hp. unfold uid_sequence.
  assert (sorted l = sorted l') as Hs.
  { unfold sorted. apply (StronglySorted_unique Z.le).
    - apply (StronglySorted_merge_sort _).
    - apply (StronglySorted_merge_sort _).
    - by rewrite !merge_sort_Permutation. }
  rewrite Hs. destruct l, l'; try done.
  all: first [by apply Permutation_nil_cons in Hp
             |symmetry in Hp; by apply Permutation_nil_cons in Hp].
Qed.

Lemma uid_sequence_permutation_witness :
  uid_sequence [7; 3; 1; 2] = uid_sequence [1; 2; 3; 7].
Proof.
  apply uid_sequence_permutation.
  apply (Permutation_cons_app [1; 2; 3] []), (Permutation_cons_app [1; 2] []).
  reflexivity.
Defined.

End imaputil_parse_facts.

(** ** offlineimap/imaputil.py: the codec imap4-utf-7 *)

Module imaputil_utf7.
Local Open Scope N_scope.

(** A [str] is the list of its code points, a [bytes] object the list of
    its bytes. *)
Abbreviation str := (list N).
Abbreviation bytes := (list N).

Section codec.
(** The library calls: [s.encode('utf-16be')], [binascii.b2a_base64],
    [binascii.a2b_base64] and [str(b, 'utf-16be')].  [None] is a call that
    raises. *)
Variable utf_16be_encode : str -> option bytes.
Variable b2a_base64 : bytes -> bytes.
Variable a2b_base64 : str -> option bytes.
Variable utf_16be_decode : bytes -> option str.

(** [b.rstrip(chars)]. *)
Fixpoint rstrip_bytes (chars : list N) (b : bytes) : bytes :=
  match b with
  | [] => []
  | c :: b' =>
      match rstrip_bytes chars b' with
      | [] => if bool_decide (c ∈ chars) then [] else [c]
      | r => c :: r
      end
  end.

(** [b.replace(old, new)] for single bytes. *)
Definition replace_byte (old new : N) (b : bytes) : bytes :=
  map (fun c => if c =? old then new else c) b.

(** [modified_base64]: lines 374-376.  10 is the newline, 61 [=], 47 [/]
    and 44 the comma. *)
Definition modified_base64 (s : str) : option bytes :=
  s ← utf_16be_encode s;
  Some (replace_byte 47 44 (rstrip_bytes [10; 61] (b2a_base64 s))).

(** [modified_unbase64]: lines 401-403. *)
Definition modified_unbase64 (s : str) : option str :=
  b ← a2b_base64 (replace_byte 44 47 s ++ [61; 61; 61]);
  utf_16be_decode b.

(** [doB64]: lines 379-382.  [r] is the list of byte strings joined; 38 is
    [&] and 45 [-]. *)
Definition doB64 (_in : str) (r : bytes) : option (str * bytes) :=
  match _in with
  | [] => Some ([], r)
  | _ => b ← modified_base64 _in; Some ([], r ++ [38] ++ b ++ [45])
  end.

(** The loop of [utf7m_encode] and the lines that follow it: 389-397. *)
Fixpoint utf7m_encode_loop (text : str) (_in : str) (r : bytes)
    : option bytes :=
  match text with
  | [] => p ← doB64 _in r; Some p.2
  | c :: text' =>
      if (32 <=? c) && (c <=? 126) then
        p ← doB64 _in r;
        utf7m_encode_loop text' p.1 (p.2 ++ (if c =? 38 then [38; 45] else [c]))
      else utf7m_encode_loop text' (_in ++ [c]) r
  end.

(** [utf7m_encode]: lines 385-397. *)
Definition utf7m_encode (text : str) : option (bytes * nat) :=
  r ← utf7m_encode_loop text [] [];
  Some (r, length text).

(** The loop of [utf7m_decode] and the lines that follow it: 409-426. *)
Fixpoint utf7m_decode_loop (binary : bytes) (decode : str) (r : str)
    : option str :=
  match binary with
  | [] =>
      match decode with
      | [] => Some r
      | _ => s ← modified_unbase64 (tail decode); Some (r ++ s)
      end
  | c :: binary' =>
      if (c =? 38) && bool_decide (decode = []) then
        utf7m_decode_loop binary' (decode ++ [38]) r
      else if (c =? 45) && negb (bool_decide (decode = [])) then
        if (length decode =? 1)%nat then utf7m_decode_loop binary' [] (r ++ [38])
        else s ← modified_unbase64 (tail decode);
             utf7m_decode_loop binary' [] (r ++ s)
      else if negb (bool_decide (decode = [])) then
        utf7m_decode_loop binary' (decode ++ [c]) r
      else utf7m_decode_loop binary' decode (r ++ [c])
  end.

(** [utf7m_decode]: lines 406-426. *)
Definition utf7m_decode (binary : bytes) : option (str * nat) :=
  r ← utf7m_decode_loop binary [] [];
  Some (r, length binary).

End codec.

End imaputil_utf7.

(** ** Properties of the codec *)

Module imaputil_utf7_facts.
Import imaputil_utf7.
Local Open Scope N_scope.

(** A character that [utf7m_encode] writes as it is, or as [&-]. *)
Definition printable (c : N) : bool := (32 <=? c) && (c <=? 126).

Section facts.
Variable utf_16be_encode : str -> option bytes.
Variable b2a_base64 : bytes -> bytes.
Variable a2b_base64 : str -> option bytes.
Variable utf_16be_decode : bytes -> option str.

Abbreviation enc64 := (modified_base64 utf_16be_encode b2a_base64).
Abbreviation dec64 := (modified_unbase64 a2b_base64 utf_16be_decode).
Abbreviation encode_loop := (utf7m_encode_loop utf_16be_encode b2a_base64).
Abbreviation decode_loop := (utf7m_decode_loop a2b_base64 utf_16be_decode).

(** What the codec needs from the library: on a run of characters that are
    not printable ASCII, [modified_unbase64] undoes [modified_base64], whose
    result is not empty and has no [-]. *)
Definition base64_round_trip : Prop :=
  forall s b, s <> [] -> forallb (fun c => negb (printable c)) s = true ->
    enc64 s = Some b ->
    dec64 b = Some s /\ b <> [] /\ 45 ∉ b.

Hypothesis library : base64_round_trip.

Lemma decode_body b rest d r :
  45 ∉ b -> d <> [] ->
  decode_loop (b ++ rest) d r = decode_loop rest (d ++ b) r.
Proof.
  revert d. induction b as [|c b IH]; intros d Hb Hd.
  - by rewrite app_nil_r.
  - apply not_elem_of_cons in Hb as [Hc Hb].
    cbn [app utf7m_decode_loop].
    rewrite (bool_decide_eq_false_2 (d = [])) by done.
    rewrite andb_false_r.
    assert ((c =? 45) = false) as -> by (apply N.eqb_neq; congruence).
    cbn [andb negb]. rewrite IH; [|done|by destruct d].
    by rewrite <- app_assoc.
Qed.

Lemma decode_run s b rest r :
  s <> [] -> forallb (fun c => negb (printable c)) s = true ->
  enc64 s = Some b ->
  decode_loop (38 :: b ++ 45 :: rest) [] r = decode_loop rest [] (r ++ s).
Proof.
  intros Hs Hnp Hb. destruct (library s b Hs Hnp Hb) as (Hdec & Hne & Hdash).
  cbn [utf7m_decode_loop]. rewrite bool_decide_eq_true_2 by done.
  cbn [N.eqb Pos.eqb andb app]. rewrite decode_body by done.
  cbn [utf7m_decode_loop app].
  rewrite (bool_decide_eq_false_2 (38 :: b = [])) by done.
  cbn [N.eqb Pos.eqb andb negb tail length].
  destruct b as [|c b]; [done|]. cbn [length Nat.eqb].
  by rewrite Hdec.
Qed.

Lemma decode_printable c rest r :
  printable c = true ->
  decode_loop ((if c =? 38 then [38; 45] else [c]) ++ rest) [] r
  = decode_loop rest [] (r ++ [c]).
Proof.
  intros Hc. destruct (N.eqb_spec c 38) as [->|Hne].
  - cbn [app utf7m_decode_loop]. rewrite bool_decide_eq_true_2 by done.
    cbn [N.eqb Pos.eqb andb app].
    by rewrite (bool_decide_eq_false_2 ([38] = [])) by done.
  - cbn [app utf7m_decode_loop]. rewrite bool_decide_eq_true_2 by done.
    apply N.eqb_neq in Hne. rewrite Hne. cbn [andb negb].
    by rewrite andb_false_r.
Qed.

Lemma encode_loop_decode text _in r out :
  forallb (fun c => negb (printable c)) _in = true ->
  encode_loop text _in r = Some out ->
  exists written, out = r ++ written /\
    forall r0, decode_loop written [] r0 = Some (r0 ++ _in ++ text).
Proof.
  revert _in r. induction text as [|c text IH]; intros _in r Hin.
  - cbn [utf7m_encode_loop]. unfold doB64. destruct _in as [|i _in].
    + intros [= <-]. exists []. split; [by rewrite app_nil_r|].
      intros r0. cbn. by rewrite app_nil_r.
    + destruct (enc64 (i :: _in)) as [b|] eqn:Hb; [|done].
      intros [= <-]. exists ([38] ++ b ++ [45]). split; [done|].
      intros r0. cbn [app]. rewrite (decode_run (i :: _in)) by done.
      cbn. by rewrite app_nil_r.
  - cbn [utf7m_encode_loop]. fold (printable c).
    destruct (printable c) eqn:Hc.
    + unfold doB64. destruct _in as [|i _in].
      * cbn [mbind option_bind fst snd]. intros Henc.
        apply IH in Henc as (written & -> & Hdec); [|done].
        exists ((if c =? 38 then [38; 45] else [c]) ++ written).
        split; [by rewrite <- app_assoc|].
        intros r0. rewrite decode_printable by done. rewrite Hdec.
        by rewrite <- app_assoc.
      * destruct (enc64 (i :: _in)) as [b|] eqn:Hb; [|done].
        cbn [mbind option_bind fst snd]. intros Henc.
        apply IH in Henc as (written & -> & Hdec); [|done].
        exists (([38] ++ b ++ [45])
                ++ (if c =? 38 then [38; 45] else [c]) ++ written).
        split; [by rewrite <- !app_assoc|].
        intros r0. cbn [app]. rewrite <- app_assoc. cbn [app].
        rewrite (decode_run (i :: _in)) by done.
        rewrite decode_printable by done. rewrite Hdec.
        rewrite <- !app_assoc. done.
    + intros Henc. apply IH in Henc as (written & -> & Hdec).
      * exists written. split; [done|]. intros r0. rewrite Hdec.
        by rewrite <- !app_assoc.
      * rewrite forallb_app, Hin. cbn. by rewrite Hc.
Qed.

End facts.

(** X9: [utf7m_decode] undoes [utf7m_encode]: the bytes that encode a text
    decode to that text, whenever on runs of characters outside printable
    ASCII [modified_unbase64] undoes [modified_base64] and the latter writes
    no [-].  Both functions return the length of their input as second
    component. *)
Theorem utf7m_decode_encode (utf_16be_encode : str -> option bytes)
    (b2a_base64 : bytes -> bytes) (a2b_base64 : str -> option bytes)
    (utf_16be_decode : bytes -> option str) (text : str) (binary : bytes)
    (n : nat) :
  base64_round_trip utf_16be_encode b2a_base64 a2b_base64 utf_16be_decode ->
  utf7m_encode utf_16be_encode b2a_base64 text = Some (binary, n) ->
  n = length text /\
  utf7m_decode a2b_base64 utf_16be_decode binary = Some (text, length binary).
Proof.
  intros Hlib. unfold utf7m_encode, utf7m_decode.
  destruct (utf7m_encode_loop _ _ text [] []) as [out|] eqn:Henc; [|done].
  intros [= <- <-]. split; [done|].
  apply (encode_loop_decode _ _ _ _ Hlib) in Henc as (written & -> & Hdec);
    [|done].
  cbn [app]. by rewrite Hdec.
Qed.

(** A stand-in for the library, on which the round trip runs: UTF-16 is the
    identity and base 64 shifts every byte by 256, with the padding and the
    newline that [modified_base64] strips. *)
Definition shift_encode (s : str) : option bytes := Some s.
Definition shift_b2a (b : bytes) : bytes := map (N.add 256) b ++ [61; 10].
Definition shift_a2b (s : str) : option bytes :=
  Some (map (fun c => c - 256) (List.filter (fun c => 256 <=? c) s)).
Definition shift_decode (b : bytes) : option str := Some b.

Lemma rstrip_bytes_shift b :
  rstrip_bytes [10; 61] (map (N.add 256) b ++ [61; 10]) = map (N.add 256) b.
Proof.
  induction b as [|c b IH]; [done|]. cbn [map app rstrip_bytes].
  rewrite IH. destruct (map (N.add 256) b) eqn:E.
  - rewrite bool_decide_eq_false_2; [done|]. set_unfold. lia.
  - done.
Qed.

Lemma shift_round_trip :
  base64_round_trip shift_encode shift_b2a shift_a2b shift_decode.
Proof.
  intros s b Hs _. unfold modified_base64, modified_unbase64, shift_encode,
    shift_b2a, shift_a2b, shift_decode. cbn [mbind option_bind].
  rewrite rstrip_bytes_shift. intros [= <-]. split_and!.
  - f_equal. clear Hs. induction s as [|c s IH]; [done|].
    cbn [map replace_byte app List.filter].
    assert ((256 + c =? 47) = false) as -> by (apply N.eqb_neq; lia).
    assert ((256 + c =? 44) = false) as -> by (apply N.eqb_neq; lia).
    assert ((256 <=? 256 + c) = true) as -> by (apply N.leb_le; lia).
    cbn [map]. f_equal; [lia|]. exact IH.
  - by destruct s.
  - unfold replace_byte. rewrite list_elem_of_fmap. intros (c & Hc & Hin).
    apply list_elem_of_fmap in Hin as (d & -> & _).
    destruct (N.eqb_spec (256 + d) 47); lia.
Qed.

Lemma utf7m_decode_encode_witness :
  3%nat = length [38; 228; 65] /\
  utf7m_decode shift_a2b shift_decode [38; 45; 38; 484; 45; 65]
  = Some ([38; 228; 65], length [38; 45; 38; 484; 45; 65]).
Proof.
  apply (utf7m_decode_encode shift_encode shift_b2a shift_a2b shift_decode).
  - exact shift_round_trip.
  - reflexivity.
Defined.

End imaputil_utf7_facts.

(** ** What a run calls, and what it leaves alone *)

Module Base_run_facts.
Import Base Base_facts.
Local Open Scope py_scope.

Section facts.
Context {Hs Hd B : Type}.
Variable cfg : env Hs Hd B.

Abbreviation st := (state Hs Hd).
Implicit Types (s : st) (uid : Z) (m : message).

(** *** Relations that every step of an operation keeps *)

(** [R] relates the state before an operation to the state it leaves,
    whether it returns or raises. *)
Definition preserves {A} (R : st -> st -> Prop) (op : M st A) : Prop :=
  forall s, R s (final (op s)).

Section preserves.
Context (R : st -> st -> Prop) `{!PreOrder R}.

Lemma preserves_ret {A} (a : A) : preserves R (ret a).
Proof. intros s. reflexivity. Qed.

Lemma preserves_raise {A} e : preserves R (raise (A := A) e).
Proof. intros s. reflexivity. Qed.

Lemma preserves_gets {A} (f : st -> A) : preserves R (gets f).
Proof. intros s. reflexivity. Qed.

Lemma preserves_bind {A C} (op : M st A) (k : A -> M st C) :
  preserves R op -> (forall a, preserves R (k a)) -> preserves R (bind op k).
Proof.
  intros Hop Hk s. unfold bind. specialize (Hop s).
  destruct (op s) as [a s1|e s1]; [|done].
  etrans; [exact Hop|apply Hk].
Qed.

Lemma preserves_try_except {A} (op : M st A) (h : exn -> M st A) :
  preserves R op -> (forall e, preserves R (h e)) ->
  preserves R (try_except op h).
Proof.
  intros Hop Hh s. unfold try_except. specialize (Hop s).
  destruct (op s) as [a s1|e s1]; [done|].
  etrans; [exact Hop|apply Hh].
Qed.

Lemma preserves_for_each {X} (l : list X) (body : X -> M st unit) :
  (forall x, x ∈ l -> preserves R (body x)) -> preserves R (for_each l body).
Proof.
  induction l as [|x l IH]; intros Hbody; [apply preserves_ret|].
  cbn [for_each]. apply preserves_bind; [apply Hbody; by left|].
  intros _. apply IH. intros y Hy. apply Hbody. by right.
Qed.

Lemma preserves_for_fold {X A} (l : list X) (acc : A) (body : A -> X -> M st A) :
  (forall a x, x ∈ l -> preserves R (body a x)) ->
  preserves R (for_fold l acc body).
Proof.
  revert acc. induction l as [|x l IH]; intros acc Hbody; [apply preserves_ret|].
  cbn [for_fold]. apply preserves_bind; [apply Hbody; by left|].
  intros a. apply IH. intros b y Hy. apply Hbody. by right.
Qed.

Lemma preserves_lookup_field {A} (ml : st -> gmap Z message)
    (field : message -> A) uid :
  preserves R (lookup_field ml field uid).
Proof. intros s. unfold lookup_field. by destruct (ml s !! uid). Qed.

Lemma preserves_modify (f : st -> st) :
  (forall s, R s (f s)) -> preserves R (modify f).
Proof. intros Hf s. apply Hf. Qed.

End preserves.

(** *** Operations that call no method of a folder *)

(** [s'] is [s] up to the flag [have_newmail], the keywords that the source
    holds in memory and messages of the user interface in the log: no
    method was called on the destination, on the status folder or on the
    backend of the source. *)
Definition quiet s s' : Prop :=
  dstfolder s' = dstfolder s /\
  statusfolder s' = statusfolder s /\
  backend_state (self s') = backend_state (self s) /\
  (forall u, match messagelist (self s) !! u, messagelist (self s') !! u with
             | Some m, Some m' => flags m' = flags m /\ time m' = time m
             | None, None => True
             | _, _ => False
             end) /\
  exists us, log s' = log s ++ map Ui us.

#[local] Instance quiet_preorder : PreOrder quiet.
Proof.
  split.
  - intros s. split_and!; try done.
    + intros u. by destruct (_ !! u).
    + exists []. by rewrite app_nil_r.
  - intros s1 s2 s3 (Hd1 & Hs1 & Hb1 & Hm1 & us1 & Hl1)
                    (Hd2 & Hs2 & Hb2 & Hm2 & us2 & Hl2).
    split_and!; try congruence.
    + intros u. specialize (Hm1 u). specialize (Hm2 u).
      destruct (messagelist (self s1) !! u), (messagelist (self s2) !! u),
        (messagelist (self s3) !! u); try done.
      destruct Hm1, Hm2. split; congruence.
    + exists (us1 ++ us2). rewrite Hl2, Hl1, map_app. by rewrite app_assoc.
Qed.

Lemma quiet_ui u s : quiet s (add_log (Ui u) s).
Proof.
  split_and!; try done.
  - intros v. by destruct (_ !! v).
  - by exists [u].
Qed.

Lemma quiet_set_have_newmail b s : quiet s (set_have_newmail b s).
Proof.
  split_and!; try done.
  - intros v. by destruct (_ !! v).
  - exists []. by rewrite app_nil_r.
Qed.

Lemma quiet_self_set_keywords uid kw s : quiet s (self_set_keywords uid kw s).
Proof.
  split_and!; try done.
  - intros v. cbn. destruct (decide (v = uid)) as [->|Hne].
    + rewrite lookup_alter_eq. by destruct (_ !! uid).
    + rewrite lookup_alter_ne by done. by destruct (_ !! v).
  - exists []. by rewrite app_nil_r.
Qed.

Lemma preserves_quiet_ui u : preserves quiet (ui u).
Proof. apply preserves_modify, quiet_ui. Qed.

Lemma combine_flags_and_keywords_quiet uid :
  preserves quiet (combine_flags_and_keywords cfg uid).
Proof.
  unfold combine_flags_and_keywords.
  apply (preserves_bind _); [apply (preserves_lookup_field _)|]. intros selfflags.
  destruct (getkeywordmap cfg); try apply (preserves_ret _).
  destruct (getmessagekeywords_implemented _); [|apply (preserves_ret _)].
  apply (preserves_bind _); [apply (preserves_lookup_field _)|]. intros kw.
  apply (preserves_bind _); [|intros; apply (preserves_ret _)].
  case_bool_decide; [apply (preserves_ret _)|].
  apply (preserves_bind _);
    [apply (preserves_modify _), quiet_self_set_keywords|]. intros _.
  apply (preserves_bind _); [apply preserves_quiet_ui|]. intros _.
  apply (preserves_ret _).
Qed.

Lemma flags_iteration_quiet lists uid :
  preserves quiet (flags_iteration cfg lists uid).
Proof.
  unfold flags_iteration.
  apply (preserves_bind _); [apply (preserves_gets _)|]. intros dst_has.
  destruct (_ || _); [apply (preserves_ret _)|].
  apply (preserves_bind _); [apply (preserves_gets _)|]. intros status_has.
  apply (preserves_bind _).
  { destruct status_has; [apply (preserves_lookup_field _)|apply (preserves_ret _)]. }
  intros statusflags.
  apply (preserves_bind _); [apply combine_flags_and_keywords_quiet|].
  intros selfflags. apply (preserves_ret _).
Qed.

(** The scan of Pass 3 returns, and calls nothing. *)
Lemma scan_quiet s :
  exists lists s1,
    for_fold (getmessageuidlist (messagelist (self s))) ([], [])
             (flags_iteration cfg) s = Ret lists s1 /\
    lists = foldl (scanned cfg s) ([], [])
                  (getmessageuidlist (messagelist (self s))) /\
    quiet s s1.
Proof.
  destruct (scan_spec cfg (getmessageuidlist (messagelist (self s))) ([], []) s)
    as (s1 & Hscan & _).
  { intros u. by rewrite elem_of_getmessageuidlist. }
  eexists _, s1. split_and!; [exact Hscan|done|].
  pose proof (preserves_for_fold quiet
    (getmessageuidlist (messagelist (self s))) ([], []) (flags_iteration cfg)
    (fun a x _ => flags_iteration_quiet a x) s) as Hq.
  by rewrite Hscan in Hq.
Qed.

Lemma apply_addflags_dryrun item s :
  dryrun cfg = true ->
  apply_addflags cfg item s = Ret tt (add_log (Ui (addingflags item.2 item.1)) s).
Proof. intros Hdry. unfold apply_addflags. by rewrite Hdry. Qed.

Lemma apply_delflags_dryrun item s :
  dryrun cfg = true ->
  apply_delflags cfg item s
  = Ret tt (add_log (Ui (deletingflags item.2 item.1)) s).
Proof. intros Hdry. unfold apply_delflags. by rewrite Hdry. Qed.

Lemma for_each_dryrun_addflags d s :
  dryrun cfg = true ->
  exists s', for_each d (apply_addflags cfg) s = Ret tt s' /\ quiet s s'.
Proof.
  intros Hdry. revert s. induction d as [|item d IH]; intros s.
  - exists s. split; [done|reflexivity].
  - destruct (IH (add_log (Ui (addingflags item.2 item.1)) s)) as (s' & Hret & Hq).
    exists s'. split.
    + cbn [for_each]. by rewrite (bind_Ret _ _ _ _ _ (apply_addflags_dryrun item s Hdry)).
    + etrans; [apply quiet_ui|exact Hq].
Qed.

Lemma for_each_dryrun_delflags d s :
  dryrun cfg = true ->
  exists s', for_each d (apply_delflags cfg) s = Ret tt s' /\ quiet s s'.
Proof.
  intros Hdry. revert s. induction d as [|item d IH]; intros s.
  - exists s. split; [done|reflexivity].
  - destruct (IH (add_log (Ui (deletingflags item.2 item.1)) s)) as (s' & Hret & Hq).
    exists s'. split.
    + cbn [for_each]. by rewrite (bind_Ret _ _ _ _ _ (apply_delflags_dryrun item s Hdry)).
    + etrans; [apply quiet_ui|exact Hq].
Qed.

Lemma syncmessagesto_flags_dryrun s :
  dryrun cfg = true ->
  exists s', syncmessagesto_flags cfg s = Ret tt s' /\ quiet s s'.
Proof.
  intros Hdry. destruct (scan_quiet s) as (lists & s1 & Hscan & _ & Hq1).
  destruct (for_each_dryrun_addflags lists.1 s1 Hdry) as (s2 & Hadd & Hq2).
  destruct (for_each_dryrun_delflags lists.2 s2 Hdry) as (s3 & Hdel & Hq3).
  exists s3. split.
  - unfold syncmessagesto_flags. unfold bind at 1, gets at 1.
    rewrite (bind_Ret _ _ _ _ _ Hscan). by rewrite (bind_Ret _ _ _ _ _ Hadd).
  - etrans; [exact Hq1|]. etrans; [exact Hq2|exact Hq3].
Qed.

(** The state with some messages of the user interface added to the log. *)
Definition with_ui (us : list ui_call) s : st :=
  State (self s) (dstfolder s) (statusfolder s) (have_newmail s)
        (log s ++ map Ui us).

Lemma quiet_with_ui us s : quiet s (with_ui us s).
Proof.
  split_and!; try done.
  - intros v. by destruct (_ !! v).
  - by exists us.
Qed.

Lemma with_ui_nil s : with_ui [] s = s.
Proof. destruct s. unfold with_ui. cbn. by rewrite app_nil_r. Qed.

Lemma with_ui_app us1 us2 s : with_ui us2 (with_ui us1 s) = with_ui (us1 ++ us2) s.
Proof. unfold with_ui. cbn. by rewrite map_app, app_assoc. Qed.

Lemma list_remove_spec x (l : list Z) :
  NoDup l -> x ∈ l ->
  NoDup (list_remove x l) /\ forall u, u ∈ list_remove x l <-> u ∈ l /\ u <> x.
Proof.
  induction l as [|y l IH]; [by intros _ ?%elem_of_nil|].
  intros [Hy Hl]%NoDup_cons Hin. cbn [list_remove].
  destruct (Z.eqb_spec x y) as [->|Hne].
  - split; [done|]. intros u. rewrite elem_of_cons. split.
    + intros Hu. split; [by right|]. by intros ->.
    + by intros [[?|?] ?].
  - apply elem_of_cons in Hin as [?|Hin]; [done|].
    destruct (IH Hl Hin) as [Hnd Hmem]. split.
    + apply NoDup_cons. split; [|done]. rewrite Hmem. tauto.
    + intros u. rewrite !elem_of_cons, Hmem. split; [|tauto].
      intros [->|[? ?]]; [|tauto]. split; [by left|congruence].
Qed.

(** The loop that honors [copy_ignoreUIDs] takes the ignored UIDs off the
    list and calls nothing but the user interface. *)
Lemma honor_copy_ignore_spec copylist s :
  NoDup copylist ->
  exists copylist' us,
    honor_copy_ignore cfg copylist s = Ret copylist' (with_ui us s) /\
    forall u, u ∈ copylist'
              <-> u ∈ copylist /\ u ∉ default [] (copy_ignoreUIDs cfg).
Proof.
  unfold honor_copy_ignore. destruct (copy_ignoreUIDs cfg) as [ignore|].
  2:{ intros _. exists copylist, []. rewrite with_ui_nil. split; [done|].
      intros u. cbn. rewrite elem_of_nil. tauto. }
  change (default [] (Some ignore)) with ignore. revert copylist s.
  induction ignore as [|x ignore IH]; intros copylist s Hnd.
  { exists copylist, []. rewrite with_ui_nil. split; [done|].
    intros u. rewrite elem_of_nil. tauto. }
  cbn [for_fold]. case_bool_decide as Hx.
  - destruct (list_remove_spec x copylist Hnd Hx) as [Hnd' Hmem].
    destruct (IH (list_remove x copylist) (add_log (Ui (ignorecopyingmessage x)) s)
                 Hnd') as (l' & us & Hfold & Hl').
    exists l', (ignorecopyingmessage x :: us). split.
    + rewrite (bind_Ret _ _ s (list_remove x copylist)
                 (add_log (Ui (ignorecopyingmessage x)) s)) by done.
      rewrite Hfold. f_equal. unfold with_ui, add_log. cbn.
      by rewrite <- app_assoc.
    + intros u. rewrite Hl', Hmem, elem_of_cons. naive_solver.
  - destruct (IH copylist s Hnd) as (l' & us & Hfold & Hl').
    exists l', us. split.
    + by rewrite (bind_Ret _ _ s copylist s).
    + intros u. rewrite Hl', elem_of_cons. naive_solver.
Qed.

Lemma NoDup_getmessageuidlist (ml : gmap Z message) :
  NoDup (getmessageuidlist ml).
Proof.
  unfold getmessageuidlist. rewrite merge_sort_Permutation. apply NoDup_elements.
Qed.

Lemma NoDup_initial_copylist s : NoDup (initial_copylist s).
Proof.
  unfold initial_copylist. apply NoDup_ListNoDup, List.NoDup_filter.
  apply NoDup_ListNoDup, NoDup_getmessageuidlist.
Qed.

Lemma elem_of_initial_copylist s u :
  u ∈ initial_copylist s
  <-> is_Some (messagelist (self s) !! u) /\ statusfolder s !! u = None.
Proof.
  unfold initial_copylist.
  rewrite elem_of_List_filter, elem_of_getmessageuidlist.
  by rewrite negb_true_iff, uidexists_false.
Qed.

Lemma syncmessagesto_copy_dryrun s :
  dryrun cfg = true ->
  exists s', syncmessagesto_copy cfg s = Ret tt s' /\ quiet s s'.
Proof.
  intros Hdry. unfold syncmessagesto_copy.
  unfold bind at 1, modify at 1. unfold bind at 1, gets at 1.
  set (s1 := set_have_newmail false s).
  destruct (honor_copy_ignore_spec (initial_copylist s1) s1
              (NoDup_initial_copylist s1)) as (l' & us & Hhonor & Hl').
  rewrite (bind_Ret _ _ _ _ _ Hhonor). rewrite Hdry, andb_true_r.
  assert (quiet s (with_ui us s1)) as Hq.
  { etrans; [apply (quiet_set_have_newmail false)|apply quiet_with_ui]. }
  destruct (initial_copylist s1) as [|u l] eqn:E.
  - assert (l' = []) as ->.
    { destruct l' as [|u l']; [done|].
      destruct (proj1 (Hl' u)) as [Hin _]; [by left|]. by apply elem_of_nil in Hin. }
    cbn. exists (with_ui us s1). by split.
  - cbn. eexists. split; [done|]. etrans; [exact Hq|apply quiet_ui].
Qed.

Lemma syncmessagesto_delete_dryrun s :
  dryrun cfg = true ->
  exists s', syncmessagesto_delete cfg s = Ret tt s' /\ quiet s s'.
Proof.
  intros Hdry. unfold syncmessagesto_delete.
  unfold bind at 1, gets at 1. rewrite Hdry. cbn [negb].
  destruct (0 <? length _)%nat; [|exists s; split; [done|reflexivity]].
  unfold bind at 1, ret at 1. unfold bind at 1, gets at 1.
  destruct (0 <? length _)%nat; [|exists s; split; [done|reflexivity]].
  eexists. split; [done|]. apply quiet_ui.
Qed.

Lemma run_passes_quiet passes s :
  Forall (fun pass : M st unit =>
            forall s, exists s', pass s = Ret tt s' /\ quiet s s') passes ->
  exists s', run_passes cfg passes s = Ret tt s' /\ quiet s s'.
Proof.
  intros Hall. revert s. induction Hall as [|pass passes Hpass _ IH]; intros s.
  { exists s. split; [done|reflexivity]. }
  cbn [run_passes]. destruct (abort_NOW_signal cfg).
  { exists s. split; [done|reflexivity]. }
  destruct (Hpass s) as (s1 & Hret & Hq1). destruct (IH s1) as (s2 & Hrest & Hq2).
  exists s2. split; [|by etrans].
  unfold bind, try_except. by rewrite Hret.
Qed.

(** X10: a dry run of [syncmessagesto] always returns, and calls no method
    of the destination, of the status folder or of the backend of the source:
    both folders are as before, the flags and times that the source has in
    memory too, and the log has only gained messages of the user
    interface. *)
Theorem dryrun_calls_nothing s :
  dryrun cfg = true ->
  exists s', syncmessagesto cfg s = Ret tt s' /\ quiet s s'.
Proof.
  intros Hdry. apply run_passes_quiet. repeat constructor.
  - intros s0. by apply syncmessagesto_copy_dryrun.
  - intros s0. by apply syncmessagesto_delete_dryrun.
  - intros s0. by apply syncmessagesto_flags_dryrun.
Qed.

(** *** A source, a destination and a status folder that agree *)

(** The status folder knows every message of the source, the source has
    every message with a UID >= 0 that the status folder knows, and the
    status folder has, for the messages that the destination has too, the
    flags of the source united with its mapped keywords. *)
Definition in_sync s : Prop :=
  (forall uid, is_Some (messagelist (self s) !! uid) ->
               is_Some (statusfolder s !! uid)) /\
  (forall uid, 0 <= uid -> is_Some (statusfolder s !! uid) ->
               is_Some (messagelist (self s) !! uid)) /\
  (forall uid m e, 0 <= uid ->
     messagelist (self s) !! uid = Some m ->
     is_Some (messagelist (dstfolder s) !! uid) ->
     statusfolder s !! uid = Some e ->
     flags e = flags m ∪ mapped_keywords cfg m).

Lemma honor_copy_ignore_nil s : honor_copy_ignore cfg [] s = Ret [] s.
Proof.
  unfold honor_copy_ignore. destruct (copy_ignoreUIDs cfg) as [ignore|]; [|done].
  revert s. induction ignore as [|u ignore IH]; intros s; [done|].
  cbn [for_fold]. unfold bind at 1. cbn. apply IH.
Qed.

Lemma syncmessagesto_copy_in_sync s :
  in_sync s ->
  syncmessagesto_copy cfg s = Ret tt (set_have_newmail false s).
Proof.
  intros (Hknown & _ & _). unfold syncmessagesto_copy.
  unfold bind at 1, modify at 1. unfold bind at 1, gets at 1.
  assert (initial_copylist (set_have_newmail false s) = []) as ->.
  { destruct (initial_copylist _) as [|u l] eqn:E; [done|].
    assert (u ∈ initial_copylist (set_have_newmail false s)) as Hin
      by (rewrite E; by left).
    apply elem_of_initial_copylist in Hin as [Hself Hnone]. cbn in *.
    apply Hknown in Hself. rewrite Hnone in Hself. by destruct Hself. }
  by rewrite (bind_Ret _ _ _ _ _ (honor_copy_ignore_nil _)).
Qed.

Lemma syncmessagesto_delete_in_sync s :
  in_sync s -> syncmessagesto_delete cfg s = Ret tt s.
Proof.
  intros (_ & Hhave & _). unfold syncmessagesto_delete.
  unfold bind at 1, gets at 1.
  assert (deletelist cfg s = []) as ->; [|done].
  destruct (deletelist cfg s) as [|u l] eqn:E; [done|].
  assert (u ∈ deletelist cfg s) as Hin by (rewrite E; by left).
  apply elem_of_deletelist in Hin as (Hst & Hpos & Hnone & _).
  apply Hhave in Hst; [|done]. rewrite Hnone in Hst. by destruct Hst.
Qed.

Lemma flaglist_extend_empty uid d : flaglist_extend ∅ uid d = d.
Proof. unfold flaglist_extend. by rewrite elements_empty. Qed.

Lemma scanned_in_sync s uids :
  in_sync s ->
  (forall u, u ∈ uids -> is_Some (messagelist (self s) !! u)) ->
  foldl (scanned cfg s) ([], []) uids = ([], []).
Proof.
  intros (Hknown & _ & Hflags) Hin. induction uids as [|u uids IH] using rev_ind;
    [done|].
  rewrite foldl_app. cbn [foldl]. rewrite IH by (intros; apply Hin; set_solver).
  unfold scanned. destruct (_ || _) eqn:Hskip; [done|].
  apply scanned_skip in Hskip as [Hpos Hdst].
  destruct (Hin u) as [m Hm]; [set_solver|].
  destruct (Hknown u) as [e He]; [by eexists|].
  unfold src_effective, status_flags. rewrite Hm, He. cbn [from_option].
  unfold effective. rewrite (Hflags u m e) by done.
  rewrite !difference_diag_L. by rewrite !flaglist_extend_empty.
Qed.

Lemma syncmessagesto_flags_in_sync s :
  in_sync s ->
  exists s', syncmessagesto_flags cfg s = Ret tt s' /\ quiet s s'.
Proof.
  intros Hsync. destruct (scan_quiet s) as (lists & s1 & Hscan & Hlists & Hq).
  rewrite scanned_in_sync in Hlists; [|done|].
  2:{ intros u. by rewrite elem_of_getmessageuidlist. }
  subst lists. exists s1. split; [|done].
  unfold syncmessagesto_flags. unfold bind at 1, gets at 1.
  by rewrite (bind_Ret _ _ _ _ _ Hscan).
Qed.

(** X11: a run on folders that agree finds nothing to do: [syncmessagesto]
    returns and calls no method of the destination, of the status folder or
    of the backend of the source, in a dry run or not. *)
Theorem in_sync_calls_nothing s :
  in_sync s ->
  exists s', syncmessagesto cfg s = Ret tt s' /\ quiet s s'.
Proof.
  intros Hsync. unfold syncmessagesto, syncmessagesto_passes.
  cbn [run_passes]. destruct (abort_NOW_signal cfg).
  { exists s. split; [done|reflexivity]. }
  unfold bind at 1, try_except at 1. rewrite syncmessagesto_copy_in_sync by done.
  assert (in_sync (set_have_newmail false s)) as Hsync1 by done.
  unfold bind at 1, try_except at 1.
  rewrite syncmessagesto_delete_in_sync by done.
  destruct (syncmessagesto_flags_in_sync _ Hsync1) as (s' & Hret & Hq).
  exists s'. split.
  - unfold bind at 1, try_except at 1. by rewrite Hret.
  - etrans; [apply (quiet_set_have_newmail false)|exact Hq].
Qed.

(** *** The calls that an operation adds to the log *)

(** The log has gained entries that all satisfy [P]. *)
Definition adds (P : entry -> Prop) s s' : Prop :=
  exists new, log s' = log s ++ new /\ Forall P new.

#[local] Instance adds_preorder P : PreOrder (adds P).
Proof.
  split.
  - intros s. exists []. by rewrite app_nil_r.
  - intros s1 s2 s3 (l1 & Hl1 & HP1) (l2 & Hl2 & HP2).
    exists (l1 ++ l2). rewrite Hl2, Hl1, app_assoc. split; [done|].
    by apply Forall_app.
Qed.

Lemma adds_weaken (P Q : entry -> Prop) s s' :
  (forall e, P e -> Q e) -> adds P s s' -> adds Q s s'.
Proof.
  intros HPQ (l & Hl & HP). exists l. split; [done|].
  eapply Forall_impl; [exact HP|done].
Qed.

Lemma quiet_adds (P : entry -> Prop) s s' :
  (forall u, P (Ui u)) -> quiet s s' -> adds P s s'.
Proof.
  intros HP (_ & _ & _ & _ & us & Hl). exists (map Ui us). split; [done|].
  apply Forall_fmap, Forall_forall. intros u _. apply HP.
Qed.

Section adds.
Context (P : entry -> Prop).

Lemma adds_ui u : P (Ui u) -> preserves (adds P) (ui u).
Proof. intros HP s. exists [Ui u]. split; [done|]. by constructor. Qed.

Lemma adds_on_self {A} c (op : M (folder Hs) A) :
  (forall snap, P (Call c snap)) -> preserves (adds P) (on_self c op).
Proof.
  intros HP s. unfold on_self.
  destruct (op (self s)); (eexists [_]; split; [done|]; by constructor).
Qed.

Lemma adds_on_dst {A} c (op : M (folder Hd) A) :
  (forall snap, P (Call c snap)) -> preserves (adds P) (on_dst c op).
Proof.
  intros HP s. unfold on_dst.
  destruct (op (dstfolder s)); (eexists [_]; split; [done|]; by constructor).
Qed.

Lemma adds_on_status c f :
  (forall snap, P (Call c snap)) -> preserves (adds P) (on_status c f).
Proof. intros HP s. eexists [_]. split; [done|]. by constructor. Qed.

Lemma adds_set_have_newmail b : preserves (adds P) (modify (set_have_newmail b)).
Proof. intros s. exists []. cbn. by rewrite app_nil_r. Qed.

End adds.

(** *** Pass 1 uploads only what is new *)

(** Of the calls of [dstfolder.savemessage], only those for a UID in [U]. *)
Definition saves_only (U : Z -> Prop) (e : entry) : Prop :=
  forall u fl rtime snap, e = Call (dst_savemessage u fl rtime) snap -> U u.

Lemma copymessageto_saves_only (U : Z -> Prop) uid register :
  U uid -> preserves (adds (saves_only U)) (copymessageto cfg uid register).
Proof.
  intros HU. unfold copymessageto.
  assert (forall u, saves_only U (Ui u)) as Hui by (by intros u ???? [=]).
  apply (preserves_bind _).
  { destruct register; [by apply adds_ui|apply (preserves_ret _)]. }
  intros _. apply (preserves_try_except _).
  - unfold copymessageto_try.
    apply (preserves_bind _); [apply (preserves_lookup_field _)|]. intros fl.
    apply (preserves_bind _); [apply (preserves_lookup_field _)|]. intros rtime.
    apply (preserves_bind _).
    { destruct (storesmessages _); [|apply (preserves_ret _)].
      apply (preserves_bind _); [|intros; apply (preserves_ret _)].
      apply adds_on_self. by intros ????? [=]. }
    intros message. apply (preserves_bind _).
    { apply adds_on_dst. by intros ????? [= -> _ _]. }
    intros new_uid. destruct (0 <? new_uid).
    + apply (preserves_bind _).
      { destruct (negb _); [|apply (preserves_ret _)].
        apply (preserves_bind _); [apply adds_on_self; by intros ????? [=]|].
        intros _. apply adds_on_status. by intros ????? [=]. }
      intros _. apply (preserves_bind _).
      { apply adds_on_status. by intros ????? [=]. }
      intros _. case_bool_decide; [apply (preserves_ret _)|].
      apply adds_set_have_newmail.
    + destruct (new_uid =? 0); [|apply (preserves_raise _)].
      apply adds_on_self. by intros ????? [=].
  - intros e. unfold copymessageto_except.
    destruct e; try apply (preserves_raise _).
    + destruct (_ <? _); [apply (preserves_raise _)|by apply adds_ui].
    + apply (preserves_bind _); [by apply adds_ui|].
      intros _. apply (preserves_raise _).
    + apply (preserves_bind _); [by apply adds_ui|].
      intros _. apply (preserves_raise _).
    + apply (preserves_bind _); [by apply adds_ui|].
      intros _. apply (preserves_raise _).
Qed.

Lemma copy_loop_saves_only (U : Z -> Prop) num_to_copy l :
  (forall num uid, (num, uid) ∈ l -> uid <> 0 -> U uid) ->
  preserves (adds (saves_only U)) (copy_loop cfg num_to_copy l).
Proof.
  assert (forall u, saves_only U (Ui u)) as Hui by (by intros u ???? [=]).
  induction l as [|[num uid] l IH]; intros HU; [apply (preserves_ret _)|].
  cbn [copy_loop]. destruct (abort_NOW_signal cfg); [apply (preserves_ret _)|].
  apply (preserves_bind _).
  2:{ intros _. apply IH. intros n u Hin. apply (HU n). by right. }
  unfold copy_iteration. destruct (Z.eqb_spec uid 0) as [->|Hne].
  { by apply adds_ui. }
  apply (preserves_bind _); [apply (preserves_gets _)|]. intros dst_has.
  destruct (_ && _).
  - apply (preserves_bind _); [apply (preserves_lookup_field _)|]. intros fl.
    apply (preserves_bind _); [apply (preserves_lookup_field _)|]. intros rtime.
    apply adds_on_status. by intros ????? [=].
  - apply (preserves_bind _); [by apply adds_ui|]. intros _.
    apply copymessageto_saves_only. apply (HU num); [by left|done].
Qed.

Lemma elem_of_enumerate {X} (l : list X) num x :
  (num, x) ∈ enumerate l -> x ∈ l.
Proof.
  unfold enumerate. intros Hin%list_elem_of_In.
  apply in_combine_r in Hin. by apply list_elem_of_In.
Qed.

Lemma run_newmail_hook_saves_only (U : Z -> Prop) :
  preserves (adds (saves_only U)) (run_newmail_hook cfg).
Proof.
  unfold run_newmail_hook. destruct (newmail_hook cfg) as [[|e]|].
  - intros s. eexists [_]. split; [done|]. constructor; [|done]. by intros ???? [=].
  - apply (preserves_bind _); [|intros; apply (preserves_raise _)].
    intros s. eexists [_]. split; [done|]. constructor; [|done]. by intros ???? [=].
  - apply (preserves_ret _).
Qed.

(** X12: the only messages that Pass 1 hands to [dstfolder.savemessage] are
    messages of the source that the status folder did not know when the pass
    started, whose UID is not 0 and is not in [copy_ignoreUIDs]; in a dry
    run it hands over none. *)
Theorem copy_pass_saves_only_new s :
  exists new,
    log (final (syncmessagesto_copy cfg s)) = log s ++ new /\
    forall u fl rtime snap,
      Call (dst_savemessage u fl rtime) snap ∈ new ->
      dryrun cfg = false /\ u <> 0 /\
      is_Some (messagelist (self s) !! u) /\ statusfolder s !! u = None /\
      u ∉ default [] (copy_ignoreUIDs cfg).
Proof.
  set (U := fun u : Z =>
    dryrun cfg = false /\ u <> 0 /\
    is_Some (messagelist (self s) !! u) /\ statusfolder s !! u = None /\
    u ∉ default [] (copy_ignoreUIDs cfg)).
  assert (adds (saves_only U) s (final (syncmessagesto_copy cfg s)))
    as (new & Hlog & Hnew).
  2:{ exists new. split; [done|]. intros u fl rtime snap Hin.
      rewrite Forall_forall in Hnew. by apply (Hnew _ Hin u fl rtime snap). }
  assert (forall u, saves_only U (Ui u)) as Hui by (by intros u ???? [=]).
  unfold syncmessagesto_copy.
  unfold bind at 1, modify at 1. unfold bind at 1, gets at 1.
  set (s1 := set_have_newmail false s).
  destruct (honor_copy_ignore_spec (initial_copylist s1) s1
              (NoDup_initial_copylist s1)) as (l' & us & Hhonor & Hl').
  rewrite (bind_Ret _ _ _ _ _ Hhonor).
  assert (adds (saves_only U) s (with_ui us s1)) as Hstart.
  { apply quiet_adds; [done|].
    etrans; [apply (quiet_set_have_newmail false)|apply quiet_with_ui]. }
  etrans; [exact Hstart|]. generalize (with_ui us s1). intros s2.
  destruct ((0 <? length (initial_copylist s1))%nat && dryrun cfg) eqn:Hcond.
  { by apply adds_ui. }
  apply (preserves_bind _).
  - apply copy_loop_saves_only. intros num u Hin%elem_of_enumerate Hne.
    apply Hl' in Hin as [Hin Hign].
    assert (dryrun cfg = false) as Hdry.
    { apply andb_false_iff in Hcond as [Hlen|?]; [|done].
      destruct (initial_copylist s1); [by apply elem_of_nil in Hin|done]. }
    apply elem_of_initial_copylist in Hin as [Hself Hstatus].
    by split_and!.
  - intros _. apply (preserves_bind _); [apply (preserves_gets _)|].
    intros newmail. destruct newmail; [|apply (preserves_ret _)].
    apply run_newmail_hook_saves_only.
Qed.

(** *** Pass 2 deletes only what the source has lost *)

(** X13: every UID that Pass 2 hands to [dstfolder.deletemessages] is >= 0,
    was known to the status folder and on the destination when the pass
    started, and is not in the source: the pass never deletes from the
    destination a message that the source still has, or one that was never
    synchronised. *)
Theorem delete_pass_deletes_only_lost s :
  exists new,
    log (final (syncmessagesto_delete cfg s)) = log s ++ new /\
    forall uids snap uid,
      Call (dst_deletemessages uids) snap ∈ new -> uid ∈ uids ->
      0 <= uid /\ messagelist (self s) !! uid = None /\
      is_Some (statusfolder s !! uid) /\
      is_Some (messagelist (dstfolder s) !! uid).
Proof.
  rewrite syncmessagesto_delete_final. unfold after_delete. cbv zeta.
  set (dl := deletelist cfg s). set (dl2 := List.filter _ dl).
  destruct (status_deleted_log dl s) as (sd & Hsd & Hall & _).
  assert (forall uids snap, Call (dst_deletemessages uids) snap ∉ sd) as Hnotin.
  { intros uids snap Hin. by destruct (Hall _ Hin) as (? & ? & ? & _). }
  assert (forall uid, uid ∈ dl2 ->
            0 <= uid /\ messagelist (self s) !! uid = None /\
            is_Some (statusfolder s !! uid) /\
            is_Some (messagelist (dstfolder s) !! uid)) as Hdl2.
  { intros uid [Hin Hdst]%elem_of_List_filter.
    apply uidexists_true in Hdst.
    apply elem_of_deletelist in Hin as (Hst & Hpos & Hnone & _). done. }
  destruct (0 <? length dl)%nat.
  2:{ exists []. rewrite app_nil_r. split; [done|].
      by intros ??? ?%elem_of_nil. }
  destruct (dryrun cfg).
  { destruct (0 <? length dl2)%nat.
    - eexists [_]. split; [done|]. intros uids snap uid Hin.
      apply list_elem_of_singleton in Hin. done.
    - exists []. rewrite app_nil_r. split; [done|].
      by intros ??? ?%elem_of_nil. }
  destruct (0 <? length dl2)%nat.
  2:{ exists sd. split; [done|]. intros uids snap uid Hin.
      by apply Hnotin in Hin. }
  eexists (sd ++ [Ui (deletingmessages dl2); Call (dst_deletemessages dl2) _]).
  split.
  { cbn. rewrite Hsd. by rewrite <- !app_assoc. }
  intros uids snap uid Hin Huid.
  rewrite elem_of_app in Hin. destruct Hin as [Hin|Hin]; [by apply Hnotin in Hin|].
  apply elem_of_cons in Hin as [?|Hin]; [done|].
  apply list_elem_of_singleton in Hin. injection Hin as -> _. by apply Hdl2.
Qed.

(** *** Pass 3 sends only the differences *)

(** The calls of Pass 3 on the flags of the destination are for one flag and
    for UIDs that one of the two lists of the scan holds for that flag. *)
Definition flag_call_of
    (lists : list (ascii * list Z) * list (ascii * list Z)) (e : entry)
    : Prop :=
  match e with
  | Call (dst_addmessagesflags uids fl) _ =>
      dryrun cfg = false /\ exists flag, fl = {[flag]} /\ (flag, uids) ∈ lists.1
  | Call (dst_deletemessagesflags uids fl) _ =>
      dryrun cfg = false /\ exists flag, fl = {[flag]} /\ (flag, uids) ∈ lists.2
  | _ => True
  end.

Lemma statusfolder_addmessagesflags_adds P uids fl :
  (forall u f snap, P (Call (status_savemessageflags u f) snap)) ->
  preserves (adds P) (statusfolder_addmessagesflags uids fl).
Proof.
  intros HP. unfold statusfolder_addmessagesflags.
  apply (preserves_for_each _). intros uid _.
  apply (preserves_bind _); [apply (preserves_gets _)|]. intros [|];
    [|apply (preserves_ret _)].
  unfold statusfolder_addmessageflags.
  apply (preserves_bind _); [apply (preserves_lookup_field _)|]. intros old.
  by apply adds_on_status.
Qed.

Lemma statusfolder_deletemessagesflags_adds P uids fl :
  (forall u f snap, P (Call (status_savemessageflags u f) snap)) ->
  preserves (adds P) (statusfolder_deletemessagesflags uids fl).
Proof.
  intros HP. unfold statusfolder_deletemessagesflags.
  apply (preserves_for_each _). intros uid _.
  unfold statusfolder_deletemessageflags.
  apply (preserves_bind _); [apply (preserves_lookup_field _)|]. intros old.
  by apply adds_on_status.
Qed.

Lemma apply_flags_adds lists :
  preserves (adds (flag_call_of lists))
    (for_each lists.1 (apply_addflags cfg) ;; for_each lists.2 (apply_delflags cfg)).
Proof.
  apply (preserves_bind _); [|intros _].
  - apply (preserves_for_each _). intros [flag uids] Hin. unfold apply_addflags.
    apply (preserves_bind _); [by apply adds_ui|]. intros _.
    destruct (dryrun cfg) eqn:Hdry; [apply (preserves_ret _)|].
    apply (preserves_bind _); [|intros _].
    + apply adds_on_dst. intros snap. cbn. split; [done|]. by exists flag.
    + by apply statusfolder_addmessagesflags_adds.
  - apply (preserves_for_each _). intros [flag uids] Hin. unfold apply_delflags.
    apply (preserves_bind _); [by apply adds_ui|]. intros _.
    destruct (dryrun cfg) eqn:Hdry; [apply (preserves_ret _)|].
    apply (preserves_bind _); [|intros _].
    + apply adds_on_dst. intros snap. cbn. split; [done|]. by exists flag.
    + by apply statusfolder_deletemessagesflags_adds.
Qed.

(** X14: Pass 3 changes flags on the destination only outside a dry run,
    one flag per call, and only for messages with a UID >= 0 that the source
    and the destination had when the pass started: it adds a flag that the
    source has, mapped keywords included, and the status folder lacks; it
    removes a flag that the status folder has and the source lacks. *)
Theorem flags_pass_sends_differences s :
  exists new,
    log (final (syncmessagesto_flags cfg s)) = log s ++ new /\
    (forall uids fl snap uid,
       Call (dst_addmessagesflags uids fl) snap ∈ new -> uid ∈ uids ->
       dryrun cfg = false /\ 0 <= uid /\
       is_Some (messagelist (dstfolder s) !! uid) /\
       exists flag m, fl = {[flag]} /\ messagelist (self s) !! uid = Some m /\
         flag ∈ flags m ∪ mapped_keywords cfg m /\
         flag ∉ from_option flags ∅ (statusfolder s !! uid)) /\
    (forall uids fl snap uid,
       Call (dst_deletemessagesflags uids fl) snap ∈ new -> uid ∈ uids ->
       dryrun cfg = false /\ 0 <= uid /\
       is_Some (messagelist (dstfolder s) !! uid) /\
       exists flag m e, fl = {[flag]} /\ messagelist (self s) !! uid = Some m /\
         statusfolder s !! uid = Some e /\ flag ∈ flags e /\
         flag ∉ flags m ∪ mapped_keywords cfg m).
Proof.
  destruct (scan_quiet s) as (lists & s1 & Hscan & Hlists & Hq).
  assert (adds (flag_call_of lists) s (final (syncmessagesto_flags cfg s)))
    as (new & Hlog & Hnew).
  { unfold syncmessagesto_flags. unfold bind at 1, gets at 1.
    rewrite (bind_Ret _ _ _ _ _ Hscan).
    etrans; [by apply quiet_adds|]. apply apply_flags_adds. }
  exists new. split; [done|]. rewrite Forall_forall in Hnew.
  pose proof (foldl_scanned_in cfg s (getmessageuidlist (messagelist (self s)))
                ([], [])) as Hin. rewrite <- Hlists in Hin.
  split.
  - intros uids fl snap uid Hcall Huid.
    destruct (Hnew _ Hcall) as (Hdry & flag & -> & Hflag).
    destruct (proj1 (proj1 (Hin flag uid))) as [Habs|(Hl & [Hpos Hdst] & Hdiff)].
    { by exists uids. }
    { by apply in_flaglist_nil in Habs. }
    apply elem_of_getmessageuidlist in Hl as [m Hm].
    unfold src_effective, status_flags in Hdiff. rewrite Hm in Hdiff.
    apply elem_of_difference in Hdiff as [Hsrc Hst].
    split_and!; [done..|]. by exists flag, m.
  - intros uids fl snap uid Hcall Huid.
    destruct (Hnew _ Hcall) as (Hdry & flag & -> & Hflag).
    destruct (proj1 (proj2 (Hin flag uid))) as [Habs|(Hl & [Hpos Hdst] & Hdiff)].
    { by exists uids. }
    { by apply in_flaglist_nil in Habs. }
    apply elem_of_getmessageuidlist in Hl as [m Hm].
    unfold src_effective, status_flags in Hdiff. rewrite Hm in Hdiff.
    apply elem_of_difference in Hdiff as [Hst Hsrc].
    destruct (statusfolder s !! uid) as [e|] eqn:He; [|by apply elem_of_empty in Hst].
    split_and!; [done..|]. by exists flag, m, e.
Qed.

(** *** copymessageto when the destination has answered *)

(** [copymessageto] up to the answer of [dstfolder.savemessage]. *)
Lemma copymessageto_try_saved uid m message f1 d1 new_uid s :
  messagelist (self s) !! uid = Some m ->
  match message with
  | Some b => storesmessages (dstfolder_backend cfg) = true /\
              getmessage (self_backend cfg) uid (self s) = Ret b f1
  | None => storesmessages (dstfolder_backend cfg) = false /\ f1 = self s
  end ->
  savemessage (dstfolder_backend cfg) uid message (flags m) (time m)
              (dstfolder s) = Ret new_uid d1 ->
  copymessageto_try cfg uid s
  = (if 0 <? new_uid then
       (if negb (new_uid =? uid) then
          on_self (self_change_message_uid uid new_uid)
                  (change_message_uid (self_backend cfg) uid new_uid) ;;
          statusfolder_deletemessage uid
        else ret tt) ;;
       statusfolder_savemessage new_uid (flags m) (time m) ;;
       if bool_decide ("S"%char ∈ flags m) then ret tt
       else modify (set_have_newmail true)
     else if new_uid =? 0 then
       on_self (self_deletemessage uid) (deletemessage (self_backend cfg) uid)
     else raise (OfflineImapError (ERROR_MESSAGE cfg)))
    (saved uid m message f1 d1 s).
Proof.
  intros Hm Hload Hsave. unfold copymessageto_try.
  rewrite (bind_Ret _ _ _ _ _ (self_getmessageflags_Some _ _ _ Hm)).
  rewrite (bind_Ret _ _ _ _ _ (self_getmessagetime_Some _ _ _ Hm)).
  destruct message as [b|]; destruct Hload as [Hst Hget]; rewrite Hst.
  - rewrite (bind_Ret _ _ s (Some b) (loaded uid (Some b) f1 s)).
    2:{ unfold bind, on_self, ret. by rewrite Hget. }
    rewrite (bind_Ret _ _ _ new_uid (saved uid m (Some b) f1 d1 s)).
    2:{ unfold on_dst. cbn. by rewrite Hsave. }
    reflexivity.
  - rewrite (bind_Ret _ _ s (@None B) s) by done.
    rewrite (bind_Ret _ _ _ new_uid (saved uid m (@None B) f1 d1 s)).
    2:{ unfold on_dst. cbn. by rewrite Hsave. }
    reflexivity.
Qed.

Lemma saved_frame uid m (message : option B) f1 d1 s :
  match message with
  | Some b => True
  | None => f1 = self s
  end ->
  self (saved uid m message f1 d1 s) = f1 /\
  dstfolder (saved uid m message f1 d1 s) = d1 /\
  statusfolder (saved uid m message f1 d1 s) = statusfolder s /\
  have_newmail (saved uid m message f1 d1 s) = have_newmail s.
Proof. destruct message; [done|]. by intros ->. Qed.


(** X16: when [dstfolder.savemessage] returns a UID < 0, the message was not
    saved: [copymessageto] logs an error of severity MESSAGE and returns,
    with the source as the loading of the body left it, the status folder as
    it was and [have_newmail] unchanged. *)
Theorem copymessageto_not_saved uid m message f1 d1 new_uid s :
  messagelist (self s) !! uid = Some m ->
  match message with
  | Some b => storesmessages (dstfolder_backend cfg) = true /\
              getmessage (self_backend cfg) uid (self s) = Ret b f1
  | None => storesmessages (dstfolder_backend cfg) = false /\ f1 = self s
  end ->
  savemessage (dstfolder_backend cfg) uid message (flags m) (time m)
              (dstfolder s) = Ret new_uid d1 ->
  new_uid < 0 ->
  exists s',
    copymessageto cfg uid false s = Ret tt s' /\
    self s' = f1 /\ dstfolder s' = d1 /\
    statusfolder s' = statusfolder s /\
    have_newmail s' = have_newmail s /\
    last (log s') = Some (Ui (error (OfflineImapError (ERROR_MESSAGE cfg)) "")).
Proof.
  intros Hm Hload Hsave Hneg.
  unfold copymessageto. unfold bind at 1, ret at 1. unfold try_except.
  rewrite (copymessageto_try_saved uid m message f1 d1 new_uid s) by done.
  destruct (saved_frame uid m message f1 d1 s) as (Hself & Hdst & Hst & Hnew).
  { destruct message; [done|]. by destruct Hload. }
  revert Hself Hdst Hst Hnew. generalize (saved uid m message f1 d1 s).
  intros s2 Hself Hdst Hst Hnew.
  assert ((0 <? new_uid) = false) as -> by lia.
  assert ((new_uid =? 0) = false) as -> by lia.
  unfold raise, copymessageto_except. rewrite Z.ltb_irrefl.
  eexists. split; [done|]. cbn. split_and!; try done. apply last_snoc.
Qed.

End facts.

End Base_run_facts.

(** ** Runs between two folders in memory, continued *)

Module Run_scenarios.
Import Base Memory Base_facts Scenarios Base_run_facts.

(** *** A dry run *)

Definition dry_config : env store store string :=
  config true true None keywordmap_None.

(** The source has a new message, UID 1, and has lost UID 7. *)
Definition pending_start : state store store :=
  start [(1, Message ∅ ∅ 0)] [(7, Message seen ∅ 0)] [(7, Message seen ∅ 0)].

Lemma dryrun_calls_nothing_witness :
  exists s', syncmessagesto dry_config pending_start = Ret tt s' /\
             quiet pending_start s'.
Proof. apply (dryrun_calls_nothing dry_config pending_start). reflexivity. Defined.

Example dryrun_log :
  map forget (log (final (syncmessagesto dry_config pending_start)))
  = [inl (info_dryrun_copy 1); inl (deletingmessages [7])].
Proof. vm_compute. reflexivity. Qed.

(** *** Folders that agree *)

Definition agreeing_start : state store store :=
  start [(5, Message seen ∅ 0)] [(5, Message seen ∅ 0)] [(5, Message seen ∅ 0)].

Lemma agreeing_start_in_sync : in_sync plain_config agreeing_start.
Proof.
  assert (forall uid, is_Some (statusfolder agreeing_start !! uid) <-> uid = 5)
    as Hstatus.
  { intros uid. unfold agreeing_start, start. cbn [statusfolder list_to_map foldr].
    destruct (decide (uid = 5)) as [->|Hne].
    - rewrite lookup_insert_eq. split; [done|by eexists].
    - rewrite lookup_insert_ne, lookup_empty by done. split; [by intros []|done]. }
  assert (forall uid, is_Some (messagelist (self agreeing_start) !! uid)
                      <-> uid = 5) as Hself.
  { intros uid. unfold agreeing_start, start, folder_of.
    cbn [self messagelist list_to_map foldr].
    destruct (decide (uid = 5)) as [->|Hne].
    - rewrite lookup_insert_eq. split; [done|by eexists].
    - rewrite lookup_insert_ne, lookup_empty by done. split; [by intros []|done]. }
  split_and!.
  - intros uid H. apply Hstatus. by apply Hself.
  - intros uid _ H. apply Hself. by apply Hstatus.
  - intros uid m e _ Hm _ He.
    assert (uid = 5) as -> by (apply Hself; by eexists).
    vm_compute in Hm. vm_compute in He. injection Hm as <-. injection He as <-.
    vm_compute. reflexivity.
Qed.

Lemma in_sync_calls_nothing_witness :
  exists s', syncmessagesto plain_config agreeing_start = Ret tt s' /\
             quiet agreeing_start s'.
Proof.
  apply (in_sync_calls_nothing plain_config agreeing_start).
  apply agreeing_start_in_sync.
Defined.

(** *** A message that the source holds under a negative UID *)

Definition unsaved_start : state store store :=
  start [(-1, Message ∅ ∅ 42)] [] [].




Example unsaved_renumbered :
  map_to_list (messagelist (self
    (final (copymessageto plain_config (-1) false unsaved_start))))
  = [(1, Message ∅ ∅ 42)].
Proof. vm_compute. reflexivity. Qed.

(** The same backend on a destination that cannot be written to:
    [savemessage] returns the UID it was given, as IMAP.py does at lines
    700-707. *)
Definition readonly_backend (message_error : Z) : Base.backend store string :=
  Backend true (mem_getmessage message_error) true
          (fun uid _ _ _ => ret uid)
          mem_change_message_uid mem_deletemessage mem_deletemessages
          mem_addmessagesflags mem_deletemessagesflags.

Definition readonly_config : env store store string :=
  Env MESSAGE FOLDER false false true None None keywordmap_None
      (backend MESSAGE) (readonly_backend MESSAGE).

Lemma copymessageto_not_saved_witness :
  exists s',
    copymessageto readonly_config (-1) false unsaved_start = Ret tt s' /\
    self s' = self unsaved_start /\ dstfolder s' = dstfolder unsaved_start /\
    statusfolder s' = statusfolder unsaved_start /\
    have_newmail s' = have_newmail unsaved_start /\
    last (log s') = Some (Ui (error (OfflineImapError (ERROR_MESSAGE readonly_config)) "")).
Proof.
  generalize (copymessageto_not_saved readonly_config (-1) (Message ∅ ∅ 42)
           (Some "body"%string) (self unsaved_start) (dstfolder unsaved_start)
           (-1) unsaved_start).
  cbn [flags time]. intros H. apply H.
  - vm_compute. reflexivity.
  - split; [reflexivity | vm_compute; reflexivity].
  - reflexivity.
  - lia.
Defined.

End Run_scenarios.

(** ** More properties of IMAP savemessage *)

Module IMAP_save_facts.
Import Base IMAP Base_facts IMAP_facts.
Local Open Scope py_scope.

Definition is_append (c : command) : bool :=
  match c with
  | APPEND _ _ _ => true
  | _ => false
  end.

(** The number of APPEND commands in a list of commands. *)
Definition appends (l : list command) : nat := length (List.filter is_append l).

Lemma appends_app l1 l2 : appends (l1 ++ l2) = (appends l1 + appends l2)%nat.
Proof. unfold appends. by rewrite List.filter_app, length_app. Qed.

Section facts.
Context {Msg : Type}.
Variable del_header : string -> Msg -> Msg.
Variable add_header : string -> string -> Msg -> Msg.
Variable as_bytes : Msg -> string.
Variable crc32 : string -> Z.
Variable randint : nat -> Z.
Variable imapobj_quote : string -> string.
Variable header_in : string -> string -> string -> bool.
Variable uid_after : string -> option Z.
Variable uid_before : string -> option Z.
Variable getmessageinternaldate : Msg -> Z -> option string.
Variable filterheaders : list string.
Variable imapserver : nat -> imapobj.
Variable uid_store : Z -> string -> store_response.
Variable ERROR_MESSAGE ERROR_REPO : Z.

Abbreviation save :=
  (savemessage del_header add_header as_bytes crc32 randint imapobj_quote
               header_in uid_after uid_before getmessageinternaldate
               filterheaders imapserver uid_store ERROR_MESSAGE ERROR_REPO).

Abbreviation F := imapfolder.

(** *** Bounds on what savemessage sends *)

(** From [f] to [f'] at most [a] APPEND commands were sent and at most [c]
    connections taken, and UID 0 did not enter the message list. *)
Definition within (a c : nat) (f f' : F) : Prop :=
  exists new,
    sent f' = sent f ++ new /\
    (appends new <= a)%nat /\
    (acquired f' <= acquired f + c)%nat /\
    (messagelist f !! 0 = None -> messagelist f' !! 0 = None).

Definition costs {A} (a c : nat) (op : M F A) : Prop :=
  forall f, within a c f (final (op f)).

Lemma within_refl f : within 0 0 f f.
Proof. exists []. rewrite app_nil_r. split_and!; [done|cbn; lia|lia|done]. Qed.

Lemma within_trans a1 c1 a2 c2 f1 f2 f3 :
  within a1 c1 f1 f2 -> within a2 c2 f2 f3 -> within (a1 + a2) (c1 + c2) f1 f3.
Proof.
  intros (l1 & Hl1 & Ha1 & Hc1 & Hz1) (l2 & Hl2 & Ha2 & Hc2 & Hz2).
  exists (l1 ++ l2). split_and!.
  - by rewrite Hl2, Hl1, app_assoc.
  - rewrite appends_app. lia.
  - lia.
  - intros H. by apply Hz2, Hz1.
Qed.

Lemma within_weaken a c a' c' f f' :
  (a <= a')%nat -> (c <= c')%nat -> within a c f f' -> within a' c' f f'.
Proof.
  intros Ha Hc (l & Hl & Hla & Hlc & Hz). exists l. split_and!; [done|lia|lia|done].
Qed.

Lemma costs_weaken {A} a c a' c' (op : M F A) :
  (a <= a')%nat -> (c <= c')%nat -> costs a c op -> costs a' c' op.
Proof. intros Ha Hc Hop f. by eapply within_weaken. Qed.

Lemma costs_ret {A} (x : A) : costs 0 0 (ret x).
Proof. intros f. apply within_refl. Qed.

Lemma costs_raise {A} e : costs 0 0 (raise (A := A) e).
Proof. intros f. apply within_refl. Qed.

Lemma costs_gets {A} (g : F -> A) : costs 0 0 (gets g).
Proof. intros f. apply within_refl. Qed.

Lemma costs_bind {A C} a1 c1 a2 c2 (op : M F A) (k : A -> M F C) :
  costs a1 c1 op -> (forall x, costs a2 c2 (k x)) ->
  costs (a1 + a2) (c1 + c2) (bind op k).
Proof.
  intros Hop Hk f. unfold bind. specialize (Hop f).
  destruct (op f) as [x f1|e f1].
  - eapply within_trans; [exact Hop|apply Hk].
  - eapply within_weaken; [| |exact Hop]; lia.
Qed.

(** A step that costs nothing, before or after others. *)
Lemma costs_bind_l {A C} a c (op : M F A) (k : A -> M F C) :
  costs 0 0 op -> (forall x, costs a c (k x)) -> costs a c (bind op k).
Proof. intros Hop Hk. by apply (costs_bind 0 0 a c). Qed.

Lemma costs_send c : costs (if is_append c then 1 else 0) 0 (send c).
Proof.
  intros f. exists [c]. split_and!; [done| |cbn; lia|done].
  unfold appends. cbn. destruct (is_append c); cbn; lia.
Qed.

Lemma costs_send_other c : is_append c = false -> costs 0 0 (send c).
Proof. intros Hc. pose proof (costs_send c) as H. by rewrite Hc in H. Qed.

Lemma costs_acquireconnection : costs 0 1 (acquireconnection imapserver).
Proof.
  intros f. exists []. rewrite app_nil_r. split_and!; [done|cbn; lia|cbn; lia|done].
Qed.

Lemma costs_set_messagelist u m :
  u <> 0 ->
  costs 0 0 (let* ml := gets messagelist in set_messagelist (<[u := m]> ml)).
Proof.
  intros Hu f. exists []. rewrite app_nil_r.
  split_and!; [done|cbn; lia|cbn; lia|].
  cbn. intros H. by rewrite lookup_insert_ne.
Qed.

Lemma costs_generate_randomheader (msg : Msg) :
  costs 0 0 (generate_randomheader as_bytes crc32 randint msg).
Proof.
  intros f. exists []. rewrite app_nil_r. split_and!; [done|cbn; lia|cbn; lia|done].
Qed.

Lemma costs_savemessageflags uid fl :
  0 < uid ->
  costs 0 1 (savemessageflags imapserver uid_store ERROR_MESSAGE uid fl).
Proof.
  intros Hpos. unfold savemessageflags.
  apply (costs_bind 0 1 0 0); [apply costs_acquireconnection|]. intros conn.
  destruct (select conn); [|by apply costs_send_other].
  apply costs_bind_l; [by apply costs_send_other|]. intros _.
  apply costs_bind_l; [by apply costs_send_other|]. intros _.
  assert (forall new, costs 0 0
    (let* ml := gets messagelist in
     match ml !! uid with
     | Some m => set_messagelist (<[uid := Message new (keywords m) (time m)]> ml)
     | None => raise KeyError
     end)) as Hstore.
  { intros new f. unfold bind, gets. destruct (messagelist f !! uid) as [m|].
    - apply (costs_set_messagelist uid (Message new (keywords m) (time m))). lia.
    - apply within_refl. }
  destruct (uid_store _ _); [apply costs_raise|apply Hstore..].
Qed.

Lemma costs_savemessage_searchforheader conn headername headervalue :
  costs 0 0 (savemessage_searchforheader imapobj_quote ERROR_MESSAGE conn
               headername headervalue).
Proof.
  unfold savemessage_searchforheader.
  apply costs_bind_l; [by apply costs_send_other|]. intros _.
  destruct (uid_search_header _ _ _) as [|[|? [|]]|];
    first [apply costs_ret|apply costs_raise].
Qed.

Lemma costs_savemessage_fetchheaders conn headername headervalue :
  costs 0 0 (savemessage_fetchheaders header_in uid_after uid_before
               ERROR_MESSAGE conn headername headervalue).
Proof.
  unfold savemessage_fetchheaders.
  apply costs_bind_l; [apply costs_gets|]. intros start.
  apply costs_bind_l; [by apply costs_send_other|]. intros _.
  destruct (negb _); [apply costs_raise|apply costs_ret].
Qed.

Lemma costs_append_loop retry_left conn uid (msg : Msg) fl date header :
  costs retry_left retry_left
    (append_loop add_header as_bytes crc32 randint imapserver
                 ERROR_MESSAGE ERROR_REPO retry_left conn uid msg fl date header).
Proof.
  revert conn msg header.
  induction retry_left as [|n IH]; intros conn msg header; [apply costs_raise|].
  cbn [append_loop].
  apply costs_bind_l.
  { destruct (bool_decide _); [apply costs_ret|].
    apply costs_bind_l; [apply costs_generate_randomheader|].
    intros h. apply costs_ret. }
  intros marked.
  apply costs_bind_l; [by apply costs_send_other|]. intros _.
  destruct (select conn).
  2:{ eapply costs_weaken; [| |apply costs_ret]; lia. }
  apply (costs_bind 1 0 n (S n) (send _)); [apply (costs_send (APPEND _ _ _))|].
  intros _. destruct (append _ _ _ _) as [typ| |].
  - eapply costs_weaken; [| |destruct (String.eqb typ "OK");
      [apply costs_ret|apply costs_raise]]; lia.
  - apply (costs_bind 0 1 n n); [apply costs_acquireconnection|].
    intros conn'. destruct n; [apply costs_raise|apply IH].
  - eapply costs_weaken; [| |apply costs_raise]; lia.
Qed.

Lemma costs_savemessage uid (msg : Msg) fl rtime :
  costs 2 3 (save uid msg fl rtime).
Proof.
  unfold savemessage.
  apply costs_bind_l; [apply costs_gets|]. intros have.
  destruct ((0 <? uid) && have) eqn:Hexists.
  { apply andb_true_iff in Hexists as [Hpos%Z.ltb_lt _].
    eapply costs_weaken; [| |apply (costs_bind 0 1 0 0);
      [by apply costs_savemessageflags|intros; apply costs_ret]]; lia. }
  apply (costs_bind 0 1 2 2); [apply costs_acquireconnection|]. intros conn.
  apply (costs_bind 2 2 0 0); [apply costs_append_loop|]. intros looped.
  destruct looped as [uid'|conn' use_uidplus [headername headervalue]];
    [apply costs_ret|].
  apply costs_bind_l; [by apply costs_send_other|]. intros _.
  destruct (negb _); [apply costs_raise|].
  assert (forall u, costs 0 0
    ((if u =? 0 then ret tt
      else let* ml := gets messagelist in
           set_messagelist (<[u := Message fl ∅ 0]> ml)) ;; ret u)) as Hfinish.
  { intros u. apply costs_bind_l; [|intros; apply costs_ret].
    destruct (Z.eqb_spec u 0); [apply costs_ret|by apply costs_set_messagelist]. }
  destruct use_uidplus.
  - destruct (APPENDUID conn'); first [apply costs_ret|apply costs_raise|apply Hfinish].
  - apply costs_bind_l; [apply costs_savemessage_searchforheader|]. intros u.
    apply costs_bind_l.
    { destruct (u =? 0); [apply costs_savemessage_fetchheaders|apply costs_ret]. }
    intros u'. apply Hfinish.
Qed.

(** X17: whatever the server answers, [savemessage] sends at most two
    APPEND commands and takes at most three connections, and it never
    enters UID 0 in the message list. *)
Theorem savemessage_bounded uid (msg : Msg) fl rtime f :
  exists new,
    sent (final (save uid msg fl rtime f)) = sent f ++ new /\
    (appends new <= 2)%nat /\
    (acquired (final (save uid msg fl rtime f)) <= acquired f + 3)%nat /\
    (messagelist f !! 0 = None ->
     messagelist (final (save uid msg fl rtime f)) !! 0 = None).
Proof. apply costs_savemessage. Qed.

End facts.

End IMAP_save_facts.

(** ** offlineimap/folder/IMAP.py: flags and deletions *)

Module IMAP_flags.
Import Base imaputil imaputil_parse.
Local Open Scope py_scope.

(** [int(s)] for a [str] of code points below 256: whitespace around, a
    sign, decimal digits with single underscores between them, at most
    [max_str_digits] digits.  [None] is ValueError.  The whitespace that
    [int] skips is that of [isspace] without the separators 28 to 31. *)
Definition int_isspace (c : ascii) : bool :=
  let n := nat_of_ascii c in
  ((9 <=? n) && (n <=? 13) || (n =? 32) || (n =? 133) || (n =? 160))%nat.

Fixpoint int_lstrip (s : string) : string :=
  match s with
  | EmptyString => EmptyString
  | String c s' => if int_isspace c then int_lstrip s' else s
  end.

Fixpoint int_rstrip (s : string) : string :=
  match s with
  | EmptyString => EmptyString
  | String c s' =>
      match int_rstrip s' with
      | EmptyString => if int_isspace c then EmptyString else String c EmptyString
      | r => String c r
      end
  end.

Definition is_digit (c : ascii) : bool :=
  (48 <=? nat_of_ascii c)%nat && (nat_of_ascii c <=? 57)%nat.

Definition digit_value (c : ascii) : Z := Z.of_nat (nat_of_ascii c) - 48.

(** [sys.int_info.default_max_str_digits]. *)
Definition max_str_digits : nat := 4300.

Fixpoint parse_digits (s : string) (acc : Z) (digits : nat)
    (after_digit : bool) : option Z :=
  match s with
  | EmptyString =>
      if after_digit && (digits <=? max_str_digits)%nat then Some acc else None
  | String c s' =>
      if is_digit c
      then parse_digits s' (10 * acc + digit_value c) (S digits) true
      else if Ascii.eqb c "_" && after_digit then
        match s' with
        | String d _ =>
            if is_digit d then parse_digits s' acc digits false else None
        | EmptyString => None
        end
      else None
  end.

Definition int (s : string) : option Z :=
  match int_rstrip (int_lstrip s) with
  | String "-" digits => Z.opp <$> parse_digits digits 0 0 false
  | String "+" digits => parse_digits digits 0 0 false
  | digits => parse_digits digits 0 0 false
  end.

(** What the folder does that can be seen from outside: the commands it
    sends and the messages [flagstoreadonly] and [deletereadonly] of the
    user interface. *)
Inductive event :=
| SELECT
| UID_STORE (uids field flags : string)
| EXPUNGE
| flagstoreadonly (uidlist : list Z) (fl : gset ascii)
| deletereadonly (uidlist : list Z).

(** What one connection answers: to SELECT, to UID STORE with its type and
    its items, each [None] or the text of a byte string, and to EXPUNGE
    with its type. *)
Record imapobj := Imapobj {
  select : IMAP.select_response;
  uid_store : string -> string -> string -> string * list (option string);
  expunge : string
}.

(** The folder object: the cached message list, how many connections were
    acquired, and the events so far. *)
Record imapfolder := Imapfolder {
  messagelist : gmap Z message;
  acquired : nat;
  events : list event
}.

(** The result of a function of imaputil in a method of a folder.  The last
    case, a parser that runs out of fuel, does not occur: the fuel that
    [imapsplit] takes is enough for every string. *)
Definition of_parse {S A} (r : option (result A)) : M S A :=
  match r with
  | Some (Val a) => ret a
  | Some (Exc IndexError) => raise (Exception "IndexError")
  | Some (Exc ValueError) => raise (Exception "ValueError")
  | None => raise (Exception "out of fuel")
  end.

Section flags.
(** The connections that [self.imapserver.acquireconnection()] gives, one
    after the other, [self.expunge] and [OfflineImapError.ERROR.MESSAGE]. *)
Variable imapserver : nat -> imapobj.
Variable expunge_setting : bool.
Variable ERROR_MESSAGE : Z.

Abbreviation F := imapfolder.

Definition emit (e : event) : M F unit :=
  modify (fun f => Imapfolder (messagelist f) (acquired f) (events f ++ [e])).

Definition acquireconnection : M F imapobj :=
  fun f => Ret (imapserver (acquired f))
               (Imapfolder (messagelist f) (S (acquired f)) (events f)).

(** [self.messagelist[uid]['flags'] = g(self.messagelist[uid]['flags'])]. *)
Definition update_flags (uid : Z) (g : gset ascii -> gset ascii) : M F unit :=
  fun f => match messagelist f !! uid with
           | Some m =>
               Ret tt (Imapfolder
                         (<[uid := Message (g (flags m)) (keywords m) (time m)]>
                            (messagelist f))
                         (acquired f) (events f))
           | None => Raise KeyError f
           end.

(** [del self.messagelist[uid]]. *)
Definition delete_entry (uid : Z) : M F unit :=
  fun f => match messagelist f !! uid with
           | Some _ =>
               Ret tt (Imapfolder (delete uid (messagelist f))
                                  (acquired f) (events f))
           | None => Raise KeyError f
           end.

(** The loop over the items of the answer to UID STORE: lines 1031-1046.
    [needupdate] is threaded. *)
Fixpoint process_response (response : list (option string))
    (needupdate : list Z) : M F (list Z) :=
  match response with
  | [] => ret needupdate
  | None :: rest => process_response rest needupdate
  | Some result :: rest =>
      let* tokens := of_parse (imapsplit result) in
      match tokens !! 1%nat with
      | None => raise (Exception "IndexError")
      | Some attributes =>
          let* attributehash := of_parse (flags2hash attributes) in
          match attributehash !! "UID"%string,
                attributehash !! "FLAGS"%string with
          | Some uidstr, Some flagstr =>
              match int uidstr with
              | None => raise (Exception "ValueError")
              | Some uid =>
                  update_flags uid (fun _ => flagsimap2maildir flagstr) ;;
                  process_response rest (list_remove uid needupdate)
              end
          | _, _ => process_response rest needupdate
          end
      end
  end.

(** [__processmessagesflags_real]: lines 1008-1051. *)
Definition processmessagesflags_real (operation : string) (uidlist : list Z)
    (fl : gset ascii) : M F unit :=
  let* conn := acquireconnection in
  emit SELECT ;;
  match select conn with
  | IMAP.select_readonly => emit (flagstoreadonly uidlist fl)
  | IMAP.select_ok =>
      let uids := uid_sequence uidlist in
      let field := (operation ++ "FLAGS")%string in
      let flagstring := IMAP.flagsmaildir2imap fl in
      emit (UID_STORE uids field flagstring) ;;
      let response := uid_store conn uids field flagstring in
      if negb (String.eqb response.1 "OK")
      then
        (* ['. '.join(response[1])] is a TypeError on an item that is not a
           [str], and every item is a byte string or [None] *)
        match response.2 with
        | [] => raise (OfflineImapError ERROR_MESSAGE)
        | _ :: _ => raise (Exception "TypeError")
        end
      else
        let* needupdate := process_response response.2 uidlist in
        for_each needupdate (fun uid =>
          if String.eqb operation "+" then update_flags uid (fun F => F ∪ fl)
          else if String.eqb operation "-"
          then update_flags uid (fun F => F ∖ fl)
          else ret tt)
  end.

(** [range(0, n, step)]. *)
Definition range_step (n step : nat) : list nat :=
  map (fun k => (k * step)%nat) (seq 0 ((n + step - 1) / step)).

Definition batch_size : nat := 100.

(** [__processmessagesflags]: lines 1053-1059. *)
Definition processmessagesflags (operation : string) (uidlist : list Z)
    (fl : gset ascii) : M F unit :=
  for_each (range_step (length uidlist) batch_size) (fun i =>
    processmessagesflags_real operation
      (take batch_size (drop i uidlist)) fl).

(** [addmessagesflags] and [__addmessagesflags_noconvert]: lines 989-998. *)
Definition addmessagesflags (uidlist : list Z) (fl : gset ascii) : M F unit :=
  processmessagesflags "+" uidlist fl.

(** [addmessageflags]: lines 986-987. *)
Definition addmessageflags (uid : Z) (fl : gset ascii) : M F unit :=
  addmessagesflags [uid] fl.

(** [deletemessagesflags]: lines 1005-1006. *)
Definition deletemessagesflags (uidlist : list Z) (fl : gset ascii)
    : M F unit :=
  processmessagesflags "-" uidlist fl.

(** [deletemessageflags]: lines 1001-1002. *)
Definition deletemessageflags (uid : Z) (fl : gset ascii) : M F unit :=
  deletemessagesflags [uid] fl.

(** [__deletemessages_noconvert]: lines 1079-1096. *)
Definition deletemessages_noconvert (uidlist : list Z) : M F unit :=
  match uidlist with
  | [] => ret tt
  | _ =>
      addmessagesflags uidlist {["T"%char]} ;;
      let* conn := acquireconnection in
      emit SELECT ;;
      match select conn with
      | IMAP.select_readonly => emit (deletereadonly uidlist)
      | IMAP.select_ok =>
          (if expunge_setting then
             emit EXPUNGE ;;
             if negb (String.eqb (expunge conn) "OK")
             then raise (Exception "AssertionError")
             else ret tt
           else ret tt) ;;
          for_each uidlist delete_entry
      end
  end.

(** [deletemessages]: lines 1076-1077. *)
Definition deletemessages (uidlist : list Z) : M F unit :=
  deletemessages_noconvert uidlist.

(** [deletemessage]: lines 1072-1073. *)
Definition deletemessage (uid : Z) : M F unit :=
  deletemessages_noconvert [uid].

End flags.

End IMAP_flags.

(** ** [int] reads what [str] writes *)

From Stdlib Require DecimalPos.

Module int_facts.
Import imaputil imaputil_parse imaputil_parse_facts IMAP_flags.

(** The value of the digits of [d] after the digits that gave [acc]. *)
Fixpoint uint_value (d : Decimal.uint) (acc : Z) : Z :=
  match d with
  | Decimal.Nil => acc
  | Decimal.D0 d => uint_value d (10 * acc)
  | Decimal.D1 d => uint_value d (10 * acc + 1)
  | Decimal.D2 d => uint_value d (10 * acc + 2)
  | Decimal.D3 d => uint_value d (10 * acc + 3)
  | Decimal.D4 d => uint_value d (10 * acc + 4)
  | Decimal.D5 d => uint_value d (10 * acc + 5)
  | Decimal.D6 d => uint_value d (10 * acc + 6)
  | Decimal.D7 d => uint_value d (10 * acc + 7)
  | Decimal.D8 d => uint_value d (10 * acc + 8)
  | Decimal.D9 d => uint_value d (10 * acc + 9)
  end.

Lemma uint_value_acc d (acc : positive) :
  uint_value d (Z.pos acc) = Z.pos (Pos.of_uint_acc d acc).
Proof.
  revert acc. induction d as [|d IH|d IH|d IH|d IH|d IH|d IH|d IH|d IH|d IH|d IH];
    intros acc; cbn [uint_value Pos.of_uint_acc]; [done|..];
    rewrite <- IH; f_equal; lia.
Qed.

Lemma uint_value_0 d : uint_value d 0 = Z.of_N (Pos.of_uint d).
Proof.
  induction d as [|d IH|d IH|d IH|d IH|d IH|d IH|d IH|d IH|d IH|d IH];
    cbn [uint_value Pos.of_uint]; [done|exact IH|..];
    change (10 * 0 + ?k) with k; apply (uint_value_acc d).
Qed.

Lemma length_string_of_uint d :
  String.length (NilEmpty.string_of_uint d) = Decimal.nb_digits d.
Proof.
  induction d as [|d IH|d IH|d IH|d IH|d IH|d IH|d IH|d IH|d IH|d IH];
    cbn [NilEmpty.string_of_uint String.length Decimal.nb_digits]; congruence.
Qed.

Lemma parse_digits_uint d acc digits after_digit :
  d <> Decimal.Nil \/ after_digit = true ->
  (digits + Decimal.nb_digits d <= max_str_digits)%nat ->
  parse_digits (NilEmpty.string_of_uint d) acc digits after_digit
  = Some (uint_value d acc).
Proof.
  revert acc digits after_digit.
  induction d as [|d IH|d IH|d IH|d IH|d IH|d IH|d IH|d IH|d IH|d IH];
    intros acc digits after_digit Hne Hlen;
    cbn [NilEmpty.string_of_uint parse_digits uint_value Decimal.nb_digits] in *.
  - destruct Hne as [Hne| ->]; [done|].
    by rewrite (proj2 (Nat.leb_le _ _)) by lia.
  - change (is_digit "0") with true. cbn iota.
    change (digit_value "0") with 0. rewrite Z.add_0_r.
    apply IH; [by right|lia].
  - change (is_digit "1") with true. apply IH; [by right|lia].
  - change (is_digit "2") with true. apply IH; [by right|lia].
  - change (is_digit "3") with true. apply IH; [by right|lia].
  - change (is_digit "4") with true. apply IH; [by right|lia].
  - change (is_digit "5") with true. apply IH; [by right|lia].
  - change (is_digit "6") with true. apply IH; [by right|lia].
  - change (is_digit "7") with true. apply IH; [by right|lia].
  - change (is_digit "8") with true. apply IH; [by right|lia].
  - change (is_digit "9") with true. apply IH; [by right|lia].
Qed.

Lemma all_chars_string_of_uint d :
  all_chars is_digit (NilEmpty.string_of_uint d) = true.
Proof.
  induction d as [|d IH|d IH|d IH|d IH|d IH|d IH|d IH|d IH|d IH|d IH];
    cbn [NilEmpty.string_of_uint all_chars]; [done|..]; exact IH.
Qed.

Lemma is_digit_not_int_isspace c : is_digit c = true -> int_isspace c = false.
Proof.
  destruct c as [[] [] [] [] [] [] [] []]; vm_compute; intros H;
    first [discriminate H | done].
Qed.

Lemma int_lstrip_digits s : all_chars is_digit s = true -> int_lstrip s = s.
Proof.
  destruct s as [|c s]; [done|]. cbn [all_chars int_lstrip].
  intros [Hc _]%andb_true_iff. by rewrite is_digit_not_int_isspace.
Qed.

Lemma int_rstrip_digits s : all_chars is_digit s = true -> int_rstrip s = s.
Proof.
  induction s as [|c s IH]; [done|]. cbn [all_chars int_rstrip].
  intros [Hc Hs]%andb_true_iff. rewrite IH by done.
  destruct s; [|done]. by rewrite is_digit_not_int_isspace.
Qed.

(** The decimal digits of a number that is not negative. *)
Lemma str_digits n : 0 <= n -> all_chars is_digit (str n) = true.
Proof.
  intros Hn. unfold str. destruct n as [|p|p]; [done| |lia].
  cbn [Z.to_int NilZero.string_of_int]. unfold NilZero.string_of_uint.
  destruct (Pos.to_uint p) eqn:E; [done|..];
    rewrite <- E; apply all_chars_string_of_uint.
Qed.

(** [int(str(n)) == n], within the number of digits that [int] accepts. *)
Lemma int_str n :
  0 <= n -> (String.length (str n) <= max_str_digits)%nat ->
  int (str n) = Some n.
Proof.
  intros Hn Hlen. pose proof (str_digits n Hn) as Hdigits.
  unfold int. rewrite int_lstrip_digits, int_rstrip_digits by done.
  unfold str in *. destruct n as [|p|p]; [done| |lia].
  cbn [Z.to_int NilZero.string_of_int] in *.
  pose proof (DecimalPos.Unsigned.of_to p) as Hof.
  pose proof (DecimalPos.Unsigned.to_uint_nonnil p) as Hnil.
  unfold NilZero.string_of_uint in *.
  assert (parse_digits (NilEmpty.string_of_uint (Pos.to_uint p)) 0 0 false
          = Some (Z.pos p)) as Hparse.
  { rewrite parse_digits_uint.
    - by rewrite uint_value_0, Hof.
    - by left.
    - destruct (Pos.to_uint p); [done|..];
        rewrite length_string_of_uint in Hlen; exact Hlen. }
  destruct (Pos.to_uint p) eqn:E; [done|..]; exact Hparse.
Qed.

End int_facts.

(** ** Properties of the flag and delete methods of the IMAP folder *)

Module IMAP_flags_facts.
Import Base imaputil imaputil_facts imaputil_parse imaputil_parse_facts.
Import IMAP_flags int_facts.
Local Open Scope py_scope.

(** *** Batches *)

(** The slices [uidlist[i:i + batch_size]] that __processmessagesflags
    hands over, in the order of the loop. *)
Definition chunks (step : nat) (uidlist : list Z) : list (list Z) :=
  map (fun i => take step (drop i uidlist)) (range_step (length uidlist) step).

Definition batches (uidlist : list Z) : list (list Z) :=
  chunks batch_size uidlist.

Lemma range_step_0 step : (0 < step)%nat -> range_step 0 step = [].
Proof.
  intros Hs. unfold range_step.
  replace ((0 + step - 1) / step)%nat with 0%nat; [done|].
  symmetry. apply Nat.div_small. lia.
Qed.

Lemma range_step_pos n step :
  (0 < step)%nat -> (0 < n)%nat ->
  range_step n step
  = 0%nat :: map (fun i => (i + step)%nat) (range_step (n - step) step).
Proof.
  intros Hs Hn. unfold range_step.
  assert (((n + step - 1) / step)%nat = S ((n - step + step - 1) / step)) as ->.
  { replace (n + step - 1)%nat with ((n - 1) + 1 * step)%nat by lia.
    rewrite Nat.div_add by lia.
    destruct (decide (n <= step)%nat) as [Hle|Hgt].
    - rewrite (Nat.div_small (n - 1)) by lia.
      rewrite (Nat.div_small (n - step + step - 1)) by lia. lia.
    - replace (n - step + step - 1)%nat with (n - 1)%nat by lia. lia. }
  cbn [seq map]. f_equal. rewrite <- seq_shift, !map_map.
  apply map_ext. intros k. lia.
Qed.

Lemma chunks_nil step : (0 < step)%nat -> chunks step [] = [].
Proof. intros Hs. unfold chunks. cbn [length]. by rewrite range_step_0. Qed.

Lemma chunks_cons step uid uidlist :
  (0 < step)%nat ->
  chunks step (uid :: uidlist)
  = take step (uid :: uidlist) :: chunks step (drop step (uid :: uidlist)).
Proof.
  intros Hs. unfold chunks.
  rewrite range_step_pos by (cbn [length]; lia).
  cbn [map]. rewrite drop_0. f_equal. rewrite map_map, length_drop.
  apply map_ext. intros i. rewrite drop_drop. do 2 f_equal. lia.
Qed.

(** The batches are the list cut into pieces: put one after the other they
    give the list back, none is empty and none is longer than the step. *)
Lemma chunks_spec step uidlist :
  (0 < step)%nat ->
  concat (chunks step uidlist) = uidlist /\
  Forall (fun b => (0 < length b <= step)%nat) (chunks step uidlist).
Proof.
  intros Hs.
  assert (forall n l, (length l <= n)%nat ->
            concat (chunks step l) = l /\
            Forall (fun b => (0 < length b <= step)%nat) (chunks step l)) as H.
  { induction n as [|n IH]; intros l Hl.
    - destruct l; [|cbn in Hl; lia]. by rewrite chunks_nil.
    - destruct l as [|uid l]; [by rewrite chunks_nil|].
      rewrite chunks_cons by done.
      destruct (IH (drop step (uid :: l))) as [Hc Hf].
      { rewrite length_drop. cbn [length] in *. lia. }
      split.
      + cbn [concat]. rewrite Hc. apply take_drop.
      + constructor; [|done]. rewrite length_take. cbn [length]. lia. }
  by apply (H (length uidlist)).
Qed.

Lemma elem_of_batches uidlist b uid :
  b ∈ batches uidlist -> uid ∈ b -> uid ∈ uidlist.
Proof.
  intros Hb Hu.
  destruct (chunks_spec batch_size uidlist) as [Hc _]; [unfold batch_size; lia|].
  rewrite <- Hc. apply list_elem_of_In, in_concat. exists b.
  split; by apply list_elem_of_In.
Qed.

Lemma for_each_map {S X Y} (h : X -> Y) (l : list X) (body : Y -> M S unit) s :
  for_each (map h l) body s = for_each l (fun x => body (h x)) s.
Proof.
  revert s. induction l as [|x l IH]; intros s; [done|].
  cbn [map for_each]. unfold bind. destruct (body (h x) s); [apply IH|done].
Qed.

Section facts.
Variable imapserver : nat -> imapobj.
Variable expunge_setting : bool.
Variable ERROR_MESSAGE : Z.

Abbreviation real := (processmessagesflags_real imapserver ERROR_MESSAGE).

Lemma processmessagesflags_batches operation uidlist fl f :
  processmessagesflags imapserver ERROR_MESSAGE operation uidlist fl f
  = for_each (batches uidlist) (fun b => real operation b fl) f.
Proof. unfold processmessagesflags, batches, chunks. by rewrite for_each_map. Qed.

(** *** A server that answers OK and says nothing more *)

(** The message with its flags changed by [g]. *)
Definition alter_flags (g : gset ascii -> gset ascii) (m : message) : message :=
  Message (g (flags m)) (keywords m) (time m).

Definition with_messagelist (ml : gmap Z message) (f : imapfolder) : imapfolder :=
  Imapfolder ml (acquired f) (events f).

(** ['+'] or ['-'], and what it does to the flags of a message. *)
Definition operation_of (add : bool) : string := if add then "+" else "-".

Definition change (add : bool) (fl old : gset ascii) : gset ascii :=
  if add then old ∪ fl else old ∖ fl.

(** The connection can be selected for writing, and answers OK to every
    STORE with items that are all [None]. *)
Definition silent (conn : imapobj) : Prop :=
  select conn = IMAP.select_ok /\
  forall uids field flagstr,
    (uid_store conn uids field flagstr).1 = "OK"%string /\
    Forall (fun item => item = None) (uid_store conn uids field flagstr).2.

(** The two events of a STORE on a batch. *)
Definition store_events (add : bool) (fl : gset ascii) (b : list Z)
    : list event :=
  [SELECT; UID_STORE (uid_sequence b) (operation_of add ++ "FLAGS")
                     (IMAP.flagsmaildir2imap fl)].

Lemma update_flags_present uid g m f :
  messagelist f !! uid = Some m ->
  update_flags uid g f
  = Ret tt (with_messagelist (alter (alter_flags g) uid (messagelist f)) f).
Proof.
  intros Hm. unfold update_flags, with_messagelist. rewrite Hm. do 2 f_equal.
  apply map_eq. intros j. destruct (decide (j = uid)) as [->|Hne].
  - by rewrite lookup_insert_eq, lookup_alter_eq, Hm.
  - by rewrite lookup_insert_ne, lookup_alter_ne.
Qed.

Lemma alter_is_Some {A} (h : A -> A) (ml : gmap Z A) i j :
  is_Some (alter h i ml !! j) <-> is_Some (ml !! j).
Proof.
  destruct (decide (j = i)) as [->|Hne].
  - rewrite lookup_alter_eq. apply fmap_is_Some.
  - by rewrite lookup_alter_ne.
Qed.

Lemma for_each_update_flags g uids f :
  (forall uid, uid ∈ uids -> is_Some (messagelist f !! uid)) ->
  for_each uids (fun uid => update_flags uid g) f
  = Ret tt (with_messagelist
              (foldl (fun ml uid => alter (alter_flags g) uid ml)
                     (messagelist f) uids) f).
Proof.
  revert f. induction uids as [|uid uids IH]; intros f Hin.
  - by destruct f.
  - destruct (Hin uid) as [m Hm]; [left|].
    cbn [for_each foldl]. unfold bind.
    rewrite (update_flags_present uid g m) by done. rewrite IH; [done|].
    intros u Hu. cbn. apply alter_is_Some, Hin. by right.
Qed.

Lemma foldl_alter_lookup {A} (h : A -> A) (ml : gmap Z A) uids uid :
  (forall a, h (h a) = h a) ->
  foldl (fun ml uid => alter h uid ml) ml uids !! uid
  = if decide (uid ∈ uids) then h <$> ml !! uid else ml !! uid.
Proof.
  intros Hh. revert ml. induction uids as [|x uids IH]; intros ml.
  - cbn. by rewrite decide_False by (apply not_elem_of_nil).
  - cbn [foldl]. rewrite IH. destruct (decide (uid = x)) as [->|Hne].
    + rewrite lookup_alter_eq, (decide_True _ _ (list_elem_of_here x uids)).
      destruct (decide (x ∈ uids)); [|done].
      destruct (ml !! x); cbn; [|done]. by rewrite Hh.
    + rewrite lookup_alter_ne by done.
      destruct (decide (uid ∈ uids)) as [Hin|Hnin].
      * by rewrite decide_True by (by right).
      * rewrite decide_False; [done|]. by intros [|]%elem_of_cons.
Qed.

Lemma process_response_silent response needupdate f :
  Forall (fun item => item = None) response ->
  process_response response needupdate f = Ret needupdate f.
Proof.
  induction 1 as [|item response -> _ IH]; [done|]. cbn [process_response]. apply IH.
Qed.

Lemma real_silent add batch fl f :
  silent (imapserver (acquired f)) ->
  (forall uid, uid ∈ batch -> is_Some (messagelist f !! uid)) ->
  real (operation_of add) batch fl f
  = Ret tt (Imapfolder
              (foldl (fun ml uid => alter (alter_flags (change add fl)) uid ml)
                     (messagelist f) batch)
              (S (acquired f))
              (events f ++ store_events add fl batch)).
Proof.
  intros [Hsel Hstore] Hin.
  unfold processmessagesflags_real. unfold bind at 1, acquireconnection at 1.
  unfold bind at 1, emit at 1, modify at 1. rewrite Hsel.
  unfold bind at 1, emit at 1, modify at 1.
  destruct (Hstore (uid_sequence batch) (operation_of add ++ "FLAGS")%string
                   (IMAP.flagsmaildir2imap fl)) as [Htyp Hitems].
  rewrite Htyp. cbn [String.eqb Ascii.eqb Bool.eqb negb].
  unfold bind at 1. rewrite process_response_silent by done.
  cbn [messagelist acquired events]. rewrite <- app_assoc.
  destruct add; cbn [operation_of String.eqb Ascii.eqb Bool.eqb];
    rewrite for_each_update_flags by done; done.
Qed.

Lemma batches_silent add bs fl f :
  (forall n, silent (imapserver n)) ->
  (forall b uid, b ∈ bs -> uid ∈ b -> is_Some (messagelist f !! uid)) ->
  for_each bs (fun b => real (operation_of add) b fl) f
  = Ret tt (Imapfolder
              (foldl (fun ml uid => alter (alter_flags (change add fl)) uid ml)
                     (messagelist f) (concat bs))
              (acquired f + length bs)
              (events f ++ flat_map (store_events add fl) bs)).
Proof.
  intros Hsilent. revert f. induction bs as [|b bs IH]; intros f Hin.
  - cbn. rewrite Nat.add_0_r, app_nil_r. by destruct f.
  - cbn [for_each]. unfold bind. rewrite real_silent.
    + rewrite IH.
      * cbn [messagelist acquired events concat flat_map length].
        rewrite foldl_app, <- app_assoc. do 2 f_equal. lia.
      * intros b' uid Hb' Hu. cbn [messagelist].
        assert (forall (l : list Z) (ml : gmap Z message),
                  is_Some (ml !! uid) ->
                  is_Some (foldl (fun ml uid =>
                                    alter (alter_flags (change add fl)) uid ml)
                                 ml l !! uid)) as Hkeep.
        { induction l as [|x l IHl]; intros ml Hml; [done|].
          cbn [foldl]. by apply IHl, alter_is_Some. }
        apply Hkeep, (Hin b'); [by right|done].
    + apply Hsilent.
    + intros uid Hu. apply (Hin b); [left|done].
Qed.

Lemma change_idempotent add fl m :
  alter_flags (change add fl) (alter_flags (change add fl) m)
  = alter_flags (change add fl) m.
Proof.
  unfold alter_flags. cbn. f_equal. destruct add; cbn; set_solver.
Qed.

(** X18: on a server that answers OK to every STORE and says nothing more,
    [addmessagesflags] and [deletemessagesflags] on messages of the folder
    return after one SELECT and one UID STORE for each batch; the batches
    are the list cut into pieces of at most 100 UIDs; every message of the
    list has gained, or lost, the flags, and no other message has
    changed. *)
Theorem flags_stored_in_batches (add : bool) uidlist fl f :
  (forall n, silent (imapserver n)) ->
  (forall uid, uid ∈ uidlist -> is_Some (messagelist f !! uid)) ->
  exists f',
    (if add then addmessagesflags imapserver ERROR_MESSAGE uidlist fl
     else deletemessagesflags imapserver ERROR_MESSAGE uidlist fl) f
    = Ret tt f' /\
    (forall uid,
       messagelist f' !! uid
       = if decide (uid ∈ uidlist)
         then (fun m => Message (if add then flags m ∪ fl else flags m ∖ fl)
                                (keywords m) (time m))
                <$> messagelist f !! uid
         else messagelist f !! uid) /\
    events f' = events f ++ flat_map (store_events add fl) (batches uidlist) /\
    acquired f' = (acquired f + length (batches uidlist))%nat /\
    concat (batches uidlist) = uidlist /\
    Forall (fun b => (0 < length b <= 100)%nat) (batches uidlist).
Proof.
  intros Hsilent Hin.
  destruct (chunks_spec batch_size uidlist) as [Hconcat Hsizes];
    [unfold batch_size; lia|].
  eexists. split_and!.
  - assert ((if add then addmessagesflags imapserver ERROR_MESSAGE uidlist fl
             else deletemessagesflags imapserver ERROR_MESSAGE uidlist fl)
            = processmessagesflags imapserver ERROR_MESSAGE (operation_of add)
                                   uidlist fl) as -> by (by destruct add).
    rewrite processmessagesflags_batches. apply batches_silent; [done|].
    intros b uid Hb Hu. eapply Hin, elem_of_batches; done.
  - intros uid. cbn [messagelist]. fold (batches uidlist) in Hconcat.
    rewrite Hconcat, foldl_alter_lookup by apply change_idempotent.
    by destruct add.
  - done.
  - done.
  - done.
  - done.
Qed.

(** *** A folder that cannot be written to *)

(** What the user interface hears of a batch on a read-only folder. *)
Definition readonly_events (fl : gset ascii) (b : list Z) : list event :=
  [SELECT; flagstoreadonly b fl].

Lemma real_readonly operation batch fl f :
  select (imapserver (acquired f)) = IMAP.select_readonly ->
  real operation batch fl f
  = Ret tt (Imapfolder (messagelist f) (S (acquired f))
                       (events f ++ readonly_events fl batch)).
Proof.
  intros Hsel. unfold processmessagesflags_real.
  unfold bind at 1, acquireconnection at 1.
  unfold bind at 1, emit at 1, modify at 1. rewrite Hsel.
  unfold emit, modify. cbn [messagelist acquired events].
  by rewrite <- app_assoc.
Qed.

Lemma batches_readonly operation bs fl f :
  (forall n, select (imapserver n) = IMAP.select_readonly) ->
  for_each bs (fun b => real operation b fl) f
  = Ret tt (Imapfolder (messagelist f) (acquired f + length bs)
                       (events f ++ flat_map (readonly_events fl) bs)).
Proof.
  intros Hro. revert f. induction bs as [|b bs IH]; intros f.
  - cbn. rewrite Nat.add_0_r, app_nil_r. by destruct f.
  - cbn [for_each]. unfold bind. rewrite real_readonly by apply Hro.
    rewrite IH. cbn [messagelist acquired events flat_map length].
    rewrite <- app_assoc. do 2 f_equal. lia.
Qed.

(** X19: on a folder that the server opens read-only, [addmessagesflags],
    [deletemessagesflags] and [deletemessages] return without a STORE or an
    EXPUNGE and leave the cached message list as it is; the user interface
    is told of each batch of flags, and of the deletion. *)
Theorem readonly_folder_unchanged uidlist fl f :
  (forall n, select (imapserver n) = IMAP.select_readonly) ->
  (exists f',
     addmessagesflags imapserver ERROR_MESSAGE uidlist fl f = Ret tt f' /\
     messagelist f' = messagelist f /\
     events f' = events f ++ flat_map (readonly_events fl) (batches uidlist)) /\
  (exists f',
     deletemessagesflags imapserver ERROR_MESSAGE uidlist fl f = Ret tt f' /\
     messagelist f' = messagelist f /\
     events f' = events f ++ flat_map (readonly_events fl) (batches uidlist)) /\
  (exists f',
     deletemessages imapserver expunge_setting ERROR_MESSAGE uidlist f
     = Ret tt f' /\
     messagelist f' = messagelist f /\
     events f'
     = events f
       ++ match uidlist with
          | [] => []
          | _ => flat_map (readonly_events {["T"%char]}) (batches uidlist)
                 ++ [SELECT; deletereadonly uidlist]
          end).
Proof.
  intros Hro. split_and!.
  - eexists. unfold addmessagesflags.
    rewrite processmessagesflags_batches, batches_readonly by done. done.
  - eexists. unfold deletemessagesflags.
    rewrite processmessagesflags_batches, batches_readonly by done. done.
  - unfold deletemessages, deletemessages_noconvert.
    destruct uidlist as [|uid uidlist].
    { exists f. by rewrite app_nil_r. }
    eexists. unfold bind at 1. unfold addmessagesflags.
    rewrite processmessagesflags_batches, batches_readonly by done.
    unfold bind at 1, acquireconnection at 1.
    unfold bind at 1, emit at 1, modify at 1. rewrite Hro.
    unfold emit, modify. cbn [messagelist acquired events].
    split_and!; [done..|]. by rewrite <- !app_assoc.
Qed.

(** *** Deleting messages *)

Lemma foldl_alter_is_Some {A} (h : A -> A) (ml : gmap Z A) uids uid :
  is_Some (foldl (fun ml uid => alter h uid ml) ml uids !! uid)
  <-> is_Some (ml !! uid).
Proof.
  revert ml. induction uids as [|x uids IH]; intros ml; [done|].
  cbn [foldl]. rewrite IH. apply alter_is_Some.
Qed.

Lemma for_each_delete_entry uids f :
  NoDup uids ->
  (forall uid, uid ∈ uids -> is_Some (messagelist f !! uid)) ->
  for_each uids delete_entry f
  = Ret tt (with_messagelist
              (foldl (fun ml uid => delete uid ml) (messagelist f) uids) f).
Proof.
  intros Hnodup. revert f.
  induction Hnodup as [|uid uids Hnotin _ IH]; intros f Hin.
  - by destruct f.
  - destruct (Hin uid) as [m Hm]; [left|].
    cbn [for_each foldl]. unfold bind, delete_entry at 1. rewrite Hm.
    rewrite IH; [done|].
    intros u Hu. cbn [messagelist]. rewrite lookup_delete_ne.
    + apply Hin. by right.
    + intros ->. done.
Qed.

Lemma foldl_delete_lookup {A} (ml : gmap Z A) uids uid :
  foldl (fun ml uid => delete uid ml) ml uids !! uid
  = if decide (uid ∈ uids) then None else ml !! uid.
Proof.
  revert ml. induction uids as [|x uids IH]; intros ml.
  - cbn. by rewrite decide_False by (apply not_elem_of_nil).
  - cbn [foldl]. rewrite IH. destruct (decide (uid = x)) as [->|Hne].
    + rewrite lookup_delete_eq, (decide_True _ _ (list_elem_of_here x uids)).
      by destruct (decide (x ∈ uids)).
    + rewrite lookup_delete_ne by done.
      destruct (decide (uid ∈ uids)) as [Hin|Hnin].
      * by rewrite decide_True by (by right).
      * rewrite decide_False; [done|]. by intros [|]%elem_of_cons.
Qed.

(** X20: on a server that answers OK and says nothing more,
    [deletemessages] on messages of the folder, each listed once, returns
    with these messages gone from the cached list and the others as they
    were, after storing the flag [\Deleted] batch by batch and one more
    SELECT; it sends EXPUNGE when [expunge] is set, and only then.  For an
    empty list it does nothing at all. *)
Theorem deletemessages_removes uidlist f :
  (forall n, silent (imapserver n)) ->
  (expunge_setting = true -> forall n, expunge (imapserver n) = "OK"%string) ->
  NoDup uidlist ->
  (forall uid, uid ∈ uidlist -> is_Some (messagelist f !! uid)) ->
  exists f',
    deletemessages imapserver expunge_setting ERROR_MESSAGE uidlist f
    = Ret tt f' /\
    (forall uid,
       messagelist f' !! uid
       = if decide (uid ∈ uidlist) then None else messagelist f !! uid) /\
    events f'
    = events f
      ++ match uidlist with
         | [] => []
         | _ => flat_map (store_events true {["T"%char]}) (batches uidlist)
                ++ SELECT :: (if expunge_setting then [EXPUNGE] else [])
         end.
Proof.
  intros Hsilent Hexpunge Hnodup Hin.
  unfold deletemessages, deletemessages_noconvert.
  destruct uidlist as [|uid0 uidlist0].
  { exists f. split_and!; [done| |by rewrite app_nil_r].
    intros uid. by rewrite decide_False by (apply not_elem_of_nil). }
  cbv beta iota. remember (uid0 :: uidlist0) as uidlist eqn:Hlist. clear Hlist.
  destruct (chunks_spec batch_size uidlist) as [Hconcat _];
    [unfold batch_size; lia|].
  fold (batches uidlist) in Hconcat.
  unfold bind at 1. unfold addmessagesflags.
  rewrite processmessagesflags_batches.
  rewrite (batches_silent true) by
    (done || (intros b uid Hb Hu; eapply Hin, elem_of_batches; done)).
  rewrite Hconcat.
  unfold bind at 1, acquireconnection at 1.
  unfold bind at 1, emit at 1, modify at 1.
  cbn [messagelist acquired events].
  destruct (Hsilent (acquired f + length (batches uidlist))%nat) as [-> _].
  assert (forall g,
    (forall uid, uid ∈ uidlist -> is_Some (messagelist g !! uid)) ->
    exists f',
      for_each uidlist delete_entry g = Ret tt f' /\
      (forall uid, messagelist f' !! uid
                   = if decide (uid ∈ uidlist) then None
                     else messagelist g !! uid) /\
      events f' = events g) as Hdel.
  { intros g Hg. eexists. rewrite for_each_delete_entry by done.
    split_and!; [done| |done].
    intros uid. cbn [messagelist with_messagelist]. apply foldl_delete_lookup. }
  destruct expunge_setting.
  - unfold bind at 1. unfold bind at 1, emit at 1, modify at 1.
    cbn [acquired]. rewrite Hexpunge by done.
    cbn [String.eqb Ascii.eqb Bool.eqb negb]. unfold ret at 1.
    edestruct Hdel as (f' & -> & Hml & Hev).
    { cbn [messagelist]. intros uid Hu. by apply foldl_alter_is_Some, Hin. }
    exists f'. split_and!; [done| |].
    + intros uid. rewrite Hml. cbn [messagelist].
      destruct (decide (uid ∈ uidlist)); [done|].
      rewrite foldl_alter_lookup by apply change_idempotent.
      by rewrite decide_False.
    + rewrite Hev. cbn [events]. by rewrite <- !app_assoc.
  - unfold bind at 1, ret at 1.
    edestruct Hdel as (f' & -> & Hml & Hev).
    { cbn [messagelist]. intros uid Hu. by apply foldl_alter_is_Some, Hin. }
    exists f'. split_and!; [done| |].
    + intros uid. rewrite Hml. cbn [messagelist].
      destruct (decide (uid ∈ uidlist)); [done|].
      rewrite foldl_alter_lookup by apply change_idempotent.
      by rewrite decide_False.
    + rewrite Hev. cbn [events]. by rewrite <- !app_assoc.
Qed.

(** *** A server that reports the flags of the message *)

(** An item of the answer to UID STORE: a sequence number, the UID and the
    flags of the message. *)
Definition store_answer (seq uidstr body : string) : string :=
  (seq ++ " (UID " ++ uidstr ++ " FLAGS (" ++ body ++ "))")%string.

Lemma store_answer_joined seq uidstr body :
  store_answer seq uidstr body
  = joined [Atom seq;
            Group (joined [Atom "UID"; Atom uidstr; Atom "FLAGS"; Group body])].
Proof.
  unfold store_answer, joined. cbn [map render_token join].
  repeat rewrite ?append_assoc, ?append_cons, ?append_nil_l. done.
Qed.

Lemma is_digit_plain c :
  is_digit c = true ->
  nonspace c = true /\ Ascii.eqb c ")" = false /\ Ascii.eqb c "(" = false /\
  Ascii.eqb c (ascii_of_nat 34) = false.
Proof.
  destruct c as [[] [] [] [] [] [] [] []]; vm_compute; intros H;
    first [discriminate H | done].
Qed.

Lemma balanced_digits depth s t :
  all_chars is_digit s = true ->
  balanced depth (s ++ t) = balanced depth t.
Proof.
  induction s as [|c s IH]; [done|]. cbn [all_chars].
  intros [Hc Hs]%andb_true_iff. apply is_digit_plain in Hc as (_ & H1 & H2 & _).
  rewrite append_cons. cbn [balanced]. rewrite H1, H2. by apply IH.
Qed.

Lemma balanced_app k depth s t :
  balanced k s = true -> balanced (k + depth) (s ++ t) = balanced depth t.
Proof.
  revert k. induction s as [|c s IH]; intros k.
  - cbn [balanced]. by intros ->%Nat.eqb_eq.
  - cbn [balanced]. rewrite append_cons. cbn [balanced].
    destruct (Ascii.eqb c ")").
    + destruct k as [|k]; [done|]. cbn [Nat.add]. apply IH.
    + destruct (Ascii.eqb c "("); [apply (IH (S k))|apply IH].
Qed.

Lemma digits_atom s :
  s <> ""%string -> all_chars is_digit s = true -> is_atom s = true.
Proof.
  intros Hne Hall. unfold is_atom. destruct s as [|c s]; [done|].
  assert (all_chars nonspace (String c s) = true) as ->.
  { clear Hne. induction (String c s) as [|d r IH]; [done|].
    cbn [all_chars] in *. apply andb_true_iff in Hall as [Hd Hr].
    apply is_digit_plain in Hd as (-> & _). by rewrite IH. }
  cbn [all_chars] in Hall. apply andb_true_iff in Hall as [Hc _].
  apply is_digit_plain in Hc as (_ & _ & -> & ->). done.
Qed.

Lemma flags2hash_tokens ts :
  forallb well_formed ts = true ->
  flags2hash ("(" ++ joined ts ++ ")")
  = Some (options2hash (map render_token ts)).
Proof. intros Hall. unfold flags2hash, joined. by rewrite flagsplit_tokens. Qed.

(** X21: when the server answers a STORE for one message with the UID and
    the flags of that message, the cached flags become what the server
    reports, as [flagsimap2maildir] reads it, whatever the flags that
    [addmessageflags] or [deletemessageflags] was asked to add or remove;
    keywords and time stay. *)
Theorem store_answer_wins (add : bool) uid fl seq body m f :
  select (imapserver (acquired f)) = IMAP.select_ok ->
  uid_store (imapserver (acquired f)) (uid_sequence [uid])
            (operation_of add ++ "FLAGS") (IMAP.flagsmaildir2imap fl)
  = ("OK"%string, [Some (store_answer seq (str uid) body)]) ->
  is_atom seq = true ->
  0 <= uid ->
  (String.length (str uid) <= max_str_digits)%nat ->
  balanced 0 body = true ->
  messagelist f !! uid = Some m ->
  exists f',
    (if add then addmessageflags imapserver ERROR_MESSAGE uid fl
     else deletemessageflags imapserver ERROR_MESSAGE uid fl) f = Ret tt f' /\
    messagelist f'
    = <[uid := Message (flagsimap2maildir ("(" ++ body ++ ")"))
                       (keywords m) (time m)]> (messagelist f) /\
    events f' = events f ++ store_events add fl [uid].
Proof.
  intros Hsel Hstore Hseq Hpos Hlen Hbody Hm.
  pose proof (str_digits uid Hpos) as Hdigits.
  pose proof (int_str uid Hpos Hlen) as Hint.
  set (uidstr := str uid) in *.
  assert (uidstr <> ""%string) as Hne.
  { intros Hempty. rewrite Hempty in Hint. discriminate Hint. }
  pose proof (digits_atom uidstr Hne Hdigits) as Huid.
  assert ((if add then addmessageflags imapserver ERROR_MESSAGE uid fl
           else deletemessageflags imapserver ERROR_MESSAGE uid fl)
          = processmessagesflags imapserver ERROR_MESSAGE (operation_of add)
                                 [uid] fl) as -> by (by destruct add).
  unfold processmessagesflags.
  change (range_step (length [uid]) batch_size) with [0%nat].
  cbn [for_each]. change (take batch_size (drop 0 [uid])) with [uid].
  unfold bind at 1. unfold processmessagesflags_real.
  unfold bind at 1, acquireconnection at 1.
  unfold bind at 1, emit at 1, modify at 1. rewrite Hsel.
  unfold bind at 1, emit at 1, modify at 1. rewrite Hstore.
  cbn [fst snd String.eqb Ascii.eqb Bool.eqb negb].
  unfold bind at 1. cbn [process_response].
  set (attrs := [Atom "UID"; Atom uidstr; Atom "FLAGS"; Group body]).
  assert (forallb well_formed attrs = true) as Hattrs.
  { cbn [forallb attrs well_formed]. by rewrite Huid, Hbody. }
  assert (forallb well_formed [Atom seq; Group (joined attrs)] = true) as Hline.
  { cbn [forallb well_formed]. rewrite Hseq. cbn [andb].
    unfold joined, attrs. cbn [map render_token join].
    repeat rewrite ?append_assoc, ?append_cons, ?append_nil_l.
    cbn [balanced Ascii.eqb Bool.eqb]. rewrite balanced_digits by done.
    cbn [balanced Ascii.eqb Bool.eqb].
    rewrite (balanced_app 0 1) by done. done. }
  rewrite store_answer_joined. fold attrs.
  rewrite imapsplit_joined by done.
  unfold bind at 1, of_parse at 1, ret at 1.
  cbn [map render_token lookup list_lookup].
  rewrite flags2hash_tokens by done.
  unfold bind at 1, of_parse at 1, ret at 1. unfold options2hash, attrs.
  cbn [map render_token options2hash_loop].
  rewrite lookup_insert_ne by done. rewrite lookup_insert_eq.
  rewrite lookup_insert_eq. rewrite Hint.
  unfold bind at 1, update_flags at 1. cbn [messagelist]. rewrite Hm.
  cbn [list_remove]. rewrite Z.eqb_refl. cbn [process_response].
  unfold ret at 1. cbn [for_each]. unfold ret.
  eexists. split_and!; [done|done|]. cbn [events]. by rewrite <- app_assoc.
Qed.

End facts.

(** *** Three servers and a folder of three messages *)

Definition quiet_server (n : nat) : imapobj :=
  Imapobj IMAP.select_ok (fun _ _ _ => ("OK"%string, [None])) "OK".

Definition readonly_server (n : nat) : imapobj :=
  Imapobj IMAP.select_readonly (fun _ _ _ => ("NO"%string, [])) "NO".

Definition telling_server (n : nat) : imapobj :=
  Imapobj IMAP.select_ok
          (fun _ _ _ => ("OK"%string,
                         [Some (store_answer "1" "7" "\Seen \Answered Old")]))
          "OK".

Definition three_messages : imapfolder :=
  Imapfolder (list_to_map [(3, Message ∅ ∅ 0);
                           (5, Message {["S"%char]} {["work"%string]} 10);
                           (7, Message {["F"%char]} ∅ 20)])
             0 [].

Lemma quiet_server_silent n : silent (quiet_server n).
Proof. split; [done|]. intros uids field flagstr. split; [done|]. by constructor. Qed.

Lemma three_messages_present uid :
  uid ∈ [7; 3] -> is_Some (messagelist three_messages !! uid).
Proof.
  intros [->|[->|[]%elem_of_nil]%elem_of_cons]%elem_of_cons;
    eexists; vm_compute; reflexivity.
Qed.

Lemma flags_stored_in_batches_witness :
  exists f',
    addmessagesflags quiet_server 0 [7; 3] {["T"%char]} three_messages
    = Ret tt f' /\
    (forall uid,
       messagelist f' !! uid
       = if decide (uid ∈ [7; 3])
         then (fun m => Message (flags m ∪ {["T"%char]}) (keywords m) (time m))
                <$> messagelist three_messages !! uid
         else messagelist three_messages !! uid) /\
    events f'
    = events three_messages
      ++ flat_map (store_events true {["T"%char]}) (batches [7; 3]) /\
    acquired f' = (acquired three_messages + length (batches [7; 3]%Z))%nat /\
    concat (batches [7; 3]) = [7; 3] /\
    Forall (fun b => (0 < length b <= 100)%nat) (batches [7; 3]).
Proof.
  apply (flags_stored_in_batches quiet_server 0 true [7; 3] {["T"%char]}
           three_messages).
  - apply quiet_server_silent.
  - apply three_messages_present.
Defined.

Example flags_stored_events :
  events (final (addmessagesflags quiet_server 0 [7; 3] {["T"%char]}
                   three_messages))
  = [SELECT; UID_STORE "3,7" "+FLAGS" "(\Deleted)"].
Proof. vm_compute. reflexivity. Qed.

Lemma readonly_folder_unchanged_witness :
  (exists f',
     addmessagesflags readonly_server 0 [7; 3] {["S"%char]} three_messages
     = Ret tt f' /\
     messagelist f' = messagelist three_messages /\
     events f' = events three_messages
                 ++ flat_map (readonly_events {["S"%char]}) (batches [7; 3])) /\
  (exists f',
     deletemessagesflags readonly_server 0 [7; 3] {["S"%char]} three_messages
     = Ret tt f' /\
     messagelist f' = messagelist three_messages /\
     events f' = events three_messages
                 ++ flat_map (readonly_events {["S"%char]}) (batches [7; 3])) /\
  (exists f',
     deletemessages readonly_server true 0 [7; 3] three_messages = Ret tt f' /\
     messagelist f' = messagelist three_messages /\
     events f'
     = events three_messages
       ++ flat_map (readonly_events {["T"%char]}) (batches [7; 3])
       ++ [SELECT; deletereadonly [7; 3]]).
Proof.
  apply (readonly_folder_unchanged readonly_server true 0 [7; 3] {["S"%char]}
           three_messages).
  reflexivity.
Defined.

Lemma deletemessages_removes_witness :
  exists f',
    deletemessages quiet_server true 0 [7; 3] three_messages = Ret tt f' /\
    (forall uid,
       messagelist f' !! uid
       = if decide (uid ∈ [7; 3]) then None
         else messagelist three_messages !! uid) /\
    events f'
    = events three_messages
      ++ flat_map (store_events true {["T"%char]}) (batches [7; 3])
      ++ [SELECT; EXPUNGE].
Proof.
  apply (deletemessages_removes quiet_server true 0 [7; 3] three_messages).
  - apply quiet_server_silent.
  - reflexivity.
  - apply (bool_decide_unpack (NoDup [7; 3])). vm_compute. exact I.
  - apply three_messages_present.
Defined.

Example deletemessages_left :
  map fst (map_to_list (messagelist
    (final (deletemessages quiet_server true 0 [7; 3] three_messages))))
  = [5].
Proof. vm_compute. reflexivity. Qed.

(** A UID that is listed twice is deleted once, and the second [del] raises
    KeyError, after the server was told to delete. *)
Example deletemessages_twice :
  exists f', deletemessages quiet_server false 0 [7; 7] three_messages
             = Raise KeyError f' /\
             events f' = [SELECT; UID_STORE "7,7" "+FLAGS" "(\Deleted)"; SELECT].
Proof. eexists. split; vm_compute; reflexivity. Qed.

Lemma store_answer_wins_witness :
  exists f',
    addmessageflags telling_server 0 7 {["T"%char]} three_messages = Ret tt f' /\
    messagelist f'
    = <[7 := Message (flagsimap2maildir ("(" ++ "\Seen \Answered Old" ++ ")"))
                     (keywords (Message {["F"%char]} ∅ 20))
                     (time (Message {["F"%char]} ∅ 20))]>
        (messagelist three_messages) /\
    events f' = events three_messages ++ store_events true {["T"%char]} [7].
Proof.
  apply (store_answer_wins telling_server 0 true 7 {["T"%char]} "1"
           "\Seen \Answered Old" (Message {["F"%char]} ∅ 20) three_messages).
  - reflexivity.
  - reflexivity.
  - reflexivity.
  - lia.
  - apply Nat.leb_le. vm_compute. reflexivity.
  - reflexivity.
  - vm_compute. reflexivity.
Defined.

Example store_answer_flags :
  flags <$> messagelist (final (addmessageflags telling_server 0 7 {["T"%char]}
                                  three_messages)) !! 7
  = Some {["S"%char; "R"%char]}.
Proof. vm_compute. reflexivity. Qed.

End IMAP_flags_facts.

(** ** IMAP savemessage with UIDPLUS, and for a message that is there *)

Module IMAP_uidplus_facts.
Import Base IMAP Base_facts IMAP_facts IMAP_save_facts.
Local Open Scope py_scope.

Section facts.
Context {Msg : Type}.
Variable del_header : string -> Msg -> Msg.
Variable add_header : string -> string -> Msg -> Msg.
Variable as_bytes : Msg -> string.
Variable crc32 : string -> Z.
Variable randint : nat -> Z.
Variable imapobj_quote : string -> string.
Variable header_in : string -> string -> string -> bool.
Variable uid_after : string -> option Z.
Variable uid_before : string -> option Z.
Variable getmessageinternaldate : Msg -> Z -> option string.
Variable filterheaders : list string.
Variable imapserver : nat -> imapobj.
Variable uid_store : Z -> string -> store_response.
Variable ERROR_MESSAGE ERROR_REPO : Z.

Abbreviation save :=
  (savemessage del_header add_header as_bytes crc32 randint imapobj_quote
               header_in uid_after uid_before getmessageinternaldate
               filterheaders imapserver uid_store ERROR_MESSAGE ERROR_REPO).



(** X23: a message that the folder has, under a UID > 0, is never uploaded
    again: savemessage sends no APPEND, the only result it can return is
    that UID, the other messages of the list stay as they are, and the
    message keeps its keywords and its time. *)
Theorem savemessage_known_uid uid (msg : Msg) fl rtime m f :
  0 < uid ->
  messagelist f !! uid = Some m ->
  exists new m',
    sent (final (save uid msg fl rtime f)) = sent f ++ new /\
    appends new = 0%nat /\
    (forall v f', save uid msg fl rtime f = Ret v f' -> v = uid) /\
    (forall u, u <> uid ->
       messagelist (final (save uid msg fl rtime f)) !! u = messagelist f !! u) /\
    messagelist (final (save uid msg fl rtime f)) !! uid = Some m' /\
    keywords m' = keywords m /\ time m' = time m.
Proof.
  intros Hpos Hm.
  assert (save uid msg fl rtime f
          = (savemessageflags imapserver uid_store ERROR_MESSAGE uid fl ;;
             ret uid) f) as ->.
  { unfold savemessage. unfold bind at 1, gets at 1.
    rewrite (proj2 (uidexists_true uid (messagelist f))) by (by eexists).
    by replace (0 <? uid) with true by lia. }
  unfold savemessageflags, set_messagelist.
  unfold bind, acquireconnection, send, modify, gets, ret, raise.
  cbn [messagelist drawn acquired sent].
  assert (forall (ml : gmap Z message) new_flags u, u <> uid ->
            <[uid := Message new_flags (keywords m) (time m)]> ml !! u = ml !! u)
    as Hother by (intros; by rewrite lookup_insert_ne).
  destruct (select (imapserver (acquired f))).
  - destruct (uid_store uid (flagsmaildir2imap fl)) as [| |new_flags];
      cbn [messagelist drawn acquired sent]; rewrite ?Hm;
      cbn [final sent messagelist]; rewrite <- app_assoc.
    + exists [SELECT; UID_STORE_FLAGS uid (flagsmaildir2imap fl)], m.
      split_and!; done.
    + exists [SELECT; UID_STORE_FLAGS uid (flagsmaildir2imap fl)],
             (Message fl (keywords m) (time m)).
      split_and!;
        first [done | by intros v f' [= <- _] | by apply Hother
              | by rewrite lookup_insert_eq].
    + exists [SELECT; UID_STORE_FLAGS uid (flagsmaildir2imap fl)],
             (Message new_flags (keywords m) (time m)).
      split_and!;
        first [done | by intros v f' [= <- _] | by apply Hother
              | by rewrite lookup_insert_eq].
  - exists [SELECT], m. cbn [final sent messagelist].
    split_and!; first [done | by intros v f' [= <- _]].
Qed.

End facts.

(** *** A run against a server with UIDPLUS *)

(** The server lists UIDPLUS, takes the message and answers APPENDUID with
    the UID 9. *)
Definition uidplus_connection : imapobj :=
  Imapobj ["IMAP4REV1"%string; "UIDPLUS"%string] select_ok
          (fun _ _ _ => append_typ "OK") "OK"
          (appenduid_uid 9) (fun _ _ => search_matching [])
          (fun _ => ("OK"%string, [])).

Definition uidplus_message : list (string * string) :=
  [("Subject"%string, "hello"%string)].


Definition known_folder : imapfolder :=
  Imapfolder (list_to_map [(4, Message ∅ {["work"%string]} 77)]) 0 0 [].

Lemma savemessage_known_uid_witness :
  exists new m',
    sent (final (savemessage toy_del_header toy_add_header toy_as_bytes
                   toy_crc32 toy_randint (fun s => s) toy_header_in
                   toy_uid_after (fun _ => None) (fun _ _ => None) []
                   (fun _ => uidplus_connection) (fun _ _ => store_no_result)
                   0 30 4 uidplus_message {["S"%char]} 0 known_folder))
    = sent known_folder ++ new /\
    appends new = 0%nat /\
    (forall v f',
       savemessage toy_del_header toy_add_header toy_as_bytes
         toy_crc32 toy_randint (fun s => s) toy_header_in
         toy_uid_after (fun _ => None) (fun _ _ => None) []
         (fun _ => uidplus_connection) (fun _ _ => store_no_result)
         0 30 4 uidplus_message {["S"%char]} 0 known_folder = Ret v f' ->
       v = 4) /\
    (forall u, u <> 4 ->
       messagelist (final (savemessage toy_del_header toy_add_header
                     toy_as_bytes toy_crc32 toy_randint (fun s => s)
                     toy_header_in toy_uid_after (fun _ => None)
                     (fun _ _ => None) [] (fun _ => uidplus_connection)
                     (fun _ _ => store_no_result)
                     0 30 4 uidplus_message {["S"%char]} 0 known_folder)) !! u
       = messagelist known_folder !! u) /\
    messagelist (final (savemessage toy_del_header toy_add_header
                  toy_as_bytes toy_crc32 toy_randint (fun s => s)
                  toy_header_in toy_uid_after (fun _ => None)
                  (fun _ _ => None) [] (fun _ => uidplus_connection)
                  (fun _ _ => store_no_result)
                  0 30 4 uidplus_message {["S"%char]} 0 known_folder)) !! 4
    = Some m' /\
    keywords m' = keywords (Message ∅ {["work"%string]} 77) /\
    time m' = time (Message ∅ {["work"%string]} 77).
Proof.
  apply (savemessage_known_uid toy_del_header toy_add_header toy_as_bytes
           toy_crc32 toy_randint (fun s => s) toy_header_in toy_uid_after
           (fun _ => None) (fun _ _ => None) [] (fun _ => uidplus_connection)
           (fun _ _ => store_no_result) 0 30
           4 uidplus_message {["S"%char]} 0 (Message ∅ {["work"%string]} 77)
           known_folder).
  - lia.
  - vm_compute. reflexivity.
Defined.

End IMAP_uidplus_facts.

(** ** offlineimap/folder/IMAP.py: cachemessagelist *)

Module IMAP_cache.
Import Base imaputil imaputil_parse IMAP_flags.
Local Open Scope py_scope.

(** [s.split(' ', 1)]. *)
Fixpoint split_space1 (s : string) : list string :=
  match s with
  | EmptyString => [EmptyString]
  | String c s' =>
      if Ascii.eqb c " " then [EmptyString; s']
      else match split_space1 s' with
           | w :: ws => String c w :: ws
           | [] => [String c EmptyString]
           end
  end.

(** ["%02d" % n]. *)
Definition format_02d (n : Z) : string :=
  let s := str n in
  if (String.length s <? 2)%nat then String "0" s else s.

(** [imaplib2.MonthNames]. *)
Definition MonthNames : list (option string) :=
  [None; Some "Jan"; Some "Feb"; Some "Mar"; Some "Apr"; Some "May";
   Some "Jun"; Some "Jul"; Some "Aug"; Some "Sep"; Some "Oct"; Some "Nov";
   Some "Dec"]%string.

(** [l[i]] for an integer [i], counted from the end when negative; [None]
    is IndexError. *)
Definition getitem {A} (l : list A) (i : Z) : option A :=
  if 0 <=? i then l !! Z.to_nat i
  else if - Z.of_nat (length l) <=? i then l !! Z.to_nat (Z.of_nat (length l) + i)
  else None.

(** ["%s" % x] for [x] a string or [None]. *)
Definition format_s (x : option string) : string := default "None"%string x.

(** [[x.decode('utf-8') for x in data]]: [None] when an item is [None],
    which has no [decode]. *)
Definition decode_all (data : list (option string)) : option (list string) :=
  mapM id data.

(** What the folder does that can be seen from outside: the commands it
    sends and the messages of the user interface. *)
Inductive event :=
| loadmessagelist
| SELECT
| SEARCH (search_conditions : string)
| FETCH (message_set : string)
| warn
| messagelistloaded (count : nat).

(** What [imapobj.search] gives: an exception, or a type and items. *)
Inductive search_response :=
| search_raises
| search_data (res_type : string) (res_data : list (option string)).

(** What one connection answers to the calls that cachemessagelist makes
    on it: the data of SELECT, SEARCH for a condition, and FETCH of a
    message set.  An item is [None] or the text of a byte string. *)
Record imapobj := Imapobj {
  select : list (option string);
  search : string -> search_response;
  fetch : string -> string * list (option string)
}.

Record imapfolder := Imapfolder {
  messagelist : gmap Z message;
  acquired : nat;
  events : list event
}.

Section cache.
(** The connections that [self.imapserver.acquireconnection()] gives,
    [self.getmaxsize()], [imaplibutil.Internaldate2epoch] and
    [OfflineImapError.ERROR.FOLDER]. *)
Variable imapserver : nat -> imapobj.
Variable maxsize : option Z.
Variable Internaldate2epoch : string -> Z.
Variable ERROR_FOLDER : Z.

Abbreviation F := imapfolder.

Definition emit (e : event) : M F unit :=
  modify (fun f => Imapfolder (messagelist f) (acquired f) (events f ++ [e])).

Definition acquireconnection : M F imapobj :=
  fun f => Ret (imapserver (acquired f))
               (Imapfolder (messagelist f) (S (acquired f)) (events f)).

(** [self.messagelist[uid] = m]. *)
Definition set_item (uid : Z) (m : message) : M F unit :=
  modify (fun f => Imapfolder (<[uid := m]> (messagelist f))
                              (acquired f) (events f)).

(** [dropmessagelistcache]: Base.py lines 332-335. *)
Definition dropmessagelistcache : M F unit :=
  modify (fun f => Imapfolder ∅ (acquired f) (events f)).

(** The inner function [search] of _msgs_to_fetch: lines 199-240.  Every
    exception of the call and the error on a type other than OK end in the
    same OfflineImapError.  The items are strings, so that [0 in res_data]
    is false. *)
Definition msgs_to_fetch_search (conn : imapobj) (search_conditions : string)
    : M F (list string) :=
  emit (SEARCH search_conditions) ;;
  match search conn search_conditions with
  | search_raises => raise (OfflineImapError ERROR_FOLDER)
  | search_data res_type res_data =>
      if negb (String.eqb res_type "OK")
      then raise (OfflineImapError ERROR_FOLDER)
      else
        match decode_all res_data with
        | None => raise (Exception "AttributeError")
        | Some res_data =>
            match res_data with
            | first :: _ =>
                if bool_decide (is_Some (find " " first)) || String.eqb first ""
                then ret (split first)
                else ret res_data
            | [] => ret res_data
            end
        end
  end.

(** [imaputil.uid_sequence] on a list of strings: lines 207-213. *)
Definition uid_sequence_of_strings (uidlist : list string) : M F string :=
  match uidlist with
  | [] => ret ""%string
  | _ =>
      match mapM int uidlist with
      | Some uids => ret (uid_sequence uids)
      | None => raise (Exception "ValueError")
      end
  end.

(** [_msgs_to_fetch]: lines 181-276.  [min_date] is a [time_struct], read
    at its indices 0, 1 and 2. *)
Definition msgs_to_fetch (conn : imapobj) (min_date : option (Z * Z * Z))
    (min_uid : option Z) : M F (option string) :=
  emit SELECT ;;
  match select conn with
  | [] => raise (Exception "IndexError")
  | first :: rest =>
      if bool_decide (first :: rest = [None])
         || bool_decide (first = Some "0"%string)
      then ret None
      else
        match decode_all (first :: rest) with
        | None => raise (Exception "AttributeError")
        | Some _ =>
            let* conditions :=
              match min_uid, min_date with
              | Some uid, _ => ret ["UID " ++ str uid ++ ":*"]%string
              | None, Some (year, month, day) =>
                  match getitem MonthNames month with
                  | None => raise (Exception "IndexError")
                  | Some name =>
                      ret ["SINCE " ++ format_02d day ++ "-" ++ format_s name
                           ++ "-" ++ str year]%string
                  end
              | None, None => ret []
              end in
            let conditions :=
              match maxsize with
              | Some size => conditions ++ ["SMALLER " ++ str size]%string
              | None => conditions
              end in
            match conditions with
            | _ :: _ =>
                let search_cond := ("(" ++ join " " conditions ++ ")")%string in
                let* search_result := msgs_to_fetch_search conn search_cond in
                let* sequence := uid_sequence_of_strings search_result in
                ret (Some sequence)
            | [] => ret (Some "1:*"%string)
            end
        end
  end.

(** The body of the loop over the response: lines 311-329. *)
Definition cache_item (item : option string) : M F unit :=
  match item with
  | None => ret tt
  | Some messagestr =>
      match split_space1 messagestr !! 1%nat with
      | None => raise (Exception "IndexError")
      | Some messagestr =>
          let* options := of_parse (flags2hash messagestr) in
          match options !! "UID"%string with
          | None => emit warn
          | Some uidstr =>
              match int uidstr with
              | None => raise (Exception "ValueError")
              | Some uid =>
                  set_item uid (Message ∅ ∅ 0) ;;
                  match options !! "FLAGS"%string with
                  | None => raise KeyError
                  | Some flagstr =>
                      set_item uid (Message (flagsimap2maildir flagstr)
                                            (flagsimap2keywords flagstr)
                                            (Internaldate2epoch messagestr))
                  end
              end
          end
      end
  end.

(** [cachemessagelist]: lines 283-330. *)
Definition cachemessagelist (min_date : option (Z * Z * Z))
    (min_uid : option Z) : M F unit :=
  emit loadmessagelist ;;
  dropmessagelistcache ;;
  let* conn := acquireconnection in
  let* msgsToFetch := msgs_to_fetch conn min_date min_uid in
  match msgsToFetch with
  | None => ret tt
  | Some EmptyString => ret tt
  | Some fetch_msg =>
      emit (FETCH fetch_msg) ;;
      let response := fetch conn fetch_msg in
      if negb (String.eqb response.1 "OK")
      then raise (OfflineImapError ERROR_FOLDER)
      else
        for_each response.2 cache_item ;;
        let* count := gets (fun f => size (messagelist f)) in
        emit (messagelistloaded count)
  end.

End cache.

End IMAP_cache.

(** ** Properties of cachemessagelist *)

Module IMAP_cache_facts.
Import Base imaputil imaputil_facts imaputil_parse imaputil_parse_facts.
Import IMAP_flags int_facts IMAP_flags_facts IMAP_cache.
Local Open Scope py_scope.

(** *** What the server reports of a message *)

(** A message in the answer to FETCH: its sequence number, its UID, the
    names of its flags and its internal date. *)
Record fetched := Fetched {
  fetched_seq : string;
  fetched_uid : Z;
  fetched_flags : list string;
  fetched_date : string
}.

(** The attributes of the message as the server writes them. *)
Definition fetched_attributes (e : fetched) : string :=
  ("(FLAGS (" ++ join " " (fetched_flags e) ++ ") UID " ++ str (fetched_uid e)
   ++ " INTERNALDATE " ++ quote (fetched_date e) ++ ")")%string.

(** The item of the answer: [1 (FLAGS (\Seen Old) UID 4807 ...)]. *)
Definition fetched_line (e : fetched) : string :=
  (fetched_seq e ++ " " ++ fetched_attributes e)%string.

Definition not_space (c : ascii) : bool := negb (Ascii.eqb c " ").

(** The name of a flag has no whitespace and no parenthesis, and is not
    empty. *)
Definition flag_char (c : ascii) : bool :=
  nonspace c && negb (Ascii.eqb c ")") && negb (Ascii.eqb c "(").

Definition is_flag_name (w : string) : bool :=
  negb (String.eqb w "") && all_chars flag_char w.

(** The sequence number has no space, the UID is not negative and within
    the digits that [int] accepts, the date has no double quote. *)
Definition fetched_ok (e : fetched) : bool :=
  all_chars not_space (fetched_seq e)
  && (0 <=? fetched_uid e)
  && (String.length (str (fetched_uid e)) <=? max_str_digits)%nat
  && forallb is_flag_name (fetched_flags e)
  && negb (has_dquote (fetched_date e)).

(** The letters of the names that are flags of [flagmap], and the names that
    are not. *)
Definition letters_of (names : list string) : gset ascii :=
  list_to_set
    (map snd (List.filter (fun p => bool_decide (p.1 ∈ names)) IMAP.flagmap)).

Definition keywords_of (names : list string) : gset string :=
  list_to_set names ∖ list_to_set (map fst IMAP.flagmap).

Lemma split_space1_app seq rest :
  all_chars not_space seq = true ->
  split_space1 (seq ++ String " " rest) = [seq; rest].
Proof.
  induction seq as [|c seq IH]; [done|]. cbn [all_chars].
  intros [Hc Hs]%andb_true_iff. apply negb_true_iff in Hc.
  rewrite append_cons. cbn [split_space1]. rewrite Hc. by rewrite IH.
Qed.

Lemma all_chars_impl (p q : ascii -> bool) s :
  (forall c, p c = true -> q c = true) ->
  all_chars p s = true -> all_chars q s = true.
Proof.
  intros Hpq. induction s as [|c s IH]; [done|]. cbn [all_chars].
  intros [Hc Hs]%andb_true_iff. by rewrite (Hpq c Hc), IH.
Qed.

Lemma all_chars_join p l :
  p " "%char = true -> Forall (fun w => all_chars p w = true) l ->
  all_chars p (join " " l) = true.
Proof.
  intros Hsp. induction l as [|x [|y l] IH]; [done| |].
  - by intros [Hx _]%Forall_cons.
  - intros [Hx Hl]%Forall_cons. rewrite join_cons_cons.
    rewrite !all_chars_app, Hx, (IH Hl). cbn [all_chars]. by rewrite Hsp.
Qed.

Lemma balanced_plain depth s t :
  all_chars (fun c => negb (Ascii.eqb c ")") && negb (Ascii.eqb c "(")) s = true ->
  balanced depth (s ++ t) = balanced depth t.
Proof.
  induction s as [|c s IH]; [done|]. cbn [all_chars].
  intros [[H1 H2]%andb_true_iff Hs]%andb_true_iff.
  apply negb_true_iff in H1, H2.
  rewrite append_cons. cbn [balanced]. rewrite H1, H2. by apply IH.
Qed.

Lemma is_flag_name_spec w :
  is_flag_name w = true ->
  w <> ""%string /\ all_chars nonspace w = true /\
  all_chars (fun c => negb (Ascii.eqb c ")") && negb (Ascii.eqb c "(")) w = true.
Proof.
  unfold is_flag_name. intros [Hne Hall]%andb_true_iff. split_and!.
  - intros ->. done.
  - revert Hall. apply all_chars_impl. unfold flag_char. intros c.
    by intros [[-> _]%andb_true_iff _]%andb_true_iff.
  - revert Hall. apply all_chars_impl. unfold flag_char. intros c.
    by intros [[_ ->]%andb_true_iff ->]%andb_true_iff.
Qed.

Lemma flag_names_tokens names :
  forallb is_flag_name names = true ->
  split (strip_ends ("(" ++ join " " names ++ ")")) = names.
Proof.
  intros Hall. rewrite (strip_ends_wrapped "(" ")"). apply split_join.
  apply Forall_forall. intros w Hw%list_elem_of_In.
  rewrite forallb_forall in Hall.
  by destruct (is_flag_name_spec w (Hall w Hw)) as (? & ? & _).
Qed.

Lemma flagsimap2maildir_names names :
  forallb is_flag_name names = true ->
  flagsimap2maildir ("(" ++ join " " names ++ ")") = letters_of names.
Proof.
  intros Hall. apply set_eq. intros x.
  rewrite elem_of_flagsimap2maildir, flag_names_tokens by done.
  unfold letters_of. rewrite elem_of_list_to_set, list_elem_of_fmap. split.
  - intros (p & Hp & Hin & <-). exists p. split; [done|].
    apply list_elem_of_In, filter_In. split; [by apply list_elem_of_In|].
    by apply bool_decide_eq_true.
  - intros (p & -> & Hp). apply list_elem_of_In, filter_In in Hp as [Hp Hin].
    exists p. split_and!; [by apply list_elem_of_In| |done].
    by apply bool_decide_eq_true in Hin.
Qed.

Lemma flagsimap2keywords_names names :
  forallb is_flag_name names = true ->
  flagsimap2keywords ("(" ++ join " " names ++ ")") = keywords_of names.
Proof.
  intros Hall. unfold flagsimap2keywords, keywords_of.
  by rewrite flag_names_tokens.
Qed.

(** The tokens of the attributes. *)
Definition fetched_tokens (e : fetched) : list token :=
  [Atom "FLAGS"; Group (join " " (fetched_flags e));
   Atom "UID"; Atom (str (fetched_uid e));
   Atom "INTERNALDATE"; Quoted (fetched_date e)].

Lemma fetched_attributes_joined e :
  fetched_attributes e = ("(" ++ joined (fetched_tokens e) ++ ")")%string.
Proof.
  unfold fetched_attributes, joined, fetched_tokens.
  cbn [map render_token join].
  repeat rewrite ?append_assoc, ?append_cons, ?append_nil_l. done.
Qed.

Lemma fetched_tokens_well_formed e :
  fetched_ok e = true -> forallb well_formed (fetched_tokens e) = true.
Proof.
  unfold fetched_ok.
  intros [[[[Hseq Hpos%Z.leb_le]%andb_true_iff Hlen%Nat.leb_le]%andb_true_iff
            Hflags]%andb_true_iff Hdate]%andb_true_iff.
  cbn [fetched_tokens forallb well_formed]. rewrite Hdate.
  assert (is_atom (str (fetched_uid e)) = true) as ->.
  { apply digits_atom; [|by apply str_digits].
    intros Hempty. pose proof (int_str _ Hpos Hlen) as Hint.
    rewrite Hempty in Hint. discriminate Hint. }
  assert (balanced 0 (join " " (fetched_flags e)) = true) as ->; [|done].
  rewrite <- (append_nil_r (join " " (fetched_flags e))).
  rewrite balanced_plain; [done|]. apply all_chars_join; [done|].
  apply Forall_forall. intros w Hw%list_elem_of_In.
  rewrite forallb_forall in Hflags.
  by destruct (is_flag_name_spec w (Hflags w Hw)) as (_ & _ & ?).
Qed.

Section facts.
Variable imapserver : nat -> imapobj.
Variable maxsize : option Z.
Variable Internaldate2epoch : string -> Z.
Variable ERROR_FOLDER : Z.

(** The entry of the message list that the answer gives. *)
Definition cached (e : fetched) : message :=
  Message (letters_of (fetched_flags e)) (keywords_of (fetched_flags e))
          (Internaldate2epoch (fetched_attributes e)).

Lemma cache_item_fetched e f :
  fetched_ok e = true ->
  cache_item Internaldate2epoch (Some (fetched_line e)) f
  = Ret tt (Imapfolder (<[fetched_uid e := cached e]> (messagelist f))
                       (acquired f) (events f)).
Proof.
  intros Hok. pose proof (fetched_tokens_well_formed e Hok) as Htokens.
  unfold fetched_ok in Hok.
  apply andb_true_iff in Hok as [Hok Hdate].
  apply andb_true_iff in Hok as [Hok Hflags].
  apply andb_true_iff in Hok as [Hok Hlen%Nat.leb_le].
  apply andb_true_iff in Hok as [Hseq Hpos%Z.leb_le].
  unfold cache_item, fetched_line.
  rewrite (append_cons " " "" (fetched_attributes e)), append_nil_l.
  rewrite split_space1_app by done. cbn [lookup list_lookup].
  rewrite fetched_attributes_joined, flags2hash_tokens by done.
  unfold bind at 1, of_parse at 1, ret at 1.
  unfold options2hash, fetched_tokens.
  cbn [map render_token options2hash_loop].
  rewrite (lookup_insert_ne _ "INTERNALDATE"%string "UID"%string) by done.
  rewrite lookup_insert_eq. rewrite int_str by done.
  rewrite (lookup_insert_ne _ "INTERNALDATE"%string "FLAGS"%string) by done.
  rewrite (lookup_insert_ne _ "UID"%string "FLAGS"%string) by done.
  rewrite lookup_insert_eq.
  unfold bind, set_item, modify. cbn [messagelist acquired events].
  rewrite insert_insert_eq.
  rewrite flagsimap2maildir_names, flagsimap2keywords_names by done.
  unfold cached. by rewrite fetched_attributes_joined.
Qed.

Lemma for_each_cache_item (items : list (option fetched)) f :
  Forall (fun item => from_option fetched_ok true item = true) items ->
  for_each (map (fmap fetched_line) items) (cache_item Internaldate2epoch) f
  = Ret tt (Imapfolder
              (list_to_map (reverse (map (fun e => (fetched_uid e, cached e))
                                         (omap id items)))
               ∪ messagelist f)
              (acquired f) (events f)).
Proof.
  intros Hok. revert f. induction Hok as [|item items Hitem _ IH]; intros f.
  - cbn. rewrite (left_id_L ∅ (∪)). by destruct f.
  - cbn [map for_each]. unfold bind. destruct item as [e|].
    + cbn [fmap option_fmap option_map]. rewrite cache_item_fetched by done.
      rewrite IH. cbn [messagelist acquired events].
      change (omap id (Some e :: items)) with (e :: omap id items).
      do 2 f_equal. cbn [map]. rewrite reverse_cons.
      rewrite list_to_map_app, list_to_map_cons, list_to_map_nil.
      rewrite insert_empty, <- (assoc_L (∪)).
      by rewrite <- insert_union_singleton_l.
    + cbn. apply IH.
Qed.

(** X24: on a folder that holds messages, and without a limit on size, UID
    or date, cachemessagelist selects the folder, fetches [1:*] and builds
    the message list from the answer alone, whatever it had cached before:
    each message that the server reports is entered under its UID with the
    letters of its IMAP flags, the other names as keywords, and the time
    that [Internaldate2epoch] reads; items that are [None] are passed
    over, and of two items with the same UID the later one stays. *)
Theorem cachemessagelist_rebuilds (items : list (option fetched)) count f :
  select (imapserver (acquired f)) = [Some count] ->
  count <> "0"%string ->
  maxsize = None ->
  fetch (imapserver (acquired f)) "1:*"
  = ("OK"%string, map (fmap fetched_line) items) ->
  Forall (fun item => from_option fetched_ok true item = true) items ->
  exists f',
    cachemessagelist imapserver maxsize Internaldate2epoch ERROR_FOLDER
                     None None f = Ret tt f' /\
    messagelist f'
    = list_to_map (reverse (map (fun e => (fetched_uid e, cached e))
                                (omap id items))) /\
    events f'
    = events f ++ [loadmessagelist; SELECT; FETCH "1:*";
                   messagelistloaded (size (messagelist f'))] /\
    acquired f' = S (acquired f).
Proof.
  intros Hselect Hcount Hmax Hfetch Hok.
  unfold cachemessagelist.
  unfold bind at 1, emit at 1, modify at 1.
  unfold bind at 1, dropmessagelistcache at 1, modify at 1.
  unfold bind at 1, acquireconnection at 1.
  cbn [messagelist acquired events].
  unfold bind at 1. unfold msgs_to_fetch.
  unfold bind at 1, emit at 1, modify at 1.
  cbn [messagelist acquired events]. rewrite Hselect, Hmax.
  rewrite bool_decide_eq_false_2 by done.
  rewrite bool_decide_eq_false_2 by congruence.
  cbn [orb decode_all mapM mbind option_bind id mret option_ret].
  unfold bind at 1, ret at 1. unfold ret at 1.
  unfold bind at 1, emit at 1, modify at 1.
  cbn [messagelist acquired events]. rewrite Hfetch.
  cbn [fst snd String.eqb Ascii.eqb Bool.eqb negb].
  unfold bind at 1. rewrite for_each_cache_item by done.
  cbn [messagelist acquired events]. rewrite (right_id_L ∅ (∪)).
  unfold bind at 1, gets at 1, emit, modify.
  cbn [messagelist acquired events].
  eexists. split_and!; [done|done| |done].
  cbn [events]. by rewrite <- !app_assoc.
Qed.

(** X25: on a folder that the server reports as empty, by no EXISTS
    response or by the number 0, cachemessagelist drops what it had cached
    and asks nothing more of the server: no SEARCH and no FETCH, whatever
    the limits on size, UID and date. *)
Theorem cachemessagelist_empty_folder min_date min_uid rest f :
  select (imapserver (acquired f)) = [None]
  \/ select (imapserver (acquired f)) = Some "0"%string :: rest ->
  cachemessagelist imapserver maxsize Internaldate2epoch ERROR_FOLDER
                   min_date min_uid f
  = Ret tt (Imapfolder ∅ (S (acquired f))
                       (events f ++ [loadmessagelist; SELECT])).
Proof.
  intros Hselect. unfold cachemessagelist.
  unfold bind at 1, emit at 1, modify at 1.
  unfold bind at 1, dropmessagelistcache at 1, modify at 1.
  unfold bind at 1, acquireconnection at 1.
  cbn [messagelist acquired events].
  unfold bind at 1. unfold msgs_to_fetch.
  unfold bind at 1, emit at 1, modify at 1.
  cbn [messagelist acquired events].
  destruct Hselect as [-> | ->].
  - rewrite bool_decide_eq_true_2 by done. cbn [orb]. unfold ret.
    by rewrite <- app_assoc.
  - rewrite (bool_decide_eq_true_2 (Some "0"%string = Some "0"%string)) by done.
    rewrite orb_true_r. unfold ret. by rewrite <- app_assoc.
Qed.

(** *** With a lower bound on the UID *)

Lemma str_nonempty n : str n <> ""%string.
Proof.
  unfold str. destruct n as [|p|p]; [done| |done].
  cbn [Z.to_int NilZero.string_of_int]. unfold NilZero.string_of_uint.
  pose proof (DecimalPos.Unsigned.to_uint_nonnil p) as Hnil.
  destruct (Pos.to_uint p); done.
Qed.

Lemma uid_sequence_nonempty l : l <> [] -> uid_sequence l <> ""%string.
Proof.
  intros Hl. rewrite uid_sequence_render. unfold render, uid_ranges, runs.
  destruct (sorted l) as [|y ys] eqn:E.
  { apply (f_equal length) in E. unfold sorted in E.
    rewrite (Permutation_length (merge_sort_Permutation Z.le l)) in E.
    by destruct l. }
  destruct (runs_from_head y y ys) as (b & tl & ->).
  cbn [map fst snd]. intros Hempty.
  assert (getrange y b <> ""%string) as Hrange.
  { unfold getrange. pose proof (str_nonempty y) as Hy.
    destruct (y =? b); [done|]. by destruct (str y). }
  destruct tl as [|r tl]; cbn [map join] in Hempty; [done|].
  by destruct (getrange y b).
Qed.

(** The numbers that the server found, as it writes them. *)
Definition number_ok (n : Z) : bool :=
  (0 <=? n) && (String.length (str n) <=? max_str_digits)%nat.

Lemma number_ok_spec n :
  number_ok n = true ->
  int (str n) = Some n /\ str n <> ""%string /\
  all_chars nonspace (str n) = true /\ all_chars not_space (str n) = true.
Proof.
  intros [Hpos%Z.leb_le Hlen%Nat.leb_le]%andb_true_iff.
  pose proof (str_digits n Hpos) as Hdigits. split_and!.
  - by apply int_str.
  - apply str_nonempty.
  - revert Hdigits. apply all_chars_impl. intros c Hc.
    by apply is_digit_plain in Hc as (? & _).
  - revert Hdigits. apply all_chars_impl. intros c Hc. unfold not_space.
    destruct c as [[] [] [] [] [] [] [] []]; vm_compute in Hc |- *;
      first [discriminate Hc | done].
Qed.

Lemma mapM_int_str numbers :
  forallb number_ok numbers = true ->
  mapM int (map str numbers) = Some numbers.
Proof.
  induction numbers as [|n numbers IH]; [done|]. cbn [forallb map].
  intros [Hn Hrest]%andb_true_iff.
  destruct (number_ok_spec n Hn) as (Hint & _).
  cbn [mapM]. rewrite Hint. cbn. rewrite IH by done. done.
Qed.

Lemma search_numbers conn cond numbers f :
  search conn cond = search_data "OK" [Some (join " " (map str numbers))] ->
  forallb number_ok numbers = true ->
  msgs_to_fetch_search ERROR_FOLDER conn cond f
  = Ret (map str numbers)
        (Imapfolder (messagelist f) (acquired f) (events f ++ [SEARCH cond])).
Proof.
  intros Hsearch Hok. unfold msgs_to_fetch_search.
  unfold bind at 1, emit at 1, modify at 1. rewrite Hsearch.
  cbn [String.eqb Ascii.eqb Bool.eqb negb decode_all mapM mbind option_bind
       id mret option_ret].
  assert (Forall (fun w => w <> ""%string /\ all_chars nonspace w = true)
                 (map str numbers)) as Hwords.
  { apply Forall_fmap, Forall_forall. intros n Hn%list_elem_of_In.
    rewrite forallb_forall in Hok.
    by destruct (number_ok_spec n (Hok n Hn)) as (_ & ? & ? & _). }
  destruct numbers as [|n [|n' numbers]].
  - done.
  - cbn [map join]. cbn [forallb] in Hok. apply andb_true_iff in Hok as [Hn _].
    destruct (number_ok_spec n Hn) as (_ & Hne & _ & Hsp).
    assert (find " " (str n) = None) as ->.
    { clear Hne. induction (str n) as [|c s IH]; [done|].
      cbn [all_chars] in Hsp. apply andb_true_iff in Hsp as [Hc Hs].
      unfold not_space in Hc. apply negb_true_iff in Hc.
      cbn [find]. rewrite Hc. by rewrite IH. }
    rewrite bool_decide_eq_false_2 by (by intros []).
    destruct (str n); [done|]. done.
  - cbn [forallb] in Hok. apply andb_true_iff in Hok as [Hn _].
    destruct (number_ok_spec n Hn) as (_ & _ & _ & Hsp).
    change (map str (n :: n' :: numbers))
      with (str n :: str n' :: map str numbers) in *.
    assert (is_Some (find " " (join " " (str n :: str n' :: map str numbers))))
      as Hfound.
    { rewrite join_cons_cons. rewrite (append_cons " " ""), append_nil_l.
      rewrite (find_plain " " (str n)) by exact Hsp. by eexists. }
    rewrite bool_decide_eq_true_2 by done. cbn [orb].
    by rewrite split_join.
Qed.

(** X26: with a lower bound on the UID, cachemessagelist asks the server
    to SEARCH for [UID n:*], and for [SMALLER size] when there is a limit
    on size, whatever the date it was given; it then fetches the numbers
    that the search found, written as [uid_sequence] writes them, and
    builds the message list from that answer. *)
Theorem cachemessagelist_searches min_date min_uid numbers
    (items : list (option fetched)) count f :
  let conn := imapserver (acquired f) in
  let search_cond :=
    ("(" ++ join " " (("UID " ++ str min_uid ++ ":*")
                      :: match maxsize with
                         | Some size => ["SMALLER " ++ str size]
                         | None => []
                         end) ++ ")")%string in
  select conn = [Some count] ->
  count <> "0"%string ->
  search conn search_cond
  = search_data "OK" [Some (join " " (map str numbers))] ->
  forallb number_ok numbers = true ->
  numbers <> [] ->
  fetch conn (uid_sequence numbers)
  = ("OK"%string, map (fmap fetched_line) items) ->
  Forall (fun item => from_option fetched_ok true item = true) items ->
  exists f',
    cachemessagelist imapserver maxsize Internaldate2epoch ERROR_FOLDER
                     min_date (Some min_uid) f = Ret tt f' /\
    messagelist f'
    = list_to_map (reverse (map (fun e => (fetched_uid e, cached e))
                                (omap id items))) /\
    events f'
    = events f ++ [loadmessagelist; SELECT; SEARCH search_cond;
                   FETCH (uid_sequence numbers);
                   messagelistloaded (size (messagelist f'))] /\
    acquired f' = S (acquired f).
Proof.
  cbv zeta. intros Hselect Hcount Hsearch Hnumbers Hne Hfetch Hok.
  unfold cachemessagelist.
  unfold bind at 1, emit at 1, modify at 1.
  unfold bind at 1, dropmessagelistcache at 1, modify at 1.
  unfold bind at 1, acquireconnection at 1.
  cbn [messagelist acquired events].
  unfold bind at 1. unfold msgs_to_fetch.
  unfold bind at 1, emit at 1, modify at 1.
  cbn [messagelist acquired events]. rewrite Hselect.
  rewrite bool_decide_eq_false_2 by done.
  rewrite bool_decide_eq_false_2 by congruence.
  cbn [orb decode_all mapM mbind option_bind id mret option_ret].
  unfold bind at 1, ret at 1.
  assert (match maxsize with
          | Some size => ([("UID " ++ str min_uid ++ ":*")%string]
                          ++ [("SMALLER " ++ str size)%string])%list
          | None => [("UID " ++ str min_uid ++ ":*")%string]
          end
          = ("UID " ++ str min_uid ++ ":*")%string
            :: match maxsize with
               | Some size => [("SMALLER " ++ str size)%string]
               | None => []
               end) as Hconditions by (by destruct maxsize).
  rewrite Hconditions. clear Hconditions. cbv iota.
  unfold bind at 1. rewrite (search_numbers _ _ numbers) by done.
  unfold bind at 1. unfold uid_sequence_of_strings.
  rewrite mapM_int_str by done.
  destruct numbers as [|n numbers]; [done|].
  change (map str (n :: numbers)) with (str n :: map str numbers). cbv iota.
  unfold ret at 1. unfold ret at 1.
  pose proof (uid_sequence_nonempty (n :: numbers) Hne) as Hseq.
  destruct (uid_sequence (n :: numbers)) as [|c s] eqn:E; [done|].
  unfold bind at 1, emit at 1, modify at 1.
  cbn [messagelist acquired events]. rewrite Hfetch.
  cbn [fst snd String.eqb Ascii.eqb Bool.eqb negb].
  unfold bind at 1. rewrite for_each_cache_item by done.
  cbn [messagelist acquired events]. rewrite (right_id_L ∅ (∪)).
  unfold bind at 1, gets at 1, emit, modify.
  cbn [messagelist acquired events].
  eexists. split_and!; [done|done| |done].
  cbn [events]. by rewrite <- !app_assoc.
Qed.

End facts.

(** *** A folder of two messages, and an empty one *)

(** The time that stands for the internal date of an item. *)
Definition toy_epoch (s : string) : Z := Z.of_nat (String.length s).

(** The server reports UID 4807 twice, the second time as seen only. *)
Definition inbox_answer : list (option fetched) :=
  [Some (Fetched "1" 4807 ["\Seen"; "Old"; "\Flagged"]%string
                 "17-Jul-1996 02:44:25 -0700");
   None;
   Some (Fetched "2" 4808 []%string "18-Jul-1996 09:00:00 +0000");
   Some (Fetched "1" 4807 ["\Seen"]%string "17-Jul-1996 02:44:25 -0700")].

Definition inbox_server (n : nat) : imapobj :=
  Imapobj [Some "2"%string] (fun _ => search_raises)
          (fun _ => ("OK"%string, map (fmap fetched_line) inbox_answer)).

Definition empty_server (n : nat) : imapobj :=
  Imapobj [Some "0"%string] (fun _ => search_raises)
          (fun _ => ("NO"%string, [])).

(** What the folder had cached before. *)
Definition stale_folder : imapfolder :=
  Imapfolder (list_to_map [(1, Message {["T"%char]} ∅ 0)]) 0 [].

Lemma cachemessagelist_rebuilds_witness :
  exists f',
    cachemessagelist inbox_server None toy_epoch 20 None None stale_folder
    = Ret tt f' /\
    messagelist f'
    = list_to_map (reverse (map (fun e => (fetched_uid e, cached toy_epoch e))
                                (omap id inbox_answer))) /\
    events f'
    = events stale_folder ++ [loadmessagelist; SELECT; FETCH "1:*";
                              messagelistloaded (size (messagelist f'))] /\
    acquired f' = S (acquired stale_folder).
Proof.
  apply (cachemessagelist_rebuilds inbox_server None toy_epoch 20 inbox_answer
           "2" stale_folder).
  - reflexivity.
  - discriminate.
  - reflexivity.
  - reflexivity.
  - repeat constructor.
Defined.

Example inbox_cached :
  map (fun p => (p.1, flags p.2, keywords p.2))
      (map_to_list (messagelist (final
         (cachemessagelist inbox_server None toy_epoch 20 None None
                           stale_folder))))
  = [(4807, {["S"%char]}, ∅); (4808, ∅, ∅)].
Proof. vm_compute. reflexivity. Qed.

Lemma cachemessagelist_empty_folder_witness :
  cachemessagelist empty_server (Some 5000) toy_epoch 20 None (Some 17)
                   stale_folder
  = Ret tt (Imapfolder ∅ (S (acquired stale_folder))
                       (events stale_folder ++ [loadmessagelist; SELECT])).
Proof.
  apply (cachemessagelist_empty_folder empty_server (Some 5000) toy_epoch 20
           None (Some 17) [] stale_folder).
  right. reflexivity.
Defined.

(** The server finds the messages 3, 4, 5 and 9. *)
Definition searching_server (n : nat) : imapobj :=
  Imapobj [Some "9"%string]
          (fun _ => search_data "OK" [Some (join " " (map str [4; 9; 3; 5]))])
          (fun _ => ("OK"%string, map (fmap fetched_line) inbox_answer)).

Lemma cachemessagelist_searches_witness :
  exists f',
    cachemessagelist searching_server (Some 5000) toy_epoch 20
                     (Some (2020, 3, 7)) (Some 17) stale_folder = Ret tt f' /\
    messagelist f'
    = list_to_map (reverse (map (fun e => (fetched_uid e, cached toy_epoch e))
                                (omap id inbox_answer))) /\
    events f'
    = events stale_folder
      ++ [loadmessagelist; SELECT;
          SEARCH ("(" ++ join " " [("UID " ++ str 17 ++ ":*")%string;
                                   ("SMALLER " ++ str 5000)%string] ++ ")");
          FETCH (uid_sequence [4; 9; 3; 5]);
          messagelistloaded (size (messagelist f'))] /\
    acquired f' = S (acquired stale_folder).
Proof.
  apply (cachemessagelist_searches searching_server (Some 5000) toy_epoch 20
           (Some (2020, 3, 7)) 17 [4; 9; 3; 5] inbox_answer "9" stale_folder).
  - reflexivity.
  - discriminate.
  - reflexivity.
  - vm_compute. reflexivity.
  - discriminate.
  - reflexivity.
  - repeat constructor.
Defined.

Example searching_events :
  events (final (cachemessagelist searching_server (Some 5000) toy_epoch 20
                   (Some (2020, 3, 7)) (Some 17) stale_folder))
  = [loadmessagelist; SELECT; SEARCH "(UID 17:* SMALLER 5000)";
     FETCH "3:5,9"; messagelistloaded 2].
Proof. vm_compute. reflexivity. Qed.

End IMAP_cache_facts.
